(** * quickbooks-sync: storefront variants reconciled into accounting items

    A shallow embedding of the two engines of the repository:
    - [Shopify]: [generateProductName], [generateProductDescription],
      [parseProduct], [validateProductVariants] and the pagination loop
      [getAllProductVariants];
    - [ShopifyEngine]: [getProdutVariants], one page over the admin client;
    - [QuickBooks]: [didChangeProductContent], [resolveAccountRefs],
      [findOrCreateCategoryByName] and [syncProduct].

    JavaScript values are kept as the code sees them: a property is
    [undefined], [null] or a value; numbers are IEEE doubles; [==], the
    truthiness test and template literals are the language's own.  Strings
    are sequences of code units, here the 8-bit characters of [string]. *)

From Stdlib Require Import Floats.PrimFloat.
From stdpp Require Import gmap strings list pretty sorting.

(** ** JavaScript values *)

Inductive js (A : Type) : Type :=
| undefined
| null
| val (a : A).
Arguments undefined {A}.
Arguments null {A}.
Arguments val {A} a.

(** [if (x)], [!x], [x ? a : b] *)
Class Truthy (A : Type) := truthy : A -> bool.
(** [x == y] between two values of one type *)
Class LooseEq (A : Type) := loose_eq : A -> A -> bool.
(** [`${x}`] *)
Class Display (A : Type) := display : A -> string.

Infix "==" := loose_eq (at level 70, no associativity).

#[global] Instance string_truthy : Truthy string :=
  fun s => negb (String.eqb s "").
#[global] Instance bool_truthy : Truthy bool := fun b => b.
#[global] Instance js_truthy {A} `{Truthy A} : Truthy (js A) :=
  fun x => match x with val a => truthy a | _ => false end.

#[global] Instance string_loose_eq : LooseEq string := String.eqb.
#[global] Instance float_loose_eq : LooseEq float := PrimFloat.eqb.
#[global] Instance js_loose_eq {A} `{LooseEq A} : LooseEq (js A) :=
  fun x y =>
    match x, y with
    | val a, val b => a == b
    | val _, _ | _, val _ => false
    | _, _ => true
    end.

#[global] Instance string_display : Display string := fun s => s.
#[global] Instance js_display {A} `{Display A} : Display (js A) :=
  fun x =>
    match x with
    | undefined => "undefined"
    | null => "null"
    | val a => display a
    end.

(** [x === y] on strings and absent values; the in-memory store matches
    its queries with it. *)
Definition strict_eq (x y : js string) : bool :=
  match x, y with
  | undefined, undefined | null, null => true
  | val a, val b => String.eqb a b
  | _, _ => false
  end.

(** ** Asynchronous code over capabilities

    An [async] method is a tree of capability invocations.  A settled
    invocation hands its continuation either the rejection or the value;
    [invoke] is [await]: the rejection is thrown on. *)

Inductive exn : Type :=
| TypeError
| Rejected (reason : string).

Section Prog.
Context {Ev : Type -> Type}.

Inductive prog (A : Type) : Type :=
| Ret (a : A)
| Throw (e : exn)
| Call {X : Type} (c : Ev X) (k : exn + X -> prog A).
Arguments Ret {A} a.
Arguments Throw {A} e.
Arguments Call {A X} c k.

Fixpoint bind {A B} (p : prog A) (f : A -> prog B) : prog B :=
  match p with
  | Ret a => f a
  | Throw e => Throw e
  | Call c k => Call c (fun r => bind (k r) f)
  end.

Definition settle {X} (r : exn + X) : prog X :=
  match r with
  | inl e => Throw e
  | inr x => Ret x
  end.

Definition invoke {X} (c : Ev X) : prog X := Call c settle.

(** [Promise.all] over invocations that are all started before any is
    awaited: every one is made, then the first rejection is thrown. *)
Fixpoint all_settled {X} (cs : list (Ev X)) : prog (list (exn + X)) :=
  match cs with
  | [] => Ret []
  | c :: cs => Call c (fun r => bind (all_settled cs) (fun rs => Ret (r :: rs)))
  end.

Fixpoint gather {X} (rs : list (exn + X)) : prog (list X) :=
  match rs with
  | [] => Ret []
  | inl e :: _ => Throw e
  | inr x :: rs => bind (gather rs) (fun xs => Ret (x :: xs))
  end.

Definition Promise_all {X} (cs : list (Ev X)) : prog (list X) :=
  bind (all_settled cs) gather.

(** [l.reduce(f, a)] with a callback that may throw. *)
Fixpoint reduce {X A} (f : A -> X -> prog A) (l : list X) (a : A) : prog A :=
  match l with
  | [] => Ret a
  | x :: l => bind (f a x) (reduce f l)
  end.

Inductive outcome (A : Type) : Type :=
| Resolved (a : A)
| Threw (e : exn).
Arguments Resolved {A} a.
Arguments Threw {A} e.

Inductive invocation : Type :=
| Invoke {X : Type} (c : Ev X).

(** The capabilities as a world [W] answers them. *)
Definition handler (W : Type) : Type :=
  forall X, Ev X -> W -> (exn + X) * W.

(** Running a method: its outcome, the world it leaves and the
    capability invocations it made, in order. *)
Fixpoint run {A W} (h : handler W) (p : prog A) (w : W)
  : outcome A * W * list invocation :=
  match p with
  | Ret a => (Resolved a, w, [])
  | Throw e => (Threw e, w, [])
  | Call c k =>
      let '(r, w1) := h _ c w in
      let '(o, w2, t) := run h (k r) w1 in
      (o, w2, Invoke c :: t)
  end.
End Prog.

Arguments prog Ev A : clear implicits.
Arguments Ret {Ev A} a.
Arguments Throw {Ev A} e.
Arguments Call {Ev A X} c k.
Arguments Resolved {A} a.
Arguments Threw {A} e.
Arguments Invoke {Ev X} c.
Arguments invocation Ev : clear implicits.
Arguments handler Ev W : clear implicits.

Notation "'let!' x ':=' p 'in' q" := (bind p (fun x => q))
  (at level 10, x name, p at level 100, q at level 200, only parsing).

(** ** The normalized product, handed from the parser to [syncProduct] *)

Module Product.
Record t : Type := {
  name : js string;
  category : js string;
  sku : js string;
  description : js string;
  unit_price : js float;
  purchase_cost : js float;
  taxable : js bool
}.
End Product.

(** ** The storefront engine *)

Module Shopify.

Record SelectedOption : Type := { value : js string }.
Record UnitCost : Type := { amount : js string }.
Record InventoryItem : Type := { unit_cost : js UnitCost }.

(** A parsed variant, as [getProdutVariants] builds it. *)
Record Variant : Type := {
  id : js string;
  product_id : js string;
  title : js string;
  vendor : js string;
  product_type : js string;
  sku : js string;
  barcode : js string;
  price : js string;
  selected_options : list SelectedOption;
  inventory_item : js InventoryItem;
  taxable : js bool
}.

#[global] Instance UnitCost_truthy : Truthy UnitCost := fun _ => true.
#[global] Instance InventoryItem_truthy : Truthy InventoryItem := fun _ => true.

(** *** Names and descriptions *)

Definition generateProductName (vendor title : js string)
    (selected_options : list SelectedOption) : string :=
  fold_left
    (fun name o =>
       if truthy (value o) && negb (value o == val "Default Title")
       then name +:+ " " +:+ display (value o)
       else name)
    selected_options
    (display vendor +:+ " " +:+ display title).

Definition generateProductDescription (name : string) (barcode : js string)
  : string :=
  name +:+ ", barcode: " +:+ display barcode.

(** *** parseProduct *)

Section Parser.
(** The host's [parseFloat], applied to the possibly absent string. *)
Variable parseFloat : js string -> float.

Definition parseProduct (variant : Variant) : outcome Product.t :=
  let name :=
    generateProductName (vendor variant) (title variant)
      (selected_options variant) in
  let description := generateProductDescription name (barcode variant) in
  let unit_price :=
    if truthy (price variant) then val (parseFloat (price variant))
    else null in
  match inventory_item variant with
  | val inventory_item =>
      let purchase_cost :=
        match unit_cost inventory_item with
        | val unit_cost => val (parseFloat (amount unit_cost))
        | _ => null
        end in
      Resolved {|
        Product.name := val name;
        Product.category := product_type variant;
        Product.sku := sku variant;
        Product.description := val description;
        Product.unit_price := unit_price;
        Product.purchase_cost := purchase_cost;
        Product.taxable := taxable variant
      |}
  | _ => Threw TypeError
  end.
End Parser.

(** *** validateProductVariants *)

Record ValidationError : Type := { code : nat; message : string }.

Record ValidationResult : Type := {
  r_id : js string;
  r_product_id : js string;
  r_title : js string;
  errors : list ValidationError
}.

(** [existing_names], [existing_skus] and [existing_barcodes] are object
    literals [{}]: reading [o[k]] finds an own property, else what the
    object inherits from [Object.prototype], else [undefined]. *)
Definition object_prototype : list string :=
  [ "constructor"; "__defineGetter__"; "__defineSetter__"; "hasOwnProperty";
    "__lookupGetter__"; "__lookupSetter__"; "isPrototypeOf";
    "propertyIsEnumerable"; "toString"; "valueOf"; "__proto__";
    "toLocaleString" ].

Inductive property : Type :=
| Own (v : js string)
| Inherited (k : string)
| Missing.

Definition get (o : gmap string (js string)) (k : string) : property :=
  match o !! k with
  | Some v => Own v
  | None => if bool_decide (k ∈ object_prototype) then Inherited k else Missing
  end.

(** [o[k] = v]; the [__proto__] setter ignores a value that is no object. *)
Definition set (o : gmap string (js string)) (k : string) (v : js string)
  : gmap string (js string) :=
  if String.eqb k "__proto__" then o else <[k:=v]> o.

(** Inherited properties are functions, and [__proto__] an object. *)
#[global] Instance property_truthy : Truthy property :=
  fun p =>
    match p with
    | Own v => truthy v
    | Inherited _ => true
    | Missing => false
    end.

(** The text Node prints for a native function and for a plain object. *)
Definition inherited_text (k : string) : string :=
  if String.eqb k "__proto__" then "[object Object]"
  else if String.eqb k "constructor" then "function Object() { [native code] }"
  else "function " +:+ k +:+ "() { [native code] }".

#[global] Instance property_display : Display property :=
  fun p =>
    match p with
    | Own v => display v
    | Inherited k => inherited_text k
    | Missing => "undefined"
    end.

Record Seen : Type := {
  existing_names : gmap string (js string);
  existing_skus : gmap string (js string);
  existing_barcodes : gmap string (js string)
}.

Definition dquote : string := String (Ascii.ascii_of_nat 34) "".

Definition cost_missing (inventory_item : js InventoryItem) : bool :=
  match inventory_item with
  | val ii =>
      match unit_cost ii with
      | val uc => negb (truthy (amount uc)) || (amount uc == val "")
      | _ => true
      end
  | _ => true
  end.

(** The block on vendor, title and the generated name: codes 102 to 106
    and the tracking of names. *)
Definition checkName (existing_names : gmap string (js string)) (v : Variant)
    (errors : list ValidationError)
  : gmap string (js string) * list ValidationError :=
  let no_vendor := negb (truthy (vendor v)) || (vendor v == val "") in
  let no_title := negb (truthy (title v)) || (title v == val "") in
  if no_vendor || no_title then
    let errors :=
      if no_vendor
      then errors ++ [ {| code := 102;
                          message := "invalid vendor: vendor can't be empty" |} ]
      else errors in
    let errors :=
      if no_title
      then errors ++ [ {| code := 103;
                          message := "invalid title: title can't be empty" |} ]
      else errors in
    (existing_names, errors)
  else
    let name :=
      generateProductName (vendor v) (title v) (selected_options v) in
    if String.prefix "_" name || (100 <? String.length name) then
      let errors :=
        if String.prefix "_" name
        then errors ++ [ {| code := 104;
                            message := "invalid name: name can't start with "
                                       +:+ dquote +:+ "_" +:+ dquote |} ]
        else errors in
      let errors :=
        if 100 <? String.length name
        then errors ++ [ {| code := 105;
                            message := "invalid name: name can't have more than 100 characters" |} ]
        else errors in
      (existing_names, errors)
    else
      if truthy (get existing_names name)
      then (existing_names,
            errors ++ [ {| code := 106;
                           message := "duplicate name: " +:+ name
                             +:+ "; the name is already in use by product variant with id: "
                             +:+ display (get existing_names name) |} ])
      else (set existing_names name (id v), errors).

(** The block on the sku: codes 107 and 108 and the tracking of skus. *)
Definition checkSku (existing_skus : gmap string (js string)) (v : Variant)
    (errors : list ValidationError)
  : gmap string (js string) * list ValidationError :=
  if negb (truthy (sku v)) || (sku v == val "") then
    (existing_skus,
     errors ++ [ {| code := 107;
                    message := "invalid sku: sku can't be empty" |} ])
  else if truthy (get existing_skus (display (sku v)))
  then (existing_skus,
        errors ++ [ {| code := 108;
                       message := "duplicate sku: " +:+ display (sku v)
                         +:+ "; the sku is already in use by product variant with id: "
                         +:+ display (get existing_skus (display (sku v))) |} ])
  else (set existing_skus (display (sku v)) (id v), errors).

(** The block on the barcode: codes 109 and 110 and the tracking of
    barcodes. *)
Definition checkBarcode (existing_barcodes : gmap string (js string))
    (v : Variant) (errors : list ValidationError)
  : gmap string (js string) * list ValidationError :=
  if negb (truthy (barcode v)) || (barcode v == val "") then
    (existing_barcodes,
     errors ++ [ {| code := 109;
                    message := "invalid barcode: barcode can't be empty" |} ])
  else if truthy (get existing_barcodes (display (barcode v)))
  then (existing_barcodes,
        errors ++ [ {| code := 110;
                       message := "duplicate barcode: " +:+ display (barcode v)
                         +:+ "; the barcode is already in use by product variant with id: "
                         +:+ display (get existing_barcodes (display (barcode v))) |} ])
  else (set existing_barcodes (display (barcode v)) (id v), errors).

(** The body of the [forEach] callback: one variant against the three
    tracking objects, block after block. *)
Definition validateVariant (seen : Seen) (v : Variant)
  : Seen * ValidationResult :=
  let errors := [] in
  let errors :=
    if negb (truthy (price v)) || (price v == val "")
    then errors ++ [ {| code := 100;
                        message := "invalid price: price can't be empty" |} ]
    else errors in
  let errors :=
    if cost_missing (inventory_item v)
    then errors ++ [ {| code := 101;
                        message := "invalid cost: cost can't be empty" |} ]
    else errors in
  let '(names, errors) := checkName (existing_names seen) v errors in
  let '(skus, errors) := checkSku (existing_skus seen) v errors in
  let '(barcodes, errors) := checkBarcode (existing_barcodes seen) v errors in
  ({| existing_names := names;
      existing_skus := skus;
      existing_barcodes := barcodes |},
   {| r_id := id v;
      r_product_id := product_id v;
      r_title := title v;
      errors := errors |}).

(** The [forEach] over the batch, threading the tracking objects and
    appending one result per variant. *)
Definition validateEach (variants : list Variant) (seen : Seen)
  : Seen * list ValidationResult :=
  fold_left
    (fun '(seen, results) v =>
       let '(seen, result) := validateVariant seen v in
       (seen, results ++ [result]))
    variants (seen, []).

Definition no_seen : Seen :=
  {| existing_names := ∅; existing_skus := ∅; existing_barcodes := ∅ |}.

Record Validation : Type := { ok : bool; results : list ValidationResult }.

Definition validateProductVariants (variants : list Variant) : Validation :=
  let results := snd (validateEach variants no_seen) in
  {| ok := forallb (fun r => negb (0 <? length (errors r))) results;
     results := results |}.

(** *** getAllProductVariants *)

Record Page : Type := {
  items : js (list Variant);
  next_cursor : js string
}.

(** The one capability of the pagination loop. *)
Inductive call : Type -> Type :=
| getProdutVariants (cursor : js string) : call Page.

(** [a.concat(x)]: an array argument is spread, any other value is
    appended as one element. *)
Definition concat (a : list (js Variant)) (x : js (list Variant))
  : list (js Variant) :=
  match x with
  | val l => a ++ map val l
  | null => a ++ [null]
  | undefined => a ++ [undefined]
  end.

(** The [while (retrieving)] loop, [fuel] iterations of it; [None] when
    the loop is still retrieving after them. *)
Fixpoint retrieving (fuel : nat) (product_variants : list (js Variant))
    (current_cursor : js string) : prog call (option (list (js Variant))) :=
  match fuel with
  | O => Ret None
  | S fuel =>
      let! page := invoke (getProdutVariants current_cursor) in
      let product_variants := concat product_variants (items page) in
      let current_cursor := next_cursor page in
      if negb (truthy current_cursor) then Ret (Some product_variants)
      else retrieving fuel product_variants current_cursor
  end.

Definition getAllProductVariants (fuel : nat)
  : prog call (option (list (js Variant))) :=
  retrieving fuel [] null.

End Shopify.

(** ** The accounting engine *)

Module QuickBooks.

(** A reference [{ value, name }]. *)
Record Ref : Type := { value : js string; name : js string }.
#[global] Instance Ref_truthy : Truthy Ref := fun _ => true.

(** What the category capabilities resolve with: the store files it under
    [Name]; [syncProduct] reads [value] and [name] from it. *)
Module Category.
Record t : Type := {
  Name : js string;
  value : js string;
  name : js string
}.
End Category.

Module Account.
Record t : Type := { Id : js string; Name : js string }.
End Account.

(** An accounting item; a property the object does not carry is
    [undefined]. *)
Record Item : Type := {
  Id : js string;
  Name : js string;
  Sku : js string;
  Description : js string;
  PurchaseDesc : js string;
  UnitPrice : js float;
  PurchaseCost : js float;
  Taxable : js bool;
  Active : js bool;
  SubItem : js bool;
  ParentRef : js Ref;
  TrackQtyOnHand : js bool;
  QtyOnHand : js float;
  InvStartDate : js string;
  IncomeAccountRef : js Ref;
  ExpenseAccountRef : js Ref;
  AssetAccountRef : js Ref
}.

(** The capabilities: the methods of the engine that call the client.
    [updateProduct] takes the item and the [sparse] flag sent with it;
    [today] is [new Date().toISOString().slice(0, 10)]. *)
Inductive call : Type -> Type :=
| findCategoryByName (name : js string) : call (option Category.t)
| createCategory (name : js string) : call Category.t
| findProductByName (name : js string) : call (option Item)
| findProductBySKU (sku : js string) : call (option Item)
| createProduct (product : Item) : call Item
| updateProduct (product : Item) (sparse : bool) : call Item
| findAccountByName (name : string) : call (option Account.t)
| today : call string.

Definition findOrCreateCategoryByName (name : js string)
  : prog call Category.t :=
  let! category := invoke (findCategoryByName name) in
  match category with
  | Some category => Ret category
  | None => invoke (createCategory name)
  end.

(** *** resolveAccountRefs *)

Record Accounts : Type := {
  income_account_ref : js Ref;
  expense_account_ref : js Ref;
  asset_account_ref : js Ref
}.

(** The callback of the [reduce]: [r.Name] on a [null] result throws. *)
Definition addAccount (accounts : Accounts) (r : option Account.t)
  : prog call Accounts :=
  match r with
  | None => Throw TypeError
  | Some r =>
      let accounts :=
        if Account.Name r == val "Sales of Product Income"
        then {| income_account_ref :=
                  val {| value := Account.Id r; name := Account.Name r |};
                expense_account_ref := expense_account_ref accounts;
                asset_account_ref := asset_account_ref accounts |}
        else accounts in
      let accounts :=
        if Account.Name r == val "Cost of Goods Sold"
        then {| income_account_ref := income_account_ref accounts;
                expense_account_ref :=
                  val {| value := Account.Id r; name := Account.Name r |};
                asset_account_ref := asset_account_ref accounts |}
        else accounts in
      let accounts :=
        if Account.Name r == val "Inventory Asset"
        then {| income_account_ref := income_account_ref accounts;
                expense_account_ref := expense_account_ref accounts;
                asset_account_ref :=
                  val {| value := Account.Id r; name := Account.Name r |} |}
        else accounts in
      Ret accounts
  end.

Definition no_accounts : Accounts :=
  {| income_account_ref := undefined;
     expense_account_ref := undefined;
     asset_account_ref := undefined |}.

Definition resolveAccountRefs : prog call Accounts :=
  let! results :=
    Promise_all [ findAccountByName "Sales of Product Income";
                  findAccountByName "Cost of Goods Sold";
                  findAccountByName "Inventory Asset" ] in
  reduce addAccount results no_accounts.

(** *** didChangeProductContent *)

Definition didChangeProductContent (existing_product latest_product : Item)
  : bool :=
  negb
    (((negb (truthy (ParentRef existing_product))
       && negb (truthy (ParentRef latest_product)))
      || match ParentRef existing_product, ParentRef latest_product with
         | val e, val l => value e == value l
         | _, _ => false
         end)
     && (Name existing_product == Name latest_product)
     && (Sku existing_product == Sku latest_product)
     && (Description existing_product == Description latest_product)
     && (UnitPrice existing_product == UnitPrice latest_product)
     && (PurchaseCost existing_product == PurchaseCost latest_product)).

(** *** syncProduct *)

(** The object literal [latest_product]: nine own properties. *)
Definition latestProduct (product : Product.t)
    (latest_category : option Category.t) : Item :=
  {| Id := undefined;
     Name := Product.name product;
     Sku := Product.sku product;
     Description := Product.description product;
     PurchaseDesc := Product.description product;
     UnitPrice := Product.unit_price product;
     PurchaseCost := Product.purchase_cost product;
     Taxable := Product.taxable product;
     Active := undefined;
     SubItem := val (match latest_category with Some _ => true | None => false end);
     ParentRef :=
       match latest_category with
       | Some c => val {| value := Category.value c; name := Category.name c |}
       | None => null
       end;
     TrackQtyOnHand := undefined;
     QtyOnHand := undefined;
     InvStartDate := undefined;
     IncomeAccountRef := undefined;
     ExpenseAccountRef := undefined;
     AssetAccountRef := undefined |}.

(** [{ ...same_name_product, Name: `_${same_name_product.Sku}`,
      Active: false }], sent with [sparse: false]. *)
Definition inactivated (same_name_product : Item) : Item :=
  {| Id := Id same_name_product;
     Name := val ("_" +:+ display (Sku same_name_product));
     Sku := Sku same_name_product;
     Description := Description same_name_product;
     PurchaseDesc := PurchaseDesc same_name_product;
     UnitPrice := UnitPrice same_name_product;
     PurchaseCost := PurchaseCost same_name_product;
     Taxable := Taxable same_name_product;
     Active := val false;
     SubItem := SubItem same_name_product;
     ParentRef := ParentRef same_name_product;
     TrackQtyOnHand := TrackQtyOnHand same_name_product;
     QtyOnHand := QtyOnHand same_name_product;
     InvStartDate := InvStartDate same_name_product;
     IncomeAccountRef := IncomeAccountRef same_name_product;
     ExpenseAccountRef := ExpenseAccountRef same_name_product;
     AssetAccountRef := AssetAccountRef same_name_product |}.

(** [{ ...existing_product, ...latest_product, Active: true }], sent with
    [sparse: false]: the nine properties of [latest_product] replace
    those of [existing_product]. *)
Definition updated (existing_product latest_product : Item) : Item :=
  {| Id := Id existing_product;
     Name := Name latest_product;
     Sku := Sku latest_product;
     Description := Description latest_product;
     PurchaseDesc := PurchaseDesc latest_product;
     UnitPrice := UnitPrice latest_product;
     PurchaseCost := PurchaseCost latest_product;
     Taxable := Taxable latest_product;
     Active := val true;
     SubItem := SubItem latest_product;
     ParentRef := ParentRef latest_product;
     TrackQtyOnHand := TrackQtyOnHand existing_product;
     QtyOnHand := QtyOnHand existing_product;
     InvStartDate := InvStartDate existing_product;
     IncomeAccountRef := IncomeAccountRef existing_product;
     ExpenseAccountRef := ExpenseAccountRef existing_product;
     AssetAccountRef := AssetAccountRef existing_product |}.

(** The item of the [createProduct] call. *)
Definition created (latest_product : Item) (accounts : Accounts)
    (date : string) : Item :=
  {| Id := Id latest_product;
     Name := Name latest_product;
     Sku := Sku latest_product;
     Description := Description latest_product;
     PurchaseDesc := PurchaseDesc latest_product;
     UnitPrice := UnitPrice latest_product;
     PurchaseCost := PurchaseCost latest_product;
     Taxable := Taxable latest_product;
     Active := val true;
     SubItem := SubItem latest_product;
     ParentRef := ParentRef latest_product;
     TrackQtyOnHand := val true;
     QtyOnHand := val 0%float;
     InvStartDate := val date;
     IncomeAccountRef := income_account_ref accounts;
     ExpenseAccountRef := expense_account_ref accounts;
     AssetAccountRef := asset_account_ref accounts |}.

(** From [if (existing_product)] to the end of the method. *)
Definition reconcile (existing_product : option Item) (latest_product : Item)
  : prog call unit :=
  match existing_product with
  | Some existing_product =>
      if didChangeProductContent existing_product latest_product
         || negb (truthy (Active existing_product))
      then
        let! _ := invoke (updateProduct
                            (updated existing_product latest_product) false) in
        Ret tt
      else Ret tt
  | None =>
      let! accounts := resolveAccountRefs in
      let! date := invoke today in
      let! _ := invoke (createProduct (created latest_product accounts date)) in
      Ret tt
  end.

(** [if (!existing_product) existing_product = await findProductBySKU]. *)
Definition orBySKU (existing_product : option Item) (latest_product : Item)
  : prog call (option Item) :=
  match existing_product with
  | Some existing_product => Ret (Some existing_product)
  | None => invoke (findProductBySKU (Sku latest_product))
  end.

(** [if (same_name_product)]: the name-collision guard. *)
Definition nameGuard (same_name_product : option Item) (latest_product : Item)
  : prog call (option Item) :=
  match same_name_product with
  | Some same_name_product =>
      if Sku same_name_product == Sku latest_product
      then Ret (Some same_name_product)
      else
        let! _ := invoke (updateProduct (inactivated same_name_product) false) in
        Ret None
  | None => Ret None
  end.

(** The method from the answer of [findProductByName] on. *)
Definition afterNameLookup (same_name_product : option Item)
    (latest_product : Item) : prog call unit :=
  let! existing_product := nameGuard same_name_product latest_product in
  let! existing_product := orBySKU existing_product latest_product in
  reconcile existing_product latest_product.

Definition latestCategory (product : Product.t)
  : prog call (option Category.t) :=
  if truthy (Product.category product)
  then
    let! category := findOrCreateCategoryByName (Product.category product) in
    Ret (Some category)
  else Ret None.

Definition syncProduct (product : Product.t) : prog call unit :=
  let! latest_category := latestCategory product in
  let latest_product := latestProduct product latest_category in
  let! same_name_product := invoke (findProductByName (Name latest_product)) in
  afterNameLookup same_name_product latest_product.

(** The write capabilities. *)
Definition is_write (i : invocation call) : bool :=
  match i with
  | Invoke c =>
      match c with
      | createCategory _ | createProduct _ | updateProduct _ _ => true
      | _ => false
      end
  end.

Definition writes (t : list (invocation call)) : list (invocation call) :=
  List.filter is_write t.

(** *** An in-memory accounting store *)

(** Modelled from the spec: the accounting store behind the capabilities
    (section 6 of the spec), which is the remote service and no part of
    the repository.  It is kept as lists in insertion order: a lookup
    answers with the first match (or [null]), a creation appends under a
    fresh id, a full update replaces the item of the same id and is
    rejected when there is none. *)
Record Store : Type := {
  categories : list Category.t;
  items : list Item;
  accounts : list Account.t;
  next_id : nat;
  clock : string
}.

Definition with_id (i : Item) (id : js string) : Item :=
  {| Id := id;
     Name := Name i;
     Sku := Sku i;
     Description := Description i;
     PurchaseDesc := PurchaseDesc i;
     UnitPrice := UnitPrice i;
     PurchaseCost := PurchaseCost i;
     Taxable := Taxable i;
     Active := Active i;
     SubItem := SubItem i;
     ParentRef := ParentRef i;
     TrackQtyOnHand := TrackQtyOnHand i;
     QtyOnHand := QtyOnHand i;
     InvStartDate := InvStartDate i;
     IncomeAccountRef := IncomeAccountRef i;
     ExpenseAccountRef := ExpenseAccountRef i;
     AssetAccountRef := AssetAccountRef i |}.

Definition replace (p : Item) (l : list Item) : list Item :=
  map (fun i => if strict_eq (Id i) (Id p) then p else i) l.

Definition store : handler call Store :=
  fun X c =>
    match c in call X return Store -> (exn + X) * Store with
    | findCategoryByName n => fun s =>
        (inr (List.find (fun c => strict_eq (Category.Name c) n) (categories s)), s)
    | createCategory n => fun s =>
        let c := {| Category.Name := n;
                    Category.value := val (pretty (next_id s));
                    Category.name := n |} in
        (inr c,
         {| categories := categories s ++ [c];
            items := items s;
            accounts := accounts s;
            next_id := S (next_id s);
            clock := clock s |})
    | findProductByName n => fun s =>
        (inr (List.find (fun i => strict_eq (Name i) n) (items s)), s)
    | findProductBySKU k => fun s =>
        (inr (List.find (fun i => strict_eq (Sku i) k) (items s)), s)
    | createProduct p => fun s =>
        let i := with_id p (val (pretty (next_id s))) in
        (inr i,
         {| categories := categories s;
            items := items s ++ [i];
            accounts := accounts s;
            next_id := S (next_id s);
            clock := clock s |})
    | updateProduct p _ => fun s =>
        if existsb (fun i => strict_eq (Id i) (Id p)) (items s)
        then (inr p,
              {| categories := categories s;
                 items := replace p (items s);
                 accounts := accounts s;
                 next_id := next_id s;
                 clock := clock s |})
        else (inl (Rejected "Object Not Found"), s)
    | findAccountByName n => fun s =>
        (inr (List.find (fun a => strict_eq (Account.Name a) (val n)) (accounts s)), s)
    | today => fun s => (inr (clock s), s)
    end.

End QuickBooks.

(** * Specifications *)

(** ** Names *)

(** The option values that enter a name: present, non-empty and not the
    sentinel. *)
Definition named_value (o : Shopify.SelectedOption) : option string :=
  match Shopify.value o with
  | val s =>
      if decide (s = "" ∨ s = "Default Title") then None else Some s
  | _ => None
  end.

(** Vendor, title and the named option values, joined by single spaces. *)
Definition space_joined (vendor title : string)
    (selected_options : list Shopify.SelectedOption) : string :=
  String.concat " " (vendor :: title :: omap named_value selected_options).

Definition spaced (l : list string) : string :=
  fold_right (fun s r => " " +:+ s +:+ r) "" l.

(** ** Validation codes *)

Definition codes (r : Shopify.ValidationResult) : list nat :=
  map Shopify.code (Shopify.errors r).

(** The codes 100 and 101 of a variant. *)
Definition base_errors (v : Shopify.Variant) : list Shopify.ValidationError :=
  (if negb (truthy (Shopify.price v)) || (Shopify.price v == val "")
   then [ {| Shopify.code := 100;
             Shopify.message := "invalid price: price can't be empty" |} ]
   else [])
  ++ (if Shopify.cost_missing (Shopify.inventory_item v)
      then [ {| Shopify.code := 101;
                Shopify.message := "invalid cost: cost can't be empty" |} ]
      else []).

(** What a tracking object holds after a variant carrying the key [k]:
    the id is registered unless the read of [k] is truthy. *)
Definition tracked (m : gmap string (js string)) (k : string) (id : js string)
  : gmap string (js string) :=
  if truthy (Shopify.get m k) then m else Shopify.set m k id.

(** The key under which a variant is tracked, when it carries one: a
    non-empty sku, a non-empty barcode, a well-formed generated name. *)
Definition sku_key (v : Shopify.Variant) : option string :=
  match Shopify.sku v with
  | val k => if decide (k = "") then None else Some k
  | _ => None
  end.

Definition barcode_key (v : Shopify.Variant) : option string :=
  match Shopify.barcode v with
  | val k => if decide (k = "") then None else Some k
  | _ => None
  end.

Definition name_key (v : Shopify.Variant) : option string :=
  match Shopify.vendor v, Shopify.title v with
  | val a, val b =>
      if decide (a = "" ∨ b = "") then None
      else
        let n := Shopify.generateProductName (Shopify.vendor v) (Shopify.title v)
                   (Shopify.selected_options v) in
        if String.prefix "_" n || (100 <? String.length n) then None
        else Some n
  | _, _ => None
  end.

Definition duplicate_message (what key shown : string) : string :=
  "duplicate " +:+ what +:+ ": " +:+ key +:+ "; the " +:+ what
  +:+ " is already in use by product variant with id: " +:+ shown.

Fixpoint has_space (s : string) : bool :=
  match s with
  | EmptyString => false
  | String c s => Ascii.eqb c (Ascii.ascii_of_nat 32) || has_space s
  end.

(** No presence code (102, 103) beside a name code (104, 105, 106), and no
    shape code (104, 105) beside the duplicate-name code (106). *)
Definition exclusive (cs : list nat) : Prop :=
  ¬ ((102 ∈ cs ∨ 103 ∈ cs) ∧ (104 ∈ cs ∨ 105 ∈ cs ∨ 106 ∈ cs))
  ∧ ¬ ((104 ∈ cs ∨ 105 ∈ cs) ∧ 106 ∈ cs).

(** A variant complete in every field but an empty unit-cost amount. *)
Definition empty_amount_variant : Shopify.Variant :=
  {| Shopify.id := val "gid://shopify/ProductVariant/1";
     Shopify.product_id := val "gid://shopify/Product/1";
     Shopify.title := val "Salsa";
     Shopify.vendor := val "Acme";
     Shopify.product_type := val "Food";
     Shopify.sku := val "S1";
     Shopify.barcode := val "B1";
     Shopify.price := val "9.99";
     Shopify.selected_options := [ {| Shopify.value := val "Default Title" |} ];
     Shopify.inventory_item :=
       val {| Shopify.unit_cost := val {| Shopify.amount := val "" |} |};
     Shopify.taxable := val true |}.

(** A complete variant under the given id, title, sku and barcode. *)
Definition variant_of (id : js string) (title sku barcode : string)
  : Shopify.Variant :=
  {| Shopify.id := id;
     Shopify.product_id := val "gid://shopify/Product/1";
     Shopify.title := val title;
     Shopify.vendor := val "Acme";
     Shopify.product_type := val "Food";
     Shopify.sku := val sku;
     Shopify.barcode := val barcode;
     Shopify.price := val "9.99";
     Shopify.selected_options := [ {| Shopify.value := val "Default Title" |} ];
     Shopify.inventory_item :=
       val {| Shopify.unit_cost := val {| Shopify.amount := val "4.50" |} |};
     Shopify.taxable := val true |}.

#[global] Instance exclusive_dec (cs : list nat) : Decision (exclusive cs).
Proof. unfold exclusive. apply _. Defined.

(** ** Pagination *)

Section Served.
Context {W : Type} (h : handler Shopify.call W).

(** [serves w c pages e w']: asked from world [w] with cursor [c], the
    capability answers [pages] one after the other, each but the last
    reporting the cursor of the next request; then either the last page
    reports no cursor ([e = None]) or the next request is rejected with
    [e]. *)
Inductive serves : W -> js string -> list Shopify.Page -> option exn -> W -> Prop :=
| serves_last w c p w' :
    h _ (Shopify.getProdutVariants c) w = (inr p, w') ->
    truthy (Shopify.next_cursor p) = false ->
    serves w c [p] None w'
| serves_next w c p w' ps e w'' :
    h _ (Shopify.getProdutVariants c) w = (inr p, w') ->
    truthy (Shopify.next_cursor p) = true ->
    serves w' (Shopify.next_cursor p) ps e w'' ->
    serves w c (p :: ps) e w''
| serves_rejected w c e w' :
    h _ (Shopify.getProdutVariants c) w = (inl e, w') ->
    serves w c [] (Some e) w'.
End Served.

(** The cursors of the requests behind [pages]: the first request carries
    [c], each further one the cursor of the page before it; a rejected
    request comes after the last page. *)
Definition requests (c : js string) (pages : list Shopify.Page) (e : option exn)
  : list (js string) :=
  firstn (length pages + match e with Some _ => 1 | None => 0 end)
    (c :: map Shopify.next_cursor pages).

(** The elements one page contributes to the result: the variants of its
    item list, in the order of the list; a page that carries no item list
    contributes that one absent value. *)
Definition page_items (p : Shopify.Page) : list (js Shopify.Variant) :=
  match Shopify.items p with
  | val variants => map val variants
  | null => [null]
  | undefined => [undefined]
  end.

(** A fetch capability with three pages behind the cursors c1 and c2; the
    world counts the requests. *)
Definition page1 : Shopify.Page :=
  {| Shopify.items := val [ variant_of (val "v1") "Salsa" "S1" "B1";
                            variant_of (val "v2") "Chips" "S2" "B2" ];
     Shopify.next_cursor := val "c1" |}.
Definition page2 : Shopify.Page :=
  {| Shopify.items := val [ variant_of (val "v3") "Beans" "S3" "B3" ];
     Shopify.next_cursor := val "c2" |}.
Definition page3 : Shopify.Page :=
  {| Shopify.items := val [ variant_of (val "v2") "Chips" "S2" "B2" ];
     Shopify.next_cursor := null |}.

Definition three_pages : handler Shopify.call nat :=
  fun X c =>
    match c in Shopify.call X return nat -> (exn + X) * nat with
    | Shopify.getProdutVariants cursor => fun n =>
        match cursor with
        | null => (inr page1, S n)
        | val "c1" => (inr page2, S n)
        | val "c2" => (inr page3, S n)
        | _ => (inl (Rejected "unknown cursor"), S n)
        end
    end.

(** ** Reconciliation *)

Import QuickBooks.

(** The value of an item's parent reference, when it has one. *)
Definition parent_value (i : Item) : option (js string) :=
  match ParentRef i with
  | val r => Some (value r)
  | _ => None
  end.

(** Both items without a parent reference, or both with one of equal value. *)
Definition same_parent (existing target : Item) : Prop :=
  match parent_value existing, parent_value target with
  | None, None => True
  | Some a, Some b => (a == b) = true
  | _, _ => False
  end.

(** The existing and the target record differ in the parent reference
    value, the name, the SKU, the description, the unit price or the
    purchase cost. *)
Definition content_differs (existing target : Item) : Prop :=
  ¬ same_parent existing target
  ∨ (Name existing == Name target) = false
  ∨ (Sku existing == Sku target) = false
  ∨ (Description existing == Description target) = false
  ∨ (UnitPrice existing == UnitPrice target) = false
  ∨ (PurchaseCost existing == PurchaseCost target) = false.

Definition inactive (existing : Item) : Prop :=
  truthy (Active existing) = false.

Definition is_createProduct (i : invocation call) : bool :=
  match i with
  | Invoke c => match c with createProduct _ => true | _ => false end
  end.


(** [syncProduct] up to the point where [existing_product] is settled:
    the target record and the existing record, if one is resolved. *)
Definition resolveExisting (product : Product.t)
  : prog call (Item * option Item) :=
  let! latest_category := latestCategory product in
  let latest_product := latestProduct product latest_category in
  let! same_name_product := invoke (findProductByName (Name latest_product)) in
  let! existing_product := nameGuard same_name_product latest_product in
  let! existing_product := orBySKU existing_product latest_product in
  Ret (latest_product, existing_product).

(** *** Example stores *)

Definition ledger : list Account.t :=
  [ {| Account.Id := val "79"; Account.Name := val "Sales of Product Income" |};
    {| Account.Id := val "80"; Account.Name := val "Cost of Goods Sold" |};
    {| Account.Id := val "81"; Account.Name := val "Inventory Asset" |} ].

Definition item_of (id name sku : string) (price cost : float) (active : bool)
  : Item :=
  {| Id := val id;
     Name := val name;
     Sku := val sku;
     Description := val (name +:+ ", barcode: 111");
     PurchaseDesc := val (name +:+ ", barcode: 111");
     UnitPrice := val price;
     PurchaseCost := val cost;
     Taxable := val true;
     Active := val active;
     SubItem := val false;
     ParentRef := undefined;
     TrackQtyOnHand := val true;
     QtyOnHand := val 7%float;
     InvStartDate := val "2020-01-01";
     IncomeAccountRef :=
       val {| value := val "79"; name := val "Sales of Product Income" |};
     ExpenseAccountRef :=
       val {| value := val "80"; name := val "Cost of Goods Sold" |};
     AssetAccountRef :=
       val {| value := val "81"; name := val "Inventory Asset" |} |}.

Definition product_of (name sku : string) (price cost : js float) : Product.t :=
  {| Product.name := val name;
     Product.category := null;
     Product.sku := val sku;
     Product.description := val (name +:+ ", barcode: 111");
     Product.unit_price := price;
     Product.purchase_cost := cost;
     Product.taxable := val true |}.

Definition store_of (items : list Item) (accounts : list Account.t) : Store :=
  {| categories := [];
     items := items;
     accounts := accounts;
     next_id := 100;
     clock := "2020-08-01" |}.

(** The spec's name collision: Acme Salsa is held by the item of SKU OLD1
    and comes in under SKU NEW1. *)
Definition old_salsa : Item := item_of "1" "Acme Salsa" "OLD1" 5 2 true.
Definition salsa_store : Store := store_of [old_salsa] ledger.
Definition new_salsa : Product.t := product_of "Acme Salsa" "NEW1" (val 5%float) (val 2%float).

(** The writes of a second [syncProduct] run on the store the first left. *)
Definition second_writes (s : Store) (product : Product.t)
  : list (invocation call) :=
  let '(_, s1, _) := run store (syncProduct product) s in
  writes (run store (syncProduct product) s1).2.

(** The update carries the target's nine properties, [Active] true, and
    what else the existing record holds. *)
Definition applies_target (u existing target : Item) : Prop :=
  Active u = val true
  ∧ Name u = Name target
  ∧ Sku u = Sku target
  ∧ Description u = Description target
  ∧ PurchaseDesc u = PurchaseDesc target
  ∧ UnitPrice u = UnitPrice target
  ∧ PurchaseCost u = PurchaseCost target
  ∧ Taxable u = Taxable target
  ∧ SubItem u = SubItem target
  ∧ ParentRef u = ParentRef target
  ∧ Id u = Id existing
  ∧ TrackQtyOnHand u = TrackQtyOnHand existing
  ∧ QtyOnHand u = QtyOnHand existing
  ∧ InvStartDate u = InvStartDate existing
  ∧ IncomeAccountRef u = IncomeAccountRef existing
  ∧ ExpenseAccountRef u = ExpenseAccountRef existing
  ∧ AssetAccountRef u = AssetAccountRef existing.

(** Every property but [Name] and [Active] is the stale record's own. *)
Definition keeps_but_name_and_active (u stale : Item) : Prop :=
  Id u = Id stale
  ∧ Sku u = Sku stale
  ∧ Description u = Description stale
  ∧ PurchaseDesc u = PurchaseDesc stale
  ∧ UnitPrice u = UnitPrice stale
  ∧ PurchaseCost u = PurchaseCost stale
  ∧ Taxable u = Taxable stale
  ∧ SubItem u = SubItem stale
  ∧ ParentRef u = ParentRef stale
  ∧ TrackQtyOnHand u = TrackQtyOnHand stale
  ∧ QtyOnHand u = QtyOnHand stale
  ∧ InvStartDate u = InvStartDate stale
  ∧ IncomeAccountRef u = IncomeAccountRef stale
  ∧ ExpenseAccountRef u = ExpenseAccountRef stale
  ∧ AssetAccountRef u = AssetAccountRef stale.

(** Acme Salsa already filed under SKU NEW1 at another price. *)
Definition filed_salsa : Item := item_of "1" "Acme Salsa" "NEW1" 4 2 true.
Definition filed_store : Store := store_of [filed_salsa] ledger.

(** A ledger without the Cost of Goods Sold account. *)
Definition short_ledger : list Account.t :=
  [ {| Account.Id := val "79"; Account.Name := val "Sales of Product Income" |};
    {| Account.Id := val "81"; Account.Name := val "Inventory Asset" |} ].
Definition short_store : Store := store_of [] short_ledger.

Definition with_items (s : Store) (l : list Item) : Store :=
  {| categories := categories s;
     items := l;
     accounts := accounts s;
     next_id := next_id s;
     clock := clock s |}.

(** The store after [createProduct]. *)
Definition with_created (s : Store) (p : Item) : Store :=
  {| categories := categories s;
     items := items s ++ [with_id p (val (pretty (next_id s)))];
     accounts := accounts s;
     next_id := S (next_id s);
     clock := clock s |}.

Definition account_lookups : list (invocation call) :=
  [ Invoke (findAccountByName "Sales of Product Income");
    Invoke (findAccountByName "Cost of Goods Sold");
    Invoke (findAccountByName "Inventory Asset") ].

(** [syncProduct] from the name lookup on, for a given target record. *)
Definition itemStage (latest_product : Item) : prog call unit :=
  let! same_name_product := invoke (findProductByName (Name latest_product)) in
  afterNameLookup same_name_product latest_product.

(** An item that a run over [latest_product] leaves alone. *)
Definition settled (latest_product x : Item) : Prop :=
  (Sku x == Sku latest_product) = true
  ∧ didChangeProductContent x latest_product = false
  ∧ truthy (Active x) = true.




(** * Further properties of the two engines *)

(** ** Validation *)

(** A property that is [undefined] or [null]. *)
Definition absent {A} (x : js A) : Prop := x = undefined ∨ x = null.

(** A string property that is absent or empty. *)
Definition missing (x : js string) : Prop := absent x ∨ x = val "".

(** The unit-cost amount of a variant is missing: no inventory item, no
    unit cost, or an amount that is absent or empty. *)
Definition cost_absent (v : Shopify.Variant) : Prop :=
  match Shopify.inventory_item v with
  | val ii =>
      match Shopify.unit_cost ii with
      | val uc => missing (Shopify.amount uc)
      | _ => True
      end
  | _ => True
  end.

(** What a result says of its variant: id, product id and title. *)
Definition identity_of_result (r : Shopify.ValidationResult)
  : js string * js string * js string :=
  (Shopify.r_id r, Shopify.r_product_id r, Shopify.r_title r).

Definition identity_of_variant (v : Shopify.Variant)
  : js string * js string * js string :=
  (Shopify.id v, Shopify.product_id v, Shopify.title v).

(** The name generated for a variant. *)
Definition name_of (v : Shopify.Variant) : string :=
  Shopify.generateProductName (Shopify.vendor v) (Shopify.title v)
    (Shopify.selected_options v).

(** The presence rules, each read off its own field. *)
Definition presence_rules (v : Shopify.Variant) (r : Shopify.ValidationResult)
  : Prop :=
  (100 ∈ codes r ↔ missing (Shopify.price v))
  ∧ (101 ∈ codes r ↔ cost_absent v)
  ∧ (102 ∈ codes r ↔ missing (Shopify.vendor v))
  ∧ (103 ∈ codes r ↔ missing (Shopify.title v))
  ∧ (107 ∈ codes r ↔ missing (Shopify.sku v))
  ∧ (109 ∈ codes r ↔ missing (Shopify.barcode v)).

(** Two batches to run the validator on. *)
Definition salsa_chips : list Shopify.Variant :=
  [ variant_of (val "v1") "Salsa" "S1" "B1";
    variant_of (val "v2") "Chips" "S2" "B2" ].

Definition salsa_twice : list Shopify.Variant :=
  [ variant_of (val "v1") "Salsa" "S1" "B1";
    variant_of (val "v2") "Chips" "S2" "B2";
    variant_of (val "v3") "Salsa" "S1" "B3" ].

(** A string property that is present and not empty. *)
Definition filled (x : js string) : Prop := ∃ s, x = val s ∧ s ≠ "".

Definition cost_filled (v : Shopify.Variant) : Prop :=
  ∃ ii uc, Shopify.inventory_item v = val ii
           ∧ Shopify.unit_cost ii = val uc
           ∧ filled (Shopify.amount uc).

(** A variant that carries every field the validator asks for, under a
    generated name of an accepted shape. *)
Definition well_formed (v : Shopify.Variant) : Prop :=
  filled (Shopify.price v) ∧ cost_filled v
  ∧ filled (Shopify.vendor v) ∧ filled (Shopify.title v)
  ∧ String.prefix "_" (name_of v) = false
  ∧ String.length (name_of v) ≤ 100
  ∧ filled (Shopify.sku v) ∧ filled (Shopify.barcode v).

(** Neither the sku nor the barcode is the name of a property that every
    object inherits. *)
Definition own_keys (v : Shopify.Variant) : Prop :=
  ∀ k, Shopify.sku v = val k ∨ Shopify.barcode v = val k →
       k ∉ Shopify.object_prototype.

(** No two variants of a batch share a generated name, a sku or a
    barcode. *)
Definition distinct (variants : list Shopify.Variant) : Prop :=
  NoDup (map name_of variants)
  ∧ NoDup (map Shopify.sku variants)
  ∧ NoDup (map Shopify.barcode variants).

(** The length of a generated name: vendor, title and the named option
    values, with one space before each but the first. *)
Definition name_length (vendor title : string)
    (selected_options : list Shopify.SelectedOption) : nat :=
  String.length vendor + 1 + String.length title
  + sum_list (map (fun s => 1 + String.length s)
                (omap named_value selected_options)).

(** The shape rules of a variant with a vendor and a title: code 104 is
    decided by the first character of the vendor, code 105 by the length of
    the generated name. *)
Definition shape_rules (v : Shopify.Variant) (r : Shopify.ValidationResult)
  : Prop :=
  ∀ a b, Shopify.vendor v = val a → Shopify.title v = val b →
         a ≠ "" → b ≠ "" →
         (104 ∈ codes r ↔ String.prefix "_" a = true)
         ∧ (105 ∈ codes r
            ↔ 100 < name_length a b (Shopify.selected_options v)).

(** A variant shares its key with an earlier variant of the batch. *)
Definition filed_before (key : Shopify.Variant → option string)
    (pre : list Shopify.Variant) (v : Shopify.Variant) : Prop :=
  ∃ k, key v = Some k ∧ ∃ v', In v' pre ∧ key v' = Some k.

(** What a variant that passed validation parses to: a product under the
    generated name, which is of the accepted shape and not of the form that
    the accounting engine reserves for inactivated records, with a sku and
    with the numbers that [parseFloat] reads off a non-empty price and a
    non-empty unit-cost amount. *)
Definition parsed_from (parseFloat : js string → float) (v : Shopify.Variant)
    (p : Product.t) : Prop :=
  Product.name p = val (name_of v)
  ∧ String.length (name_of v) ≤ 100
  ∧ (∀ k, name_of v ≠ "_" +:+ k)
  ∧ filled (Product.sku p)
  ∧ (∃ s, s ≠ "" ∧ Shopify.price v = val s
          ∧ Product.unit_price p = val (parseFloat (val s)))
  ∧ (∃ ii uc a, a ≠ "" ∧ Shopify.inventory_item v = val ii
                ∧ Shopify.unit_cost ii = val uc ∧ Shopify.amount uc = val a
                ∧ Product.purchase_cost p = val (parseFloat (val a))).

(** ** One page of variants, as the storefront engine fetches it *)

Module ShopifyEngine.

(** The response of the admin client to [GET_PRODUCT_VARIANTS], with the
    fields the engine reads.  A node is taken with the array of selected
    options that the query asks for: [Shopify.Variant] holds an array
    there, and a parsed variant without one is no value of it. *)
Module Product.
Record t : Type := {
  id : js string;
  title : js string;
  vendor : js string;
  productType : js string
}.
End Product.

Module Money.
Record t : Type := { currencyCode : js string; amount : js string }.
End Money.

Module InventoryItem.
Record t : Type := { unitCost : js Money.t }.
End InventoryItem.

Module Node.
Record t : Type := {
  id : js string;
  sku : js string;
  barcode : js string;
  product : js Product.t;
  selectedOptions : list Shopify.SelectedOption;
  price : js string;
  inventoryItem : js InventoryItem.t;
  taxable : js bool
}.
End Node.

Record Edge : Type := { cursor : js string; node : js Node.t }.
Record PageInfo : Type := { hasNextPage : js bool }.
Record Connection : Type := {
  pageInfo : js PageInfo;
  edges : js (list Edge)
}.
Record Data : Type := { productVariants : js Connection }.
Record Response : Type := { data : js Data }.

(** The variables of the query: [{ cursor }] or [null]. *)
Record Variables : Type := { v_cursor : js string }.

(** The one capability: [this.adminClient.query] with
    [GET_PRODUCT_VARIANTS]. *)
Inductive call : Type -> Type :=
| query (variables : js Variables) : call Response.

(** The body of the [for ... of] loop: the parsed variant of one node.
    Destructuring an absent node or product, and reading [unitCost] off an
    absent inventory item, throw. *)
Definition parsed_variant (variant : js Node.t) : outcome Shopify.Variant :=
  match variant with
  | val variant =>
      match Node.product variant with
      | val product =>
          match Node.inventoryItem variant with
          | val inventoryItem =>
              Resolved {|
                Shopify.id := Node.id variant;
                Shopify.product_id := Product.id product;
                Shopify.title := Product.title product;
                Shopify.vendor := Product.vendor product;
                Shopify.product_type := Product.productType product;
                Shopify.sku := Node.sku variant;
                Shopify.barcode := Node.barcode variant;
                Shopify.price := Node.price variant;
                Shopify.selected_options := Node.selectedOptions variant;
                Shopify.inventory_item :=
                  val {| Shopify.unit_cost :=
                           match InventoryItem.unitCost inventoryItem with
                           | val unitCost =>
                               val {| Shopify.amount := Money.amount unitCost |}
                           | _ => null
                           end |};
                Shopify.taxable := Node.taxable variant
              |}
          | _ => Threw TypeError
          end
      | _ => Threw TypeError
      end
  | _ => Threw TypeError
  end.

(** The loop over the edges, appending to [parsed_variants]. *)
Fixpoint parse_edges (edges : list Edge) (parsed_variants : list Shopify.Variant)
  : outcome (list Shopify.Variant) :=
  match edges with
  | [] => Resolved parsed_variants
  | edge :: edges =>
      match parsed_variant (node edge) with
      | Resolved parsed_variant =>
          parse_edges edges (parsed_variants ++ [parsed_variant])
      | Threw e => Threw e
      end
  end.

(** [edges[edges.length - 1].cursor] *)
Definition last_cursor (edges : list Edge) : outcome (js string) :=
  match last edges with
  | Some edge => Resolved (cursor edge)
  | None => Threw TypeError
  end.

Definition getProdutVariants (cursor : js string) : prog call Shopify.Page :=
  let variables :=
    if truthy cursor then val {| v_cursor := cursor |} else null in
  let! res := invoke (query variables) in
  match data res with
  | val data =>
      match productVariants data with
      | val productVariants =>
          match edges productVariants with
          | val edges =>
              match parse_edges edges [] with
              | Resolved parsed_variants =>
                  match pageInfo productVariants with
                  | val pageInfo =>
                      if truthy (hasNextPage pageInfo) then
                        match last_cursor edges with
                        | Resolved next_cursor =>
                            Ret {| Shopify.items := val parsed_variants;
                                   Shopify.next_cursor := next_cursor |}
                        | Threw e => Throw e
                        end
                      else
                        Ret {| Shopify.items := val parsed_variants;
                               Shopify.next_cursor := null |}
                  | _ => Throw TypeError
                  end
              | Threw e => Throw e
              end
          | _ => Throw TypeError
          end
      | _ => Ret {| Shopify.items := null; Shopify.next_cursor := null |}
      end
  | _ => Ret {| Shopify.items := null; Shopify.next_cursor := null |}
  end.

(** [getProdutVariants] as the capability of the pagination loop, over a
    client that answers the queries. *)
Definition fetched {W : Type} (client : handler call W)
  : handler Shopify.call W :=
  fun X c =>
    match c in Shopify.call X return W -> (exn + X) * W with
    | Shopify.getProdutVariants cursor => fun w =>
        let '(o, w', _) := run client (getProdutVariants cursor) w in
        (match o with Resolved page => inr page | Threw e => inl e end, w')
    end.

End ShopifyEngine.

(** ** Pages *)

(** An edge whose node, product and inventory item are present. *)
Definition complete_edge (e : ShopifyEngine.Edge) : Prop :=
  ∃ n pr ii, ShopifyEngine.node e = val n
             ∧ ShopifyEngine.Node.product n = val pr
             ∧ ShopifyEngine.Node.inventoryItem n = val ii.

(** The parsed variant [v] carries what the edge [e] holds: the fields of
    the node and of its product, and an inventory item whose unit cost is
    the amount of the node's unit cost, or [null]. *)
Definition parsed_of (e : ShopifyEngine.Edge) (v : Shopify.Variant) : Prop :=
  ∃ n pr ii,
    ShopifyEngine.node e = val n
    ∧ ShopifyEngine.Node.product n = val pr
    ∧ ShopifyEngine.Node.inventoryItem n = val ii
    ∧ Shopify.id v = ShopifyEngine.Node.id n
    ∧ Shopify.sku v = ShopifyEngine.Node.sku n
    ∧ Shopify.barcode v = ShopifyEngine.Node.barcode n
    ∧ Shopify.price v = ShopifyEngine.Node.price n
    ∧ Shopify.selected_options v = ShopifyEngine.Node.selectedOptions n
    ∧ Shopify.taxable v = ShopifyEngine.Node.taxable n
    ∧ Shopify.product_id v = ShopifyEngine.Product.id pr
    ∧ Shopify.title v = ShopifyEngine.Product.title pr
    ∧ Shopify.vendor v = ShopifyEngine.Product.vendor pr
    ∧ Shopify.product_type v = ShopifyEngine.Product.productType pr
    ∧ ∃ item, Shopify.inventory_item v = val item
              ∧ match ShopifyEngine.InventoryItem.unitCost ii with
                | val uc =>
                    ∃ c, Shopify.unit_cost item = val c
                         ∧ Shopify.amount c = ShopifyEngine.Money.amount uc
                | _ => Shopify.unit_cost item = null
                end.

(** The cursor a page reports: that of the last edge when the page says
    there is a next page. *)
Definition reported_cursor (pi : ShopifyEngine.PageInfo)
    (es : list ShopifyEngine.Edge) : js string :=
  if truthy (ShopifyEngine.hasNextPage pi)
  then match last es with
       | Some e => ShopifyEngine.cursor e
       | None => null
       end
  else null.

(** A response without the connection: no [data], or no [productVariants]
    in it. *)
Definition no_connection (res : ShopifyEngine.Response) : Prop :=
  match ShopifyEngine.data res with
  | val d => absent (ShopifyEngine.productVariants d)
  | _ => True
  end.

(** A client that answers every query with one variant and the word that
    there is a next page. *)
Definition salsa_node : ShopifyEngine.Node.t :=
  {| ShopifyEngine.Node.id := val "v1";
     ShopifyEngine.Node.sku := val "S1";
     ShopifyEngine.Node.barcode := val "B1";
     ShopifyEngine.Node.product :=
       val {| ShopifyEngine.Product.id := val "gid://shopify/Product/1";
              ShopifyEngine.Product.title := val "Salsa";
              ShopifyEngine.Product.vendor := val "Acme";
              ShopifyEngine.Product.productType := val "Food" |};
     ShopifyEngine.Node.selectedOptions :=
       [ {| Shopify.value := val "Default Title" |} ];
     ShopifyEngine.Node.price := val "9.99";
     ShopifyEngine.Node.inventoryItem :=
       val {| ShopifyEngine.InventoryItem.unitCost := null |};
     ShopifyEngine.Node.taxable := val true |}.

Definition salsa_response (more : bool) : ShopifyEngine.Response :=
  {| ShopifyEngine.data :=
       val {| ShopifyEngine.productVariants :=
                val {| ShopifyEngine.pageInfo :=
                         val {| ShopifyEngine.hasNextPage := val more |};
                       ShopifyEngine.edges :=
                         val [ {| ShopifyEngine.cursor := val "c1";
                                  ShopifyEngine.node := val salsa_node |} ]
                    |} |} |}.

Definition endless_client : handler ShopifyEngine.call nat :=
  fun X c =>
    match c in ShopifyEngine.call X return nat -> (exn + X) * nat with
    | ShopifyEngine.query _ => fun n => (inr (salsa_response true), S n)
    end.

(** A client that answers without data, and one that announces a next page
    after no edge at all. *)
Definition silent_client : handler ShopifyEngine.call nat :=
  fun X c =>
    match c in ShopifyEngine.call X return nat -> (exn + X) * nat with
    | ShopifyEngine.query _ => fun n =>
        (inr {| ShopifyEngine.data := undefined |}, S n)
    end.

Definition empty_page_client : handler ShopifyEngine.call nat :=
  fun X c =>
    match c in ShopifyEngine.call X return nat -> (exn + X) * nat with
    | ShopifyEngine.query _ => fun n =>
        (inr {| ShopifyEngine.data :=
                  val {| ShopifyEngine.productVariants :=
                           val {| ShopifyEngine.pageInfo :=
                                    val {| ShopifyEngine.hasNextPage :=
                                             val true |};
                                  ShopifyEngine.edges := val [] |} |} |},
         S n)
    end.

(** ** What a run of [syncProduct] may invoke *)

(** A property of every invocation of every run of a method, whatever the
    capabilities answer. *)
Definition always {Ev : Type → Type} {A : Type} (P : invocation Ev → Prop)
    (p : prog Ev A) : Prop :=
  ∀ (W : Type) (h : handler Ev W) (w : W), Forall P (run h p w).2.

(** The capabilities by name. *)
Inductive capability : Type :=
| FindCategoryByName
| CreateCategory
| FindProductByName
| FindProductBySKU
| CreateProduct
| UpdateProduct
| FindAccountByName
| Today.

Definition capability_of (i : invocation call) : capability :=
  match i with
  | Invoke c =>
      match c with
      | findCategoryByName _ => FindCategoryByName
      | createCategory _ => CreateCategory
      | findProductByName _ => FindProductByName
      | findProductBySKU _ => FindProductBySKU
      | createProduct _ => CreateProduct
      | updateProduct _ _ => UpdateProduct
      | findAccountByName _ => FindAccountByName
      | today => Today
      end
  end.

(** The number of invocations of the capabilities [q] in a trace, and a
    bound on it for every run of a method. *)
Definition count (q : capability → bool) (t : list (invocation call)) : nat :=
  length (List.filter (fun i => q (capability_of i)) t).

Definition at_most {A : Type} (q : capability → bool) (p : prog call A)
    (n : nat) : Prop :=
  ∀ (W : Type) (h : handler call W) (w : W), count q (run h p w).2 ≤ n.

Definition one (q : capability → bool) (c : capability) : nat :=
  if q c then 1 else 0.

(** The most a run of [syncProduct] can invoke: the category lookup and
    creation, the name lookup, the inactivation, the SKU lookup, and then
    either the update or the three account lookups and the creation. *)
Definition budget (q : capability → bool) : nat :=
  one q FindCategoryByName + one q CreateCategory + one q FindProductByName
  + one q UpdateProduct + one q FindProductBySKU
  + (one q UpdateProduct)
    `max` (3 * one q FindAccountByName + one q Today + one q CreateProduct).

(** The content of a product on an item marked active: the seven
    properties copied from the product, and the parent reference, present
    exactly when the product has a category. *)
Definition carries (product : Product.t) (i : Item) : Prop :=
  Active i = val true
  ∧ Name i = Product.name product
  ∧ Sku i = Product.sku product
  ∧ Description i = Product.description product
  ∧ PurchaseDesc i = Product.description product
  ∧ UnitPrice i = Product.unit_price product
  ∧ PurchaseCost i = Product.purchase_cost product
  ∧ Taxable i = Product.taxable product
  ∧ if truthy (Product.category product)
    then SubItem i = val true ∧ ∃ r, ParentRef i = val r
    else SubItem i = val false ∧ ParentRef i = null.

(** A record of another SKU, set aside: inactive, under the name made of
    an underscore and its own SKU. *)
Definition set_aside (product : Product.t) (i : Item) : Prop :=
  Active i = val false
  ∧ Name i = val ("_" +:+ display (Sku i))
  ∧ (Sku i == Product.sku product) = false.

(** What [syncProduct] may invoke for a product. *)
Definition allowed (product : Product.t) (i : invocation call) : Prop :=
  match i with
  | Invoke c =>
      match c with
      | findCategoryByName n | createCategory n =>
          n = Product.category product ∧ truthy n = true
      | findProductByName n => n = Product.name product
      | findProductBySKU k => k = Product.sku product
      | createProduct i =>
          carries product i ∧ Id i = undefined
          ∧ TrackQtyOnHand i = val true ∧ QtyOnHand i = val 0%float
      | updateProduct i sparse =>
          sparse = false ∧ (carries product i ∨ set_aside product i)
      | findAccountByName n =>
          n = "Sales of Product Income" ∨ n = "Cost of Goods Sold"
          ∨ n = "Inventory Asset"
      | today => True
      end
  end.




(** ** Account references *)

(** The reference to the last of the accounts that came back under the
    name [n]; [undefined] when none did. *)
Definition ref_by_name (n : string) (found : list Account.t) : js Ref :=
  match List.find (fun a => Account.Name a == val n) (rev found) with
  | Some a => val {| value := Account.Id a; name := Account.Name a |}
  | None => undefined
  end.

Definition is_updateProduct (i : invocation call) : bool :=
  match i with
  | Invoke c => match c with updateProduct _ _ => true | _ => false end
  end.

Definition is_createCategory (i : invocation call) : bool :=
  match i with
  | Invoke c => match c with createCategory _ => true | _ => false end
  end.

(** The in-memory store behind a connection that drops the lookup of one
    account. *)
Definition dropping (account : string) : handler call Store :=
  fun X c =>
    match c in call X return Store -> (exn + X) * Store with
    | findAccountByName n => fun s =>
        if String.eqb n account then (inl (Rejected "socket hang up"), s)
        else store _ (findAccountByName n) s
    | c => store _ c
    end.

(** A store whose category, items and accounts let one run of
    [syncProduct] go through every step. *)
Definition food_salsa : Product.t :=
  {| Product.name := val "Acme Salsa";
     Product.category := val "Food";
     Product.sku := val "NEW1";
     Product.description := val "Acme Salsa, barcode: 111";
     Product.unit_price := val 5%float;
     Product.purchase_cost := val 2%float;
     Product.taxable := val true |}.

(** * Proofs *)

(** ** Running a method *)

Section RunFacts.
Context {Ev : Type -> Type} {W : Type} (h : handler Ev W).

Lemma run_bind {A B} (p : prog Ev A) (f : A -> prog Ev B) (w : W) :
  run h (bind p f) w =
  match run h p w with
  | (Resolved a, w1, t1) =>
      let '(o, w2, t2) := run h (f a) w1 in (o, w2, t1 ++ t2)
  | (Threw e, w1, t1) => (Threw e, w1, t1)
  end.
Proof.
  revert w. induction p as [a|e|X c k IH]; intros w; simpl.
  - destruct (run h (f a) w) as [[o w2] t2]. reflexivity.
  - reflexivity.
  - destruct (h X c w) as [r w1]. rewrite IH.
    destruct (run h (k r) w1) as [[[a|e] w2] t]; [|reflexivity].
    destruct (run h (f a) w2) as [[o w3] t3]. reflexivity.
Qed.

Lemma run_invoke {X} (c : Ev X) (w : W) :
  run h (invoke c) w =
  let '(r, w1) := h X c w in
  (match r with inl e => Threw e | inr x => Resolved x end, w1, [Invoke c]).
Proof.
  unfold invoke. simpl. destruct (h X c w) as [[e|x] w1]; reflexivity.
Qed.
End RunFacts.

(** ** Names *)

Lemma append_assoc (a b c : string) : (a +:+ b) +:+ c = a +:+ (b +:+ c).
Proof.
  induction a as [|x a IH]; [reflexivity|].
  change (String x ((a +:+ b) +:+ c) = String x (a +:+ b +:+ c)).
  by rewrite IH.
Qed.

Lemma append_nil_r (a : string) : a +:+ "" = a.
Proof.
  induction a as [|x a IH]; [reflexivity|].
  change (String x (a +:+ "") = String x a). by rewrite IH.
Qed.

Lemma concat_spaced (x : string) (l : list string) :
  String.concat " " (x :: l) = x +:+ spaced l.
Proof.
  revert x. induction l as [|y l IH]; intros x.
  - simpl. by rewrite append_nil_r.
  - change (x +:+ " " +:+ String.concat " " (y :: l) = x +:+ " " +:+ y +:+ spaced l).
    by rewrite IH.
Qed.

Lemma named_value_step (o : Shopify.SelectedOption) :
  (truthy (Shopify.value o) && negb (Shopify.value o == val "Default Title"))
  = match named_value o with Some _ => true | None => false end
  ∧ ∀ s, named_value o = Some s → display (Shopify.value o) = s.
Proof.
  unfold named_value. destruct (Shopify.value o) as [| |s]; [done..|].
  change (truthy (val s) && negb (val s == val "Default Title"))
    with (negb (String.eqb s "") && negb (String.eqb s "Default Title")).
  change (display (val s)) with s.
  destruct (String.eqb_spec s ""), (String.eqb_spec s "Default Title");
    case_decide as Hd; simpl; (split; [|intros ?]); intuition congruence.
Qed.

Lemma generateProductName_fold (opts : list Shopify.SelectedOption) (acc : string) :
  fold_left
    (fun name o =>
       if truthy (Shopify.value o) && negb (Shopify.value o == val "Default Title")
       then name +:+ " " +:+ display (Shopify.value o)
       else name) opts acc
  = acc +:+ spaced (omap named_value opts).
Proof.
  revert acc. induction opts as [|o opts IH]; intros acc.
  - simpl. by rewrite append_nil_r.
  - cbn [fold_left omap list_omap]. rewrite IH.
    destruct (named_value_step o) as [-> Hd].
    destruct (named_value o) as [s|] eqn:E; [|reflexivity].
    rewrite (Hd s eq_refl). cbn [spaced fold_right].
    by rewrite !append_assoc.
Qed.

Theorem generateProductName_space_joined :
  (∀ (vendor title : string) (selected_options : list Shopify.SelectedOption),
     Shopify.generateProductName (val vendor) (val title) selected_options
     = space_joined vendor title selected_options)
  ∧ Shopify.generateProductName (val "Acme") (val "Salsa")
      [ {| Shopify.value := val "Default Title" |} ] = "Acme Salsa"
  ∧ Shopify.generateProductName (val "Acme") (val "Salsa")
      [ {| Shopify.value := val "Hot" |} ] = "Acme Salsa Hot".
Proof.
  split; [|split; reflexivity].
  intros vendor title opts. unfold Shopify.generateProductName, space_joined.
  rewrite generateProductName_fold, concat_spaced.
  change (display (val vendor)) with vendor.
  change (display (val title)) with title.
  cbn [spaced fold_right]. by rewrite !append_assoc.
Qed.

(** ** Validation *)

(** *** The callback, block by block *)

Lemma checkName_app (m : gmap string (js string)) (v : Shopify.Variant)
    (e : list Shopify.ValidationError) :
  Shopify.checkName m v e
  = ((Shopify.checkName m v []).1, e ++ (Shopify.checkName m v []).2).
Proof.
  unfold Shopify.checkName.
  repeat match goal with
         | |- context [if ?b then _ else _] => destruct b
         end; cbn [fst snd app]; by rewrite ?app_nil_r, <- ?app_assoc.
Qed.

Lemma checkSku_app (m : gmap string (js string)) (v : Shopify.Variant)
    (e : list Shopify.ValidationError) :
  Shopify.checkSku m v e
  = ((Shopify.checkSku m v []).1, e ++ (Shopify.checkSku m v []).2).
Proof.
  unfold Shopify.checkSku.
  repeat match goal with
         | |- context [if ?b then _ else _] => destruct b
         end; cbn [fst snd app]; by rewrite ?app_nil_r, <- ?app_assoc.
Qed.

Lemma checkBarcode_app (m : gmap string (js string)) (v : Shopify.Variant)
    (e : list Shopify.ValidationError) :
  Shopify.checkBarcode m v e
  = ((Shopify.checkBarcode m v []).1, e ++ (Shopify.checkBarcode m v []).2).
Proof.
  unfold Shopify.checkBarcode.
  repeat match goal with
         | |- context [if ?b then _ else _] => destruct b
         end; cbn [fst snd app]; by rewrite ?app_nil_r, <- ?app_assoc.
Qed.

Lemma validateVariant_blocks (seen : Shopify.Seen) (v : Shopify.Variant) :
  Shopify.validateVariant seen v
  = ({| Shopify.existing_names :=
          (Shopify.checkName (Shopify.existing_names seen) v []).1;
        Shopify.existing_skus :=
          (Shopify.checkSku (Shopify.existing_skus seen) v []).1;
        Shopify.existing_barcodes :=
          (Shopify.checkBarcode (Shopify.existing_barcodes seen) v []).1 |},
     {| Shopify.r_id := Shopify.id v;
        Shopify.r_product_id := Shopify.product_id v;
        Shopify.r_title := Shopify.title v;
        Shopify.errors :=
          base_errors v
          ++ (Shopify.checkName (Shopify.existing_names seen) v []).2
          ++ (Shopify.checkSku (Shopify.existing_skus seen) v []).2
          ++ (Shopify.checkBarcode (Shopify.existing_barcodes seen) v []).2 |}).
Proof.
  unfold Shopify.validateVariant.
  rewrite checkName_app.
  rewrite (checkSku_app _ v (_ ++ _)), (checkBarcode_app _ v (_ ++ _)).
  unfold base_errors.
  destruct (negb (truthy (Shopify.price v)) || (Shopify.price v == val ""));
    destruct (Shopify.cost_missing (Shopify.inventory_item v));
    cbn [app]; by rewrite <- ?app_assoc.
Qed.

Lemma validateVariant_exclusive (seen : Shopify.Seen) (v : Shopify.Variant) :
  exclusive (codes (Shopify.validateVariant seen v).2).
Proof.
  rewrite validateVariant_blocks. unfold codes. cbn [snd Shopify.errors].
  unfold base_errors, Shopify.checkName, Shopify.checkSku, Shopify.checkBarcode.
  repeat match goal with
         | |- context [if ?b then _ else _] => destruct b
         end;
    cbn [fst snd Shopify.errors map app Shopify.code];
    match goal with
    | |- exclusive ?l => exact (bool_decide_unpack (exclusive l) I)
    end.
Qed.

(** *** The batch *)

Lemma validateEach_acc (variants : list Shopify.Variant) (seen : Shopify.Seen)
    (acc : list Shopify.ValidationResult) :
  fold_left
    (fun '(seen, results) v =>
       let '(seen, result) := Shopify.validateVariant seen v in
       (seen, results ++ [result])) variants (seen, acc)
  = ((Shopify.validateEach variants seen).1,
     acc ++ (Shopify.validateEach variants seen).2).
Proof.
  unfold Shopify.validateEach. revert seen acc.
  induction variants as [|v variants IH]; intros seen acc; cbn [fold_left].
  - by rewrite app_nil_r.
  - destruct (Shopify.validateVariant seen v) as [seen1 r].
    rewrite (IH seen1 (acc ++ [r])), (IH seen1 ([] ++ [r])).
    cbn [fst snd app]. by rewrite <- app_assoc.
Qed.

Lemma validateEach_cons (v : Shopify.Variant) (variants : list Shopify.Variant)
    (seen : Shopify.Seen) :
  Shopify.validateEach (v :: variants) seen
  = ((Shopify.validateEach variants (Shopify.validateVariant seen v).1).1,
     (Shopify.validateVariant seen v).2
     :: (Shopify.validateEach variants (Shopify.validateVariant seen v).1).2).
Proof.
  unfold Shopify.validateEach at 1. cbn [fold_left].
  destruct (Shopify.validateVariant seen v) as [seen1 r].
  by rewrite validateEach_acc.
Qed.

Lemma validateEach_app (l1 l2 : list Shopify.Variant) (seen : Shopify.Seen) :
  Shopify.validateEach (l1 ++ l2) seen
  = ((Shopify.validateEach l2 (Shopify.validateEach l1 seen).1).1,
     (Shopify.validateEach l1 seen).2
     ++ (Shopify.validateEach l2 (Shopify.validateEach l1 seen).1).2).
Proof.
  revert seen. induction l1 as [|v l1 IH]; intros seen.
  - change (Shopify.validateEach [] seen)
      with (seen, @nil Shopify.ValidationResult).
    cbn [fst snd app]. by destruct (Shopify.validateEach l2 seen).
  - cbn [app]. rewrite !validateEach_cons, IH. reflexivity.
Qed.

Lemma validateEach_length (variants : list Shopify.Variant) (seen : Shopify.Seen) :
  length (Shopify.validateEach variants seen).2 = length variants.
Proof.
  revert seen. induction variants as [|v variants IH]; intros seen.
  - reflexivity.
  - rewrite validateEach_cons. cbn [snd length]. by rewrite IH.
Qed.

(** *** Reading and writing a tracking object *)

Lemma not_inherited_proto (k : string) :
  k ∉ Shopify.object_prototype → String.eqb k "__proto__" = false.
Proof.
  intros Hk. apply String.eqb_neq. intros ->. apply Hk.
  unfold Shopify.object_prototype. set_solver.
Qed.

Lemma tracked_first (m : gmap string (js string)) (k : string) (id : js string) :
  k ∉ Shopify.object_prototype → m !! k = None →
  truthy (Shopify.get m k) = false ∧ tracked m k id !! k = Some id.
Proof.
  intros Hk Hm. unfold tracked, Shopify.get, Shopify.set. rewrite Hm.
  rewrite (bool_decide_eq_false_2 _ Hk), (not_inherited_proto k Hk).
  cbn. split; [done|]. apply lookup_insert_eq.
Qed.

Lemma tracked_later (m : gmap string (js string)) (k : string) (i : js string) :
  m !! k = Some i → truthy i = true →
  truthy (Shopify.get m k) = true
  ∧ display (Shopify.get m k) = display i
  ∧ ∀ k' id, tracked m k' id !! k = Some i.
Proof.
  intros Hm Hi.
  assert (Shopify.get m k = Shopify.Own i) as Hget
    by (unfold Shopify.get; by rewrite Hm).
  rewrite Hget. split; [done|]. split; [done|].
  intros k' id. unfold tracked.
  destruct (truthy (Shopify.get m k')) eqn:Ht; [done|].
  unfold Shopify.set. destruct (String.eqb k' "__proto__"); [done|].
  rewrite lookup_insert_ne; [done|].
  intros ->. rewrite Hget in Ht. cbn in Ht. congruence.
Qed.

Lemma tracked_other (m : gmap string (js string)) (k k' : string) (id : js string) :
  k' ≠ k → tracked m k' id !! k = m !! k.
Proof.
  intros Hne. unfold tracked, Shopify.set.
  destruct (truthy (Shopify.get m k')); [done|].
  destruct (String.eqb k' "__proto__"); [done|].
  by rewrite lookup_insert_ne.
Qed.

(** *** First occurrence wins, for keys no object inherits *)

Section Tracker.
(** One of the three tracking objects, the key a variant is filed under
    in it, and its duplicate error. *)
Variable tr : Shopify.Seen → gmap string (js string).
Variable key : Shopify.Variant → option string.
Variable dup : nat.
Variable what : string.

Hypothesis Hinit : tr Shopify.no_seen = ∅.
Hypothesis Hstep : ∀ seen v,
  tr (Shopify.validateVariant seen v).1
  = match key v with
    | Some k => tracked (tr seen) k (Shopify.id v)
    | None => tr seen
    end.
Hypothesis Hdup : ∀ seen v k,
  key v = Some k → truthy (Shopify.get (tr seen) k) = true →
  In {| Shopify.code := dup;
        Shopify.message :=
          duplicate_message what k (display (Shopify.get (tr seen) k)) |}
     (Shopify.errors (Shopify.validateVariant seen v).2).
Hypothesis Hfresh : ∀ seen v k,
  key v = Some k → truthy (Shopify.get (tr seen) k) = false →
  dup ∉ codes (Shopify.validateVariant seen v).2.

Lemma tracker_keeps (k : string) (i : js string)
    (variants : list Shopify.Variant) (seen : Shopify.Seen) :
  tr seen !! k = Some i → truthy i = true →
  tr (Shopify.validateEach variants seen).1 !! k = Some i.
Proof.
  revert seen. induction variants as [|v variants IH]; intros seen Hk Hi.
  - done.
  - rewrite validateEach_cons. cbn [fst]. apply IH; [|done].
    rewrite Hstep. destruct (key v) as [k'|]; [|done].
    by apply (tracked_later (tr seen) k i Hk Hi).
Qed.

Lemma tracker_untouched (k : string) (variants : list Shopify.Variant)
    (seen : Shopify.Seen) :
  tr seen !! k = None → Forall (fun v => key v ≠ Some k) variants →
  tr (Shopify.validateEach variants seen).1 !! k = None.
Proof.
  revert seen. induction variants as [|v variants IH]; intros seen Hk Hvs.
  - done.
  - apply Forall_cons in Hvs as [Hv Hvs].
    rewrite validateEach_cons. cbn [fst]. apply IH; [|done].
    rewrite Hstep. destruct (key v) as [k'|]; [|done].
    rewrite tracked_other; [done|]. congruence.
Qed.

(** The first variant filed under [k] gets no duplicate error and
    registers its id; every later variant filed under [k] gets the
    duplicate error that names the first variant's id, whatever errors the
    variants in between and the first one carry. *)
Lemma first_occurrence_wins (k : string) (v1 v2 : Shopify.Variant)
    (pre mid post : list Shopify.Variant) :
  k ∉ Shopify.object_prototype →
  truthy (Shopify.id v1) = true →
  key v1 = Some k → key v2 = Some k →
  Forall (fun v => key v ≠ Some k) pre →
  ∃ rs1 r1 rs2 r2 rs3,
    Shopify.results
      (Shopify.validateProductVariants (pre ++ v1 :: mid ++ v2 :: post))
    = rs1 ++ r1 :: rs2 ++ r2 :: rs3
    ∧ length rs1 = length pre ∧ length rs2 = length mid
    ∧ (dup ∉ codes r1)
    ∧ In {| Shopify.code := dup;
            Shopify.message :=
              duplicate_message what k (display (Shopify.id v1)) |}
         (Shopify.errors r2).
Proof.
  intros Hk Hid Hv1 Hv2 Hpre.
  unfold Shopify.validateProductVariants. cbn [Shopify.results].
  rewrite validateEach_app, validateEach_cons, validateEach_app,
    validateEach_cons.
  cbn [fst snd].
  set (s0 := (Shopify.validateEach pre Shopify.no_seen).1).
  set (s1 := (Shopify.validateVariant s0 v1).1).
  set (s2 := (Shopify.validateEach mid s1).1).
  assert (tr s0 !! k = None) as H0.
  { apply tracker_untouched; [|done]. by rewrite Hinit. }
  destruct (tracked_first (tr s0) k (Shopify.id v1) Hk H0) as [Hf Hreg].
  assert (tr s1 !! k = Some (Shopify.id v1)) as H1.
  { unfold s1. by rewrite Hstep, Hv1. }
  assert (tr s2 !! k = Some (Shopify.id v1)) as H2
    by (by apply tracker_keeps).
  destruct (tracked_later (tr s2) k _ H2 Hid) as (Ht & Hd & _).
  do 5 eexists. split; [reflexivity|].
  split; [apply validateEach_length|]. split; [apply validateEach_length|].
  split; [by apply (Hfresh s0 v1 k)|].
  rewrite <- Hd. by apply Hdup.
Qed.
End Tracker.

(** *** The three tracking objects *)

Lemma string_missing (k : string) :
  negb (truthy (val k)) || (val k == val "") = String.eqb k "".
Proof.
  change (negb (negb (String.eqb k "")) || String.eqb k "" = String.eqb k "").
  by destruct (String.eqb k "").
Qed.

Lemma checkSku_key (m : gmap string (js string)) (v : Shopify.Variant) :
  Shopify.checkSku m v []
  = match sku_key v with
    | None =>
        (m, [ {| Shopify.code := 107;
                 Shopify.message := "invalid sku: sku can't be empty" |} ])
    | Some k =>
        if truthy (Shopify.get m k)
        then (m, [ {| Shopify.code := 108;
                      Shopify.message :=
                        duplicate_message "sku" k (display (Shopify.get m k)) |} ])
        else (Shopify.set m k (Shopify.id v), [])
    end.
Proof.
  unfold Shopify.checkSku, sku_key.
  destruct (Shopify.sku v) as [| |k]; [done..|].
  rewrite string_missing. change (display (val k)) with k.
  case_decide as Hk.
  - subst k. reflexivity.
  - apply String.eqb_neq in Hk. rewrite Hk. reflexivity.
Qed.

Lemma checkBarcode_key (m : gmap string (js string)) (v : Shopify.Variant) :
  Shopify.checkBarcode m v []
  = match barcode_key v with
    | None =>
        (m, [ {| Shopify.code := 109;
                 Shopify.message := "invalid barcode: barcode can't be empty" |} ])
    | Some k =>
        if truthy (Shopify.get m k)
        then (m, [ {| Shopify.code := 110;
                      Shopify.message :=
                        duplicate_message "barcode" k
                          (display (Shopify.get m k)) |} ])
        else (Shopify.set m k (Shopify.id v), [])
    end.
Proof.
  unfold Shopify.checkBarcode, barcode_key.
  destruct (Shopify.barcode v) as [| |k]; [done..|].
  rewrite string_missing. change (display (val k)) with k.
  case_decide as Hk.
  - subst k. reflexivity.
  - apply String.eqb_neq in Hk. rewrite Hk. reflexivity.
Qed.

Lemma checkName_key (m : gmap string (js string)) (v : Shopify.Variant) :
  (Shopify.checkName m v []).1
  = match name_key v with
    | Some n => tracked m n (Shopify.id v)
    | None => m
    end
  ∧ ∀ n, name_key v = Some n →
      (Shopify.checkName m v []).2
      = if truthy (Shopify.get m n)
        then [ {| Shopify.code := 106;
                  Shopify.message :=
                    duplicate_message "name" n (display (Shopify.get m n)) |} ]
        else [].
Proof.
  unfold Shopify.checkName, name_key, tracked.
  destruct (Shopify.vendor v) as [| |a] eqn:Ha.
  1,2: cbn; split; done.
  destruct (Shopify.title v) as [| |b] eqn:Hb.
  1,2: change (negb (truthy (@undefined string)) || (undefined == val ""))
         with true;
       change (negb (truthy (@null string)) || (null == val "")) with true;
       rewrite orb_true_r; split; done.
  rewrite !string_missing.
  case_decide as Hab.
  - assert (String.eqb a "" || String.eqb b "" = true) as ->.
    { destruct Hab as [->| ->]; [done|]. by rewrite orb_true_r. }
    split; [by destruct (String.eqb a ""), (String.eqb b "")|done].
  - assert (String.eqb a "" = false) as -> by (apply String.eqb_neq; tauto).
    assert (String.eqb b "" = false) as -> by (apply String.eqb_neq; tauto).
    cbn [orb].
    destruct (String.prefix "_" _ || (100 <? String.length _)) eqn:Hshape.
    + split; [|done].
      by destruct (String.prefix "_" _), (100 <? String.length _).
    + split.
      * by destruct (truthy (Shopify.get m _)).
      * intros n [= <-]. by destruct (truthy (Shopify.get m _)).
Qed.

(** The codes of each block. *)
Lemma base_errors_codes (v : Shopify.Variant) :
  Forall (fun e => Shopify.code e ≤ 101) (base_errors v).
Proof.
  unfold base_errors.
  destruct (_ || _), (Shopify.cost_missing _); repeat constructor.
Qed.

Lemma checkName_codes (m : gmap string (js string)) (v : Shopify.Variant) :
  Forall (fun e => 102 ≤ Shopify.code e ≤ 106) (Shopify.checkName m v []).2.
Proof.
  unfold Shopify.checkName.
  repeat match goal with
         | |- context [if ?b then _ else _] => destruct b
         end; cbn [snd app]; repeat constructor.
Qed.

Lemma checkSku_codes (m : gmap string (js string)) (v : Shopify.Variant) :
  Forall (fun e => 107 ≤ Shopify.code e ≤ 108) (Shopify.checkSku m v []).2.
Proof.
  unfold Shopify.checkSku.
  repeat match goal with
         | |- context [if ?b then _ else _] => destruct b
         end; cbn [snd app]; repeat constructor.
Qed.

Lemma checkBarcode_codes (m : gmap string (js string)) (v : Shopify.Variant) :
  Forall (fun e => 109 ≤ Shopify.code e ≤ 110) (Shopify.checkBarcode m v []).2.
Proof.
  unfold Shopify.checkBarcode.
  repeat match goal with
         | |- context [if ?b then _ else _] => destruct b
         end; cbn [snd app]; repeat constructor.
Qed.

Lemma code_not_in (c : nat) (es : list Shopify.ValidationError) :
  Forall (fun e => Shopify.code e ≠ c) es → c ∉ map Shopify.code es.
Proof.
  intros Hes Hin. apply list_elem_of_In, in_map_iff in Hin as (e & He & Hin).
  rewrite Forall_forall in Hes. apply (Hes e); [|done].
  by apply list_elem_of_In.
Qed.

(** A generated name holds a space, the names of inherited properties do
    not. *)
Lemma has_space_app (a b : string) :
  has_space (a +:+ b) = has_space a || has_space b.
Proof.
  induction a as [|c a IH]; [reflexivity|].
  change (Ascii.eqb c (Ascii.ascii_of_nat 32) || has_space (a +:+ b)
          = Ascii.eqb c (Ascii.ascii_of_nat 32) || has_space a || has_space b).
  by rewrite IH, orb_assoc.
Qed.

Lemma generateProductName_has_space (vendor title : js string)
    (selected_options : list Shopify.SelectedOption) :
  has_space (Shopify.generateProductName vendor title selected_options) = true.
Proof.
  unfold Shopify.generateProductName.
  assert (has_space (display vendor +:+ " " +:+ display title) = true) as Hacc.
  { rewrite !has_space_app. cbn. by rewrite orb_true_r. }
  revert Hacc. generalize (display vendor +:+ " " +:+ display title) as acc.
  induction selected_options as [|o opts IH]; intros acc Hacc; [done|].
  cbn [fold_left]. apply IH.
  destruct (_ && _); [|done]. by rewrite has_space_app, Hacc.
Qed.

Lemma name_key_not_inherited (v : Shopify.Variant) (n : string) :
  name_key v = Some n → n ∉ Shopify.object_prototype.
Proof.
  intros Hn Hin.
  assert (has_space n = true) as Hs.
  { unfold name_key in Hn.
    destruct (Shopify.vendor v), (Shopify.title v); try done.
    case_decide; [done|]. cbn zeta in Hn.
    destruct (_ || _); [done|]. injection Hn as <-.
    apply generateProductName_has_space. }
  assert (Forall (fun k => has_space k = false) Shopify.object_prototype)
    as Hproto by (repeat constructor).
  rewrite Forall_forall in Hproto. rewrite (Hproto n Hin) in Hs. discriminate.
Qed.

Lemma errors_blocks (seen : Shopify.Seen) (v : Shopify.Variant) :
  Shopify.errors (Shopify.validateVariant seen v).2
  = base_errors v
    ++ (Shopify.checkName (Shopify.existing_names seen) v []).2
    ++ (Shopify.checkSku (Shopify.existing_skus seen) v []).2
    ++ (Shopify.checkBarcode (Shopify.existing_barcodes seen) v []).2.
Proof. by rewrite validateVariant_blocks. Qed.

Ltac other_codes :=
  apply code_not_in;
  first [ eapply Forall_impl; [apply base_errors_codes|]
        | eapply Forall_impl; [apply checkName_codes|]
        | eapply Forall_impl; [apply checkSku_codes|]
        | eapply Forall_impl; [apply checkBarcode_codes|] ];
  cbn; intros; lia.

(** Within a batch, the first variant of a given non-empty sku that no
    object inherits gets no code 108 and registers its id, if it has one;
    every later variant of that sku gets code 108 with the first variant's
    id in the message. *)
Lemma sku_first_occurrence_wins (k : string) (v1 v2 : Shopify.Variant)
    (pre mid post : list Shopify.Variant) :
  k ∉ Shopify.object_prototype →
  truthy (Shopify.id v1) = true →
  sku_key v1 = Some k → sku_key v2 = Some k →
  Forall (fun v => sku_key v ≠ Some k) pre →
  ∃ rs1 r1 rs2 r2 rs3,
    Shopify.results
      (Shopify.validateProductVariants (pre ++ v1 :: mid ++ v2 :: post))
    = rs1 ++ r1 :: rs2 ++ r2 :: rs3
    ∧ length rs1 = length pre ∧ length rs2 = length mid
    ∧ (108 ∉ codes r1)
    ∧ In {| Shopify.code := 108;
            Shopify.message :=
              duplicate_message "sku" k (display (Shopify.id v1)) |}
         (Shopify.errors r2).
Proof.
  apply (first_occurrence_wins Shopify.existing_skus sku_key 108 "sku").
  - reflexivity.
  - intros seen v. rewrite validateVariant_blocks. cbn [fst Shopify.existing_skus].
    rewrite checkSku_key. unfold tracked.
    by destruct (sku_key v) as [k'|]; [destruct (truthy _)|].
  - intros seen v k' Hk' Ht. rewrite errors_blocks, checkSku_key, Hk', Ht.
    rewrite !in_app_iff. right. right. left. by left.
  - intros seen v k' Hk' Ht. unfold codes.
    rewrite errors_blocks, checkSku_key, Hk', Ht, !map_app.
    rewrite !elem_of_app. cbn [snd map].
    intros [H|[H|[H|H]]]; revert H; [other_codes..|by intros ?%elem_of_nil|other_codes].
Qed.

Lemma barcode_first_occurrence_wins (k : string) (v1 v2 : Shopify.Variant)
    (pre mid post : list Shopify.Variant) :
  k ∉ Shopify.object_prototype →
  truthy (Shopify.id v1) = true →
  barcode_key v1 = Some k → barcode_key v2 = Some k →
  Forall (fun v => barcode_key v ≠ Some k) pre →
  ∃ rs1 r1 rs2 r2 rs3,
    Shopify.results
      (Shopify.validateProductVariants (pre ++ v1 :: mid ++ v2 :: post))
    = rs1 ++ r1 :: rs2 ++ r2 :: rs3
    ∧ length rs1 = length pre ∧ length rs2 = length mid
    ∧ (110 ∉ codes r1)
    ∧ In {| Shopify.code := 110;
            Shopify.message :=
              duplicate_message "barcode" k (display (Shopify.id v1)) |}
         (Shopify.errors r2).
Proof.
  apply (first_occurrence_wins Shopify.existing_barcodes barcode_key 110
           "barcode").
  - reflexivity.
  - intros seen v. rewrite validateVariant_blocks.
    cbn [fst Shopify.existing_barcodes].
    rewrite checkBarcode_key. unfold tracked.
    by destruct (barcode_key v) as [k'|]; [destruct (truthy _)|].
  - intros seen v k' Hk' Ht. rewrite errors_blocks, checkBarcode_key, Hk', Ht.
    rewrite !in_app_iff. right. right. right. by left.
  - intros seen v k' Hk' Ht. unfold codes.
    rewrite errors_blocks, checkBarcode_key, Hk', Ht, !map_app.
    rewrite !elem_of_app. cbn [snd map].
    intros [H|[H|[H|H]]]; revert H; [other_codes..|by intros ?%elem_of_nil].
Qed.

(** The same for names, with no exception: a generated name is never the
    name of an inherited property. *)
Lemma name_first_occurrence_wins (n : string) (v1 v2 : Shopify.Variant)
    (pre mid post : list Shopify.Variant) :
  truthy (Shopify.id v1) = true →
  name_key v1 = Some n → name_key v2 = Some n →
  Forall (fun v => name_key v ≠ Some n) pre →
  ∃ rs1 r1 rs2 r2 rs3,
    Shopify.results
      (Shopify.validateProductVariants (pre ++ v1 :: mid ++ v2 :: post))
    = rs1 ++ r1 :: rs2 ++ r2 :: rs3
    ∧ length rs1 = length pre ∧ length rs2 = length mid
    ∧ (106 ∉ codes r1)
    ∧ In {| Shopify.code := 106;
            Shopify.message :=
              duplicate_message "name" n (display (Shopify.id v1)) |}
         (Shopify.errors r2).
Proof.
  intros Hid Hv1 Hv2 Hpre.
  refine (first_occurrence_wins Shopify.existing_names name_key 106 "name"
            _ _ _ _ n v1 v2 pre mid post
            (name_key_not_inherited v1 n Hv1) Hid Hv1 Hv2 Hpre).
  - reflexivity.
  - intros seen v. rewrite validateVariant_blocks.
    cbn [fst Shopify.existing_names]. apply checkName_key.
  - intros seen v k' Hk' Ht. rewrite errors_blocks.
    rewrite (proj2 (checkName_key _ v) k' Hk'), Ht.
    rewrite !in_app_iff. right. left. by left.
  - intros seen v k' Hk' Ht. unfold codes. rewrite errors_blocks.
    rewrite (proj2 (checkName_key _ v) k' Hk'), Ht, !map_app.
    rewrite !elem_of_app. cbn [map].
    intros [H|[H|[H|H]]]; revert H;
      [other_codes|by intros ?%elem_of_nil|other_codes..].
Qed.

(** Every result of a batch is the result of one variant against some
    state of the tracking objects. *)
Lemma validateEach_Forall (P : Shopify.ValidationResult → Prop) :
  (∀ seen v, P (Shopify.validateVariant seen v).2) →
  ∀ variants seen, Forall P (Shopify.validateEach variants seen).2.
Proof.
  intros HP variants. induction variants as [|v variants IH]; intros seen.
  - constructor.
  - rewrite validateEach_cons. cbn [snd]. constructor; [apply HP | apply IH].
Qed.

(** C4. In every result of a validation batch the error list holds no code
    of 102, 103 together with a code of 104, 105, 106, and no code of
    104, 105 together with 106. *)
Theorem validateProductVariants_exclusive (variants : list Shopify.Variant) :
  Forall (fun r => exclusive (codes r))
    (Shopify.results (Shopify.validateProductVariants variants)).
Proof.
  unfold Shopify.validateProductVariants. cbn [Shopify.results].
  apply validateEach_Forall. apply validateVariant_exclusive.
Qed.

(** C5. The tracking objects are read by truthiness: a first variant whose
    sku is a property name every object inherits is reported as a duplicate
    (code 108) of a variant that does not exist, and a later duplicate of a
    variant whose id is empty is not reported at all. *)
Theorem validateProductVariants_first_occurrence_lost :
  map codes (Shopify.results (Shopify.validateProductVariants
    [ variant_of (val "v1") "Salsa" "constructor" "B1" ]))
  = [ [108] ]
  ∧ map Shopify.errors (Shopify.results (Shopify.validateProductVariants
      [ variant_of (val "v1") "Salsa" "constructor" "B1" ]))
    = [ [ {| Shopify.code := 108;
             Shopify.message :=
               "duplicate sku: constructor; the sku is already in use by product variant with id: function Object() { [native code] }" |} ] ]
  ∧ map codes (Shopify.results (Shopify.validateProductVariants
      [ variant_of (val "") "Salsa" "S1" "B1";
        variant_of (val "v2") "Chips" "S1" "B2" ]))
    = [ []; [] ].
Proof. repeat split; vm_compute; reflexivity. Qed.

(** ** parseProduct *)

(** C7. On a variant whose unit cost is present with an empty amount, the
    case the validator reports as a missing cost (code 101), parseProduct
    does not return a null purchase cost: it returns the number parseFloat
    makes of the empty string. *)
Theorem parseProduct_empty_amount (parseFloat : js string -> float) :
  Shopify.cost_missing (Shopify.inventory_item empty_amount_variant) = true
  ∧ ∃ p, Shopify.parseProduct parseFloat empty_amount_variant = Resolved p
       ∧ Product.purchase_cost p = val (parseFloat (val ""))
       ∧ Product.purchase_cost p ≠ null.
Proof.
  split; [reflexivity|]. eexists. split; [reflexivity|]. split; [reflexivity|].
  discriminate.
Qed.

(** What parseProduct does return: the generated name and description, the
    category, sku and taxable flag as they are, a null unit price for a
    missing or empty price, a null purchase cost for a missing unit cost. *)
Lemma parseProduct_resolved (parseFloat : js string -> float)
    (v : Shopify.Variant) (ii : Shopify.InventoryItem) :
  Shopify.inventory_item v = val ii →
  ∃ p, Shopify.parseProduct parseFloat v = Resolved p
     ∧ Product.name p
       = val (Shopify.generateProductName (Shopify.vendor v) (Shopify.title v)
                (Shopify.selected_options v))
     ∧ Product.description p
       = val (Shopify.generateProductName (Shopify.vendor v) (Shopify.title v)
                (Shopify.selected_options v)
              +:+ ", barcode: " +:+ display (Shopify.barcode v))
     ∧ Product.category p = Shopify.product_type v
     ∧ Product.sku p = Shopify.sku v
     ∧ Product.taxable p = Shopify.taxable v
     ∧ Product.unit_price p
       = (if truthy (Shopify.price v) then val (parseFloat (Shopify.price v))
          else null)
     ∧ Product.purchase_cost p
       = match Shopify.unit_cost ii with
         | val uc => val (parseFloat (Shopify.amount uc))
         | _ => null
         end.
Proof.
  intros Hii. unfold Shopify.parseProduct. rewrite Hii.
  eexists. split; [reflexivity|]. repeat split.
Qed.

Lemma parseProduct_no_inventory_item (parseFloat : js string -> float)
    (v : Shopify.Variant) :
  (Shopify.inventory_item v = null ∨ Shopify.inventory_item v = undefined) →
  Shopify.parseProduct parseFloat v = Threw TypeError.
Proof. intros [H|H]; unfold Shopify.parseProduct; by rewrite H. Qed.

(** ** Pagination *)

Lemma concat_page_items (a : list (js Shopify.Variant)) (p : Shopify.Page) :
  Shopify.concat a (Shopify.items p) = a ++ page_items p.
Proof. unfold page_items. by destruct (Shopify.items p). Qed.

Lemma page_items_lists (pages : list Shopify.Page)
    (lists : list (list Shopify.Variant)) :
  map Shopify.items pages = map val lists →
  List.concat (map page_items pages) = map val (List.concat lists).
Proof.
  revert lists. induction pages as [|p pages IH]; intros [|l lists]; try done.
  cbn [map List.concat]. intros [= Hp Hps].
  rewrite map_app, (IH lists Hps). unfold page_items. by rewrite Hp.
Qed.

Lemma requests_next (c : js string) (p : Shopify.Page)
    (ps : list Shopify.Page) (e : option exn) :
  requests c (p :: ps) e = c :: requests (Shopify.next_cursor p) ps e.
Proof. reflexivity. Qed.

Section Retrieving.
Context {W : Type} (h : handler Shopify.call W).

Lemma retrieving_step (fuel : nat) (acc : list (js Shopify.Variant))
    (c : js string) (w : W) :
  run h (Shopify.retrieving (S fuel) acc c) w =
  match h _ (Shopify.getProdutVariants c) w with
  | (inl e, w1) => (Threw e, w1, [Invoke (Shopify.getProdutVariants c)])
  | (inr p, w1) =>
      if truthy (Shopify.next_cursor p)
      then
        let '(o, w2, t) :=
          run h (Shopify.retrieving fuel (Shopify.concat acc (Shopify.items p))
                   (Shopify.next_cursor p)) w1 in
        (o, w2, Invoke (Shopify.getProdutVariants c) :: t)
      else (Resolved (Some (Shopify.concat acc (Shopify.items p))), w1,
            [Invoke (Shopify.getProdutVariants c)])
  end.
Proof.
  cbn [Shopify.retrieving]. rewrite run_bind, run_invoke.
  destruct (h _ (Shopify.getProdutVariants c) w) as [[e|p] w1]; [reflexivity|].
  destruct (truthy (Shopify.next_cursor p)); reflexivity.
Qed.

Lemma retrieving_served (w : W) (c : js string) (pages : list Shopify.Page)
    (e : option exn) (w' : W) :
  serves h w c pages e w' →
  ∀ fuel acc,
    length (requests c pages e) ≤ fuel →
    run h (Shopify.retrieving fuel acc c) w =
    (match e with
     | None => Resolved (Some (acc ++ List.concat (map page_items pages)))
     | Some x => Threw x
     end,
     w',
     map (fun c => Invoke (Shopify.getProdutVariants c)) (requests c pages e)).
Proof.
  induction 1 as [w c p w' Hh Hc | w c p w' ps e w'' Hh Hc Hs IH | w c e w' Hh];
    intros fuel acc Hfuel.
  - destruct fuel as [|fuel]; [simpl in Hfuel; lia|].
    rewrite retrieving_step, Hh, Hc. cbn [map List.concat].
    by rewrite concat_page_items, app_nil_r.
  - rewrite requests_next in Hfuel |- *. cbn [length] in Hfuel.
    destruct fuel as [|fuel]; [lia|].
    rewrite retrieving_step, Hh, Hc.
    rewrite (IH fuel) by lia.
    rewrite concat_page_items. cbn [map List.concat].
    by rewrite app_assoc.
  - destruct fuel as [|fuel]; [simpl in Hfuel; lia|].
    by rewrite retrieving_step, Hh.
Qed.
End Retrieving.

(** C9. Whatever the fetch capability, when it answers the request without
    a cursor and then the request under each cursor it reported with the
    pages [pages], the last of which is the first to report no cursor
    (null, undefined or the empty string: the loop's own test), the driver
    makes exactly these requests, one per page, and returns what the pages
    contribute, in page order: when the pages carry item lists, the
    concatenation of these lists, every variant in its place, nothing
    dropped and nothing merged; when instead a request is rejected, the
    driver makes no further request and fails with that rejection. *)
Theorem getAllProductVariants_served {W : Type} (h : handler Shopify.call W)
    (w : W) (pages : list Shopify.Page) (e : option exn) (w' : W) (fuel : nat) :
  serves h w null pages e w' →
  length (requests null pages e) ≤ fuel →
  run h (Shopify.getAllProductVariants fuel) w =
  (match e with
   | None => Resolved (Some (List.concat (map page_items pages)))
   | Some x => Threw x
   end,
   w',
   map (fun c => Invoke (Shopify.getProdutVariants c)) (requests null pages e))
  ∧ length (requests null pages e)
    = length pages + match e with Some _ => 1 | None => 0 end
  ∧ ∀ lists : list (list Shopify.Variant),
      map Shopify.items pages = map val lists →
      List.concat (map page_items pages) = map val (List.concat lists).
Proof.
  intros Hs Hfuel. split; [|split].
  - unfold Shopify.getAllProductVariants.
    by rewrite (retrieving_served h _ _ _ _ _ Hs fuel []).
  - unfold requests. rewrite length_firstn. simpl. rewrite length_map.
    destruct e; lia.
  - apply page_items_lists.
Qed.

(** The spec's example: three pages behind the cursors c1 and c2, three
    requests, and the four variants of the three pages in order (one
    variant is on two pages and is returned twice). *)
Lemma getAllProductVariants_three_pages :
  serves three_pages 0 null [page1; page2; page3] None 3
  ∧ length (requests null [page1; page2; page3] None) ≤ 3
  ∧ run three_pages (Shopify.getAllProductVariants 3) 0
    = (Resolved (Some [ val (variant_of (val "v1") "Salsa" "S1" "B1");
                        val (variant_of (val "v2") "Chips" "S2" "B2");
                        val (variant_of (val "v3") "Beans" "S3" "B3");
                        val (variant_of (val "v2") "Chips" "S2" "B2") ]),
       3,
       [ Invoke (Shopify.getProdutVariants null);
         Invoke (Shopify.getProdutVariants (val "c1"));
         Invoke (Shopify.getProdutVariants (val "c2")) ]).
Proof.
  assert (serves three_pages 0 null [page1; page2; page3] None 3) as Hs.
  { eapply serves_next; [reflexivity..|].
    eapply serves_next; [reflexivity..|].
    eapply serves_last; reflexivity. }
  assert (length (requests null [page1; page2; page3] None) ≤ 3) as Hf.
  { simpl. lia. }
  split; [exact Hs|]. split; [exact Hf|].
  destruct (getAllProductVariants_served three_pages 0 _ None 3 3 Hs Hf)
    as (Hrun & _ & Hlists).
  rewrite Hrun.
  rewrite (Hlists [ [ variant_of (val "v1") "Salsa" "S1" "B1";
                      variant_of (val "v2") "Chips" "S2" "B2" ];
                    [ variant_of (val "v3") "Beans" "S3" "B3" ];
                    [ variant_of (val "v2") "Chips" "S2" "B2" ] ] eq_refl).
  reflexivity.
Defined.

(** ** Reconciliation *)

Ltac trace_norm :=
  repeat first [ progress cbn [app] | rewrite <- app_assoc | rewrite app_nil_r ].

Section SyncFacts.
Context {W : Type} (h : handler call W).

Lemma run_syncProduct (product : Product.t) (w : W) :
  run h (syncProduct product) w =
  match run h (latestCategory product) w with
  | (Resolved latest_category, w1, t1) =>
      let latest_product := latestProduct product latest_category in
      match h _ (findProductByName (Name latest_product)) w1 with
      | (inl e, w2) =>
          (Threw e, w2, t1 ++ [Invoke (findProductByName (Name latest_product))])
      | (inr same_name_product, w2) =>
          let '(o, w3, t3) :=
            run h (afterNameLookup same_name_product latest_product) w2 in
          (o, w3,
           t1 ++ Invoke (findProductByName (Name latest_product)) :: t3)
      end
  | (Threw e, w1, t1) => (Threw e, w1, t1)
  end.
Proof.
  unfold syncProduct. rewrite run_bind.
  destruct (run h (latestCategory product) w) as [[[cat|e] w1] t1]; [|done].
  rewrite run_bind, run_invoke.
  destruct (h _ (findProductByName _) w1) as [[e|same] w2]; [done|].
  by destruct (run h (afterNameLookup same _) w2) as [[o w3] t3].
Qed.

Lemma run_afterNameLookup (same_name_product : option Item)
    (latest_product : Item) (w : W) :
  run h (afterNameLookup same_name_product latest_product) w =
  match run h (nameGuard same_name_product latest_product) w with
  | (Resolved guarded, w1, t1) =>
      match run h (orBySKU guarded latest_product) w1 with
      | (Resolved existing_product, w2, t2) =>
          let '(o, w3, t3) :=
            run h (reconcile existing_product latest_product) w2 in
          (o, w3, t1 ++ t2 ++ t3)
      | (Threw e, w2, t2) => (Threw e, w2, t1 ++ t2)
      end
  | (Threw e, w1, t1) => (Threw e, w1, t1)
  end.
Proof.
  unfold afterNameLookup. rewrite run_bind.
  destruct (run h (nameGuard _ _) w) as [[[guarded|e] w1] t1]; [|done].
  rewrite run_bind.
  destruct (run h (orBySKU _ _) w1) as [[[existing|e] w2] t2]; [|done].
  by destruct (run h (reconcile _ _) w2) as [[o w3] t3].
Qed.

(** The collision branch of the guard: one write, then the method goes
    on as if the name lookup had found nothing. *)
Lemma run_afterNameLookup_collision (same_name_product latest_product : Item)
    (w : W) :
  (Sku same_name_product == Sku latest_product) = false →
  run h (afterNameLookup (Some same_name_product) latest_product) w =
  match h _ (updateProduct (inactivated same_name_product) false) w with
  | (inl e, w1) =>
      (Threw e, w1,
       [Invoke (updateProduct (inactivated same_name_product) false)])
  | (inr _, w1) =>
      let '(o, w2, t) := run h (afterNameLookup None latest_product) w1 in
      (o, w2,
       Invoke (updateProduct (inactivated same_name_product) false) :: t)
  end.
Proof.
  intros Hsku. rewrite !run_afterNameLookup. cbn [nameGuard].
  rewrite Hsku, run_bind, run_invoke.
  destruct (h _ (updateProduct _ _) w) as [[e|r] w1]; [done|].
  rewrite run_afterNameLookup. cbn [nameGuard run app].
  destruct (run h (orBySKU None latest_product) w1) as [[[ex|e] w2] t2];
    [|done].
  by destruct (run h (reconcile ex latest_product) w2) as [[o w3] t3].
Qed.

Lemma run_syncProduct_resolved (product : Product.t) (w : W) :
  run h (syncProduct product) w =
  match run h (resolveExisting product) w with
  | (Resolved (latest_product, existing_product), w1, t1) =>
      let '(o, w2, t2) :=
        run h (reconcile existing_product latest_product) w1 in
      (o, w2, t1 ++ t2)
  | (Threw e, w1, t1) => (Threw e, w1, t1)
  end.
Proof.
  rewrite run_syncProduct. unfold resolveExisting. rewrite run_bind.
  destruct (run h (latestCategory product) w) as [[[cat|e] w1] t1]; [|done].
  cbn zeta. rewrite run_bind, run_invoke.
  destruct (h _ (findProductByName _) w1) as [[e|same] w2]; [done|].
  rewrite run_afterNameLookup, run_bind.
  destruct (run h (nameGuard _ _) w2) as [[[guarded|e] w3] t3];
    [|done].
  rewrite run_bind.
  destruct (run h (orBySKU _ _) w3) as [[[existing|e] w4] t4]; cbn [run].
  - destruct (run h (reconcile _ _) w4) as [[o w5] t5].
    f_equal; trace_norm; reflexivity.
  - f_equal; trace_norm; reflexivity.
Qed.

(** Up to the settling of [existing_product] no product is created. *)
Lemma resolveExisting_no_create (product : Product.t) (w : W) :
  List.filter is_createProduct (run h (resolveExisting product) w).2 = [].
Proof.
  unfold resolveExisting, latestCategory, findOrCreateCategoryByName,
    nameGuard, orBySKU.
  repeat first
    [ rewrite run_bind
    | rewrite run_invoke
    | progress cbn [run snd fst app List.filter is_createProduct]
    | rewrite List.filter_app
    | match goal with
      | |- context [h ?X ?c ?w] => destruct (h X c w) as [[?|?] ?]
      | |- context [match ?o with Some _ => _ | None => _ end] => destruct o
      | |- context [if ?b then _ else _] => destruct b
      end ];
    reflexivity.
Qed.
End SyncFacts.

(** ** Every run of syncProduct *)

Section Always.
Context {Ev : Type → Type} (P : invocation Ev → Prop).

Lemma always_Ret {A} (a : A) : always P (Ret a : prog Ev A).
Proof. intros W h w. constructor. Qed.

Lemma always_Throw {A} (e : exn) : always P (Throw e : prog Ev A).
Proof. intros W h w. constructor. Qed.

Lemma always_invoke {X} (c : Ev X) : P (Invoke c) → always P (invoke c).
Proof.
  intros Hc W h w. rewrite run_invoke.
  destruct (h X c w) as [r w1]. by repeat constructor.
Qed.

Lemma always_bind {A B} (p : prog Ev A) (f : A → prog Ev B) :
  always P p → (∀ a, always P (f a)) → always P (bind p f).
Proof.
  intros Hp Hf W h w. rewrite run_bind.
  specialize (Hp W h w).
  destruct (run h p w) as [[[a|e] w1] t1]; [|done].
  specialize (Hf a W h w1).
  destruct (run h (f a) w1) as [[o w2] t2].
  cbn [snd] in *. by apply Forall_app.
Qed.
Lemma always_bind_with {A B} (Q : A → Prop) (p : prog Ev A)
    (f : A → prog Ev B) :
  always P p →
  (∀ W (h : handler Ev W) w a w' t, run h p w = (Resolved a, w', t) → Q a) →
  (∀ a, Q a → always P (f a)) → always P (bind p f).
Proof.
  intros Hp HQ Hf W h w. rewrite run_bind.
  specialize (Hp W h w). specialize (HQ W h w).
  destruct (run h p w) as [[[a|e] w1] t1]; [|done].
  specialize (Hf a (HQ a w1 t1 eq_refl) W h w1).
  destruct (run h (f a) w1) as [[o w2] t2].
  cbn [snd] in *. by apply Forall_app.
Qed.
End Always.

Lemma run_gather {Ev : Type → Type} {X W : Type} (h : handler Ev W)
    (rs : list (exn + X)) (w : W) :
  ∃ o, run h (gather rs) w = (o, w, []).
Proof.
  induction rs as [|[e|x] rs [o IH]].
  - by eexists.
  - by eexists.
  - cbn [gather]. rewrite run_bind, IH. destruct o; by eexists.
Qed.

Lemma run_all_settled {Ev : Type → Type} {X W : Type} (h : handler Ev W)
    (cs : list (Ev X)) (w : W) :
  ∃ rs w', run h (all_settled cs) w = (Resolved rs, w', map Invoke cs).
Proof.
  revert w. induction cs as [|c cs IH]; intros w.
  - by do 2 eexists.
  - cbn [all_settled run]. destruct (h X c w) as [r w1].
    rewrite run_bind. destruct (IH w1) as (rs & w' & ->).
    cbn [run]. do 2 eexists. by rewrite app_nil_r.
Qed.

(** [Promise.all] makes every invocation, whatever any of them answers. *)
Lemma run_Promise_all {Ev : Type → Type} {X W : Type} (h : handler Ev W)
    (cs : list (Ev X)) (w : W) :
  ∃ o w', run h (Promise_all cs) w = (o, w', map Invoke cs).
Proof.
  unfold Promise_all. rewrite run_bind.
  destruct (run_all_settled h cs w) as (rs & w' & ->).
  destruct (run_gather h rs w') as [o ->].
  destruct o; do 2 eexists; by rewrite ?app_nil_r.
Qed.

Lemma run_addAccounts {W : Type} (h : handler call W)
    (results : list (option Account.t)) (accounts : Accounts) (w : W) :
  ∃ o, run h (reduce addAccount results accounts) w = (o, w, []).
Proof.
  revert accounts. induction results as [|[a|] results IH]; intros accounts.
  - by eexists.
  - cbn [reduce addAccount bind]. apply IH.
  - by eexists.
Qed.

Lemma run_resolveAccountRefs_trace {W : Type} (h : handler call W) (w : W) :
  ∃ o w', run h resolveAccountRefs w = (o, w', account_lookups).
Proof.
  unfold resolveAccountRefs. rewrite run_bind.
  destruct (run_Promise_all h
              [ findAccountByName "Sales of Product Income";
                findAccountByName "Cost of Goods Sold";
                findAccountByName "Inventory Asset" ] w) as (o & w' & ->).
  destruct o as [results|e]; [|by do 2 eexists].
  destruct (run_addAccounts h results no_accounts w') as [o ->].
  do 2 eexists. by rewrite app_nil_r.
Qed.

(** *** What is invoked *)

Lemma always_account_lookups (P : invocation call → Prop) :
  Forall P account_lookups → always P resolveAccountRefs.
Proof.
  intros HP W h w.
  by destruct (run_resolveAccountRefs_trace h w) as (o & w' & ->).
Qed.

Lemma always_resolveAccountRefs (product : Product.t) :
  always (allowed product) resolveAccountRefs.
Proof.
  apply always_account_lookups.
  repeat (apply Forall_cons; split); [cbn; auto..|constructor].
Qed.

Lemma latestProduct_carries (product : Product.t) (c : option Category.t)
    (i : Item) :
  (truthy (Product.category product) = true ↔ is_Some c) →
  Active i = val true →
  Name i = Name (latestProduct product c) →
  Sku i = Sku (latestProduct product c) →
  Description i = Description (latestProduct product c) →
  PurchaseDesc i = PurchaseDesc (latestProduct product c) →
  UnitPrice i = UnitPrice (latestProduct product c) →
  PurchaseCost i = PurchaseCost (latestProduct product c) →
  Taxable i = Taxable (latestProduct product c) →
  SubItem i = SubItem (latestProduct product c) →
  ParentRef i = ParentRef (latestProduct product c) →
  carries product i.
Proof.
  intros Hc HA HN HS HD HP HU HC HT HSub HPar.
  unfold carries. repeat (split; [done|]).
  rewrite HSub, HPar. cbn [latestProduct SubItem ParentRef].
  destruct (truthy (Product.category product)).
  - destruct c as [c|]; [by eauto|]. destruct Hc as [Hc _].
    by destruct (Hc eq_refl).
  - destruct c as [c|]; [|done]. destruct Hc as [_ Hc].
    by specialize (Hc (mk_is_Some _ _ eq_refl)).
Qed.


Lemma always_afterNameLookup (product : Product.t) (c : option Category.t)
    (same : option Item) :
  (truthy (Product.category product) = true ↔ is_Some c) →
  always (allowed product) (afterNameLookup same (latestProduct product c)).
Proof.
  intros Hc. unfold afterNameLookup.
  apply always_bind; [|intros guarded; apply always_bind].
  - destruct same as [s|]; [|apply always_Ret]. cbn [nameGuard].
    destruct (Sku s == Sku (latestProduct product c)) eqn:Hsku;
      [apply always_Ret|].
    apply always_bind; [|intros; apply always_Ret].
    apply always_invoke. cbn. split; [done|]. right. by repeat split.
  - destruct guarded; [apply always_Ret|]. by apply always_invoke.
  - intros [e|]; cbn [reconcile].
    + destruct (_ || _); [|apply always_Ret].
      apply always_bind; [|intros; apply always_Ret].
      apply always_invoke. cbn. split; [done|]. left.
      by apply (latestProduct_carries product c).
    + apply always_bind; [apply always_resolveAccountRefs|]. intros accounts.
      apply always_bind; [by apply always_invoke|]. intros date.
      apply always_bind; [|intros; apply always_Ret].
      apply always_invoke. cbn. repeat split.
      by apply (latestProduct_carries product c).
Qed.

Lemma latestCategory_resolved {W : Type} (h : handler call W)
    (product : Product.t) (w w' : W) (c : option Category.t)
    (t : list (invocation call)) :
  run h (latestCategory product) w = (Resolved c, w', t) →
  truthy (Product.category product) = true ↔ is_Some c.
Proof.
  unfold latestCategory, findOrCreateCategoryByName.
  destruct (truthy (Product.category product)).
  - rewrite !run_bind, run_invoke.
    destruct (h _ (findCategoryByName _) w) as [[e|[found|]] w1]; cbn [run].
    + done.
    + intros [= <- _ _]. split; [by eexists|done].
    + rewrite run_invoke.
      destruct (h _ (createCategory _) w1) as [[e|created] w2]; [done|].
      intros [= <- _ _]. split; [by eexists|done].
  - intros [= <- _ _]. split; [done|]. by intros [? [=]].
Qed.

Lemma always_syncProduct (product : Product.t) :
  always (allowed product) (syncProduct product).
Proof.
  unfold syncProduct.
  apply (always_bind_with _
           (fun c => truthy (Product.category product) = true ↔ is_Some c)).
  - unfold latestCategory.
    destruct (truthy (Product.category product)) eqn:Hcat;
      [|apply always_Ret].
    apply always_bind; [|intros; apply always_Ret].
    unfold findOrCreateCategoryByName. apply always_bind.
    + by apply always_invoke.
    + intros [c|]; [apply always_Ret|by apply always_invoke].
  - intros W h w c w' t. apply latestCategory_resolved.
  - intros c Hc.
    apply always_bind; [by apply always_invoke|]. intros same.
    by apply always_afterNameLookup.
Qed.

Lemma didChangeProductContent_differs (existing target : Item) :
  didChangeProductContent existing target = true
  ↔ content_differs existing target.
Proof.
  unfold didChangeProductContent, content_differs, same_parent, parent_value.
  destruct (ParentRef existing) as [| |e], (ParentRef target) as [| |l];
    cbn;
    destruct (Name existing == Name target),
             (Sku existing == Sku target),
             (Description existing == Description target),
             (UnitPrice existing == UnitPrice target),
             (PurchaseCost existing == PurchaseCost target);
    try destruct (value e == value l); cbn; intuition congruence.
Qed.

Lemma updated_applies_target (existing target : Item) :
  applies_target (updated existing target) existing target.
Proof. repeat split. Qed.

Lemma inactivated_keeps (stale : Item) :
  keeps_but_name_and_active (inactivated stale) stale.
Proof. repeat split. Qed.

Section Reconcile.
Context {W : Type} (h : handler call W).

Lemma run_reconcile_existing (existing latest : Item) (w : W) :
  run h (reconcile (Some existing) latest) w =
  if didChangeProductContent existing latest
     || negb (truthy (Active existing))
  then
    let '(r, w1) := h _ (updateProduct (updated existing latest) false) w in
    (match r with inl e => Threw e | inr _ => Resolved tt end, w1,
     [Invoke (updateProduct (updated existing latest) false)])
  else (Resolved tt, w, []).
Proof.
  cbn [reconcile].
  destruct (didChangeProductContent existing latest
            || negb (truthy (Active existing))); [|reflexivity].
  rewrite run_bind, run_invoke.
  by destruct (h _ (updateProduct _ _) w) as [[e|r] w1].
Qed.

(** How [existing_product] comes to be settled on a record: by the name
    lookup, under the same SKU, or else by the SKU lookup, after a name
    lookup that found nothing or a record of another SKU, inactivated. *)
Lemma resolveExisting_existing (product : Product.t) (w w1 : W)
    (latest existing : Item) (t1 : list (invocation call)) :
  run h (resolveExisting product) w
  = (Resolved (latest, Some existing), w1, t1) →
  ∃ c w0 t0,
    run h (latestCategory product) w = (Resolved c, w0, t0)
    ∧ latest = latestProduct product c
    ∧ ((h _ (findProductByName (Name latest)) w0 = (inr (Some existing), w1)
        ∧ (Sku existing == Sku latest) = true)
       ∨ ∃ same w2 w3,
           h _ (findProductByName (Name latest)) w0 = (inr same, w2)
           ∧ match same with
             | None => w3 = w2
             | Some s =>
                 (Sku s == Sku latest) = false
                 ∧ ∃ r, h _ (updateProduct (inactivated s) false) w2
                        = (inr r, w3)
             end
           ∧ h _ (findProductBySKU (Sku latest)) w3
             = (inr (Some existing), w1)).
Proof.
  unfold resolveExisting. rewrite run_bind.
  destruct (run h (latestCategory product) w) as [[[c|e] w0] t0]; [|done].
  cbn zeta. rewrite run_bind, run_invoke.
  destruct (h _ (findProductByName _) w0) as [[e|same] w2] eqn:Hname; [done|].
  rewrite run_bind.
  intros Hrun. exists c, w0, t0. split; [done|].
  destruct same as [s|]; cbn [nameGuard] in Hrun.
  - destruct (Sku s == Sku (latestProduct product c)) eqn:Hsku.
    + cbn in Hrun. injection Hrun as <- <- <- <-. split; [done|]. by left.
    + rewrite run_bind, run_invoke in Hrun.
      destruct (h _ (updateProduct _ _) w2) as [[e|r] w3] eqn:Hupd; [done|].
      cbn [run] in Hrun. rewrite run_bind in Hrun. cbn [orBySKU] in Hrun.
      rewrite run_invoke in Hrun.
      destruct (h _ (findProductBySKU _) w3) as [[e|found] w4] eqn:Hfind;
        [done|].
      cbn in Hrun. injection Hrun as <- <- <- <-. split; [done|].
      right. exists (Some s), w2, w3. split; [done|]. split; [|done].
      split; [done|]. by exists r.
  - cbn [run] in Hrun. rewrite run_bind in Hrun. cbn [orBySKU] in Hrun.
    rewrite run_invoke in Hrun.
    destruct (h _ (findProductBySKU _) w2) as [[e|found] w4] eqn:Hfind;
      [done|].
    cbn in Hrun. injection Hrun as <- <- <- <-. split; [done|].
    right. exists None, w2, w2. by split.
Qed.

(** C1. When syncProduct has resolved an existing item, by the name
    lookup under the same SKU or else by the SKU lookup, it then sends one
    update exactly when the existing and the target record differ in the
    parent reference value, the name, the SKU, the description, the unit
    price or the purchase cost, or the existing record is inactive; the
    update carries the target's properties with Active true; otherwise it
    sends nothing more; either way the run ends there and createProduct
    is never invoked.  Values are compared with the language's [==]; two
    records differ in the parent reference when only one of them has one
    or both have one and the values differ. *)
Theorem syncProduct_existing (product : Product.t) (w w1 : W)
    (latest existing : Item) (t1 : list (invocation call)) :
  run h (resolveExisting product) w
  = (Resolved (latest, Some existing), w1, t1) →
  (didChangeProductContent existing latest = true
   ↔ content_differs existing latest)
  ∧ (content_differs existing latest ∨ inactive existing →
     run h (syncProduct product) w =
     let '(r, w2) := h _ (updateProduct (updated existing latest) false) w1 in
     (match r with inl e => Threw e | inr _ => Resolved tt end, w2,
      t1 ++ [Invoke (updateProduct (updated existing latest) false)]))
  ∧ (¬ (content_differs existing latest ∨ inactive existing) →
     run h (syncProduct product) w = (Resolved tt, w1, t1))
  ∧ applies_target (updated existing latest) existing latest
  ∧ List.filter is_createProduct (run h (syncProduct product) w).2 = [].
Proof.
  intros Hres.
  pose proof (resolveExisting_no_create h product w) as Hpre.
  rewrite Hres in Hpre. cbn [snd] in Hpre.
  pose proof (didChangeProductContent_differs existing latest) as Hiff.
  assert (didChangeProductContent existing latest
          || negb (truthy (Active existing)) = true
          ↔ content_differs existing latest ∨ inactive existing) as Hcond.
  { unfold inactive. rewrite orb_true_iff, negb_true_iff. tauto. }
  rewrite run_syncProduct_resolved, Hres, run_reconcile_existing.
  split; [exact Hiff|].
  destruct (didChangeProductContent existing latest
            || negb (truthy (Active existing))) eqn:Hb.
  - destruct (h _ (updateProduct _ _) w1) as [r w2] eqn:Hh.
    split; [reflexivity|]. split; [intros Hn; destruct Hn; by apply Hcond|].
    split; [apply updated_applies_target|].
    cbn [snd]. rewrite List.filter_app, Hpre. reflexivity.
  - split; [intros Hy; apply Hcond in Hy; discriminate|].
    split; [intros _; by rewrite app_nil_r|].
    split; [apply updated_applies_target|].
    cbn [snd]. by rewrite app_nil_r.
Qed.

(** The run through the collision branch. *)
Lemma run_syncProduct_collision (product : Product.t) (w w1 w2 : W)
    (latest_category : option Category.t) (t1 : list (invocation call))
    (same : Item) :
  run h (latestCategory product) w = (Resolved latest_category, w1, t1) →
  h _ (findProductByName (Product.name product)) w1 = (inr (Some same), w2) →
  (Sku same == Product.sku product) = false →
  run h (syncProduct product) w =
  match h _ (updateProduct (inactivated same) false) w2 with
  | (inl e, w3) =>
      (Threw e, w3,
       t1 ++ [ Invoke (findProductByName (Product.name product));
               Invoke (updateProduct (inactivated same) false) ])
  | (inr _, w3) =>
      let '(o, w4, t) :=
        run h (afterNameLookup None (latestProduct product latest_category))
          w3 in
      (o, w4,
       t1 ++ Invoke (findProductByName (Product.name product))
          :: Invoke (updateProduct (inactivated same) false) :: t)
  end.
Proof.
  intros Hcat Hname Hsku.
  rewrite run_syncProduct, Hcat. cbn zeta.
  change (Name (latestProduct product latest_category))
    with (Product.name product).
  rewrite Hname, run_afterNameLookup_collision by exact Hsku.
  destruct (h _ (updateProduct _ _) w2) as [[e|r] w3]; [reflexivity|].
  by destruct (run h (afterNameLookup None _) w3) as [[o w4] t].
Qed.



(** C10. The write sent in the name-collision path carries the stale
    record with its Name replaced by an underscore and its own SKU and
    its Active set to false, and every other property as the lookup
    returned it. *)
Theorem inactivation_keeps_stale_record (product : Product.t) (w w1 w2 : W)
    (latest_category : option Category.t) (t1 : list (invocation call))
    (same : Item) :
  run h (latestCategory product) w = (Resolved latest_category, w1, t1) →
  h _ (findProductByName (Product.name product)) w1 = (inr (Some same), w2) →
  (Sku same == Product.sku product) = false →
  (∃ u, nth_error (run h (syncProduct product) w).2 (S (length t1))
        = Some (Invoke (updateProduct u false))
        ∧ keeps_but_name_and_active u same
        ∧ Name u = val ("_" +:+ display (Sku same))
        ∧ Active u = val false).
Proof.
  intros Hcat Hname Hsku. exists (inactivated same).
  split; [|split; [apply inactivated_keeps|split; reflexivity]].
  rewrite (run_syncProduct_collision _ _ _ _ _ _ _ Hcat Hname Hsku).
  destruct (h _ (updateProduct _ _) w2) as [[e|r] w3].
  - cbn [snd]. rewrite nth_error_app2 by lia.
    by replace (S (length t1) - length t1) with 1 by lia.
  - destruct (run h (afterNameLookup None _) w3) as [[o w4] t].
    cbn [snd]. rewrite nth_error_app2 by lia.
    by replace (S (length t1) - length t1) with 1 by lia.
Qed.
End Reconcile.

(** Acme Salsa is filed under SKU NEW1 at another unit price: found by
    name, it is updated once and nothing is created. *)
Lemma syncProduct_existing_filed :
  run store (resolveExisting new_salsa) filed_store
  = (Resolved (latestProduct new_salsa None, Some filed_salsa), filed_store,
     [ Invoke (findProductByName (val "Acme Salsa")) ])
  ∧ run store (syncProduct new_salsa) filed_store
    = (Resolved tt,
       store_of [ updated filed_salsa (latestProduct new_salsa None) ] ledger,
       [ Invoke (findProductByName (val "Acme Salsa"));
         Invoke (updateProduct
                   (updated filed_salsa (latestProduct new_salsa None)) false) ]).
Proof.
  assert (run store (resolveExisting new_salsa) filed_store
          = (Resolved (latestProduct new_salsa None, Some filed_salsa),
             filed_store,
             [ Invoke (findProductByName (val "Acme Salsa")) ])) as Hres
    by reflexivity.
  split; [exact Hres|].
  destruct (syncProduct_existing store _ _ _ _ _ _ Hres) as (_ & Hupd & _).
  rewrite Hupd; [reflexivity|].
  left. do 4 right. left. reflexivity.
Defined.


(** In that example the second invocation of the run is the inactivation
    of the old item, all else of it kept. *)
Lemma inactivation_keeps_old_salsa :
  run store (latestCategory new_salsa) salsa_store
  = (Resolved None, salsa_store, [])
  ∧ store _ (findProductByName (Product.name new_salsa)) salsa_store
    = (inr (Some old_salsa), salsa_store)
  ∧ (Sku old_salsa == Product.sku new_salsa) = false
  ∧ ∃ u, nth_error (run store (syncProduct new_salsa) salsa_store).2 1
         = Some (Invoke (updateProduct u false))
       ∧ keeps_but_name_and_active u old_salsa
       ∧ Name u = val ("_" +:+ display (Sku old_salsa))
       ∧ Active u = val false.
Proof.
  assert (run store (latestCategory new_salsa) salsa_store
          = (Resolved None, salsa_store, [])) as Hcat by reflexivity.
  assert (store _ (findProductByName (Product.name new_salsa)) salsa_store
          = (inr (Some old_salsa), salsa_store)) as Hname by reflexivity.
  assert ((Sku old_salsa == Product.sku new_salsa) = false) as Hsku
    by reflexivity.
  repeat split; try assumption.
  exact (inactivation_keeps_stale_record store _ _ _ _ _ _ _ Hcat Hname Hsku).
Defined.

(** A [null] answer to any of the three account lookups makes the
    [reduce] of resolveAccountRefs throw. *)
Lemma resolveAccountRefs_null {W : Type} (h : handler call W) (w w1 w2 w3 : W)
    (r1 r2 r3 : option Account.t) :
  h _ (findAccountByName "Sales of Product Income") w = (inr r1, w1) →
  h _ (findAccountByName "Cost of Goods Sold") w1 = (inr r2, w2) →
  h _ (findAccountByName "Inventory Asset") w2 = (inr r3, w3) →
  r1 = None ∨ r2 = None ∨ r3 = None →
  run h resolveAccountRefs w
  = (Threw TypeError, w3,
     [ Invoke (findAccountByName "Sales of Product Income");
       Invoke (findAccountByName "Cost of Goods Sold");
       Invoke (findAccountByName "Inventory Asset") ]).
Proof.
  intros H1 H2 H3 Hnull. unfold resolveAccountRefs, Promise_all.
  rewrite !run_bind. cbn [all_settled run]. rewrite H1.
  rewrite !run_bind. cbn [all_settled run]. rewrite H2.
  rewrite !run_bind. cbn [all_settled run]. rewrite H3.
  cbn [bind run gather app].
  destruct r1 as [a1|]; [|reflexivity].
  destruct r2 as [a2|]; [|reflexivity].
  destruct r3 as [a3|]; [|reflexivity].
  destruct Hnull as [H|[H|H]]; discriminate.
Qed.

Lemma reconcile_null_account {W : Type} (h : handler call W) (w w1 w2 w3 : W)
    (r1 r2 r3 : option Account.t) (latest : Item) :
  h _ (findAccountByName "Sales of Product Income") w = (inr r1, w1) →
  h _ (findAccountByName "Cost of Goods Sold") w1 = (inr r2, w2) →
  h _ (findAccountByName "Inventory Asset") w2 = (inr r3, w3) →
  r1 = None ∨ r2 = None ∨ r3 = None →
  run h (reconcile None latest) w
  = (Threw TypeError, w3,
     [ Invoke (findAccountByName "Sales of Product Income");
       Invoke (findAccountByName "Cost of Goods Sold");
       Invoke (findAccountByName "Inventory Asset") ]).
Proof.
  intros H1 H2 H3 Hnull. cbn [reconcile]. rewrite run_bind.
  by rewrite (resolveAccountRefs_null h _ _ _ _ _ _ _ H1 H2 H3 Hnull).
Qed.

(** C6. With no Cost of Goods Sold account in the ledger, the create path
    of syncProduct does not attach an incomplete set of references: the
    method fails with a TypeError after the three account lookups,
    createProduct is not invoked and the store is left as it was. *)
Theorem syncProduct_missing_account :
  store _ (findAccountByName "Cost of Goods Sold") short_store
  = (inr None, short_store)
  ∧ run store (syncProduct new_salsa) short_store
    = (Threw TypeError, short_store,
       [ Invoke (findProductByName (val "Acme Salsa"));
         Invoke (findProductBySKU (val "NEW1"));
         Invoke (findAccountByName "Sales of Product Income");
         Invoke (findAccountByName "Cost of Goods Sold");
         Invoke (findAccountByName "Inventory Asset") ]).
Proof. split; reflexivity. Qed.

(** ** Running syncProduct twice *)


Lemma strict_eq_true (x y : js string) : strict_eq x y = true ↔ x = y.
Proof.
  destruct x as [| |a], y as [| |b]; cbn; try (split; congruence).
  rewrite String.eqb_eq. split; congruence.
Qed.

Lemma strict_eq_refl (x : js string) : strict_eq x x = true.
Proof. by apply strict_eq_true. Qed.

Lemma loose_eq_refl (x : js string) : (x == x) = true.
Proof. destruct x; try reflexivity. apply String.eqb_refl. Qed.

Lemma find_first {A} (f : A → bool) (l : list A) (x : A) :
  In x l → f x = true → ∃ y, List.find f l = Some y.
Proof.
  intros Hin Hf. destruct (List.find f l) as [y|] eqn:E; [by exists y|].
  pose proof (List.find_none f l E x Hin). congruence.
Qed.

Lemma In_replace (p y : Item) (l : list Item) :
  In y (replace p l) →
  y = p ∨ (In y l ∧ strict_eq (Id y) (Id p) = false).
Proof.
  unfold replace. rewrite in_map_iff. intros (x & Hx & Hin).
  destruct (strict_eq (Id x) (Id p)) eqn:E; [by left|].
  right. by subst y.
Qed.

Lemma replace_In (p x : Item) (l : list Item) :
  In x l → Id x = Id p → In p (replace p l).
Proof.
  intros Hin Hid. unfold replace. apply in_map_iff. exists x.
  split; [|done]. by rewrite Hid, strict_eq_refl.
Qed.

Lemma existsb_Id (p x : Item) (l : list Item) :
  In x l → Id x = Id p →
  existsb (fun i => strict_eq (Id i) (Id p)) l = true.
Proof.
  intros Hin Hid. apply existsb_exists. exists x. split; [done|].
  by rewrite Hid, strict_eq_refl.
Qed.

(** *** The store's answers *)

Lemma store_findProductByName (n : js string) (s : Store) :
  store _ (findProductByName n) s
  = (inr (List.find (fun i => strict_eq (Name i) n) (items s)), s).
Proof. reflexivity. Qed.

Lemma store_findProductBySKU (k : js string) (s : Store) :
  store _ (findProductBySKU k) s
  = (inr (List.find (fun i => strict_eq (Sku i) k) (items s)), s).
Proof. reflexivity. Qed.

Lemma store_updateProduct (p x : Item) (b : bool) (s : Store) :
  In x (items s) → Id x = Id p →
  store _ (updateProduct p b) s = (inr p, with_items s (replace p (items s))).
Proof.
  intros Hin Hid. cbn. by rewrite (existsb_Id p x (items s) Hin Hid).
Qed.

Lemma store_resolveAccountRefs (s : Store) :
  ∃ o, ∀ s', accounts s' = accounts s →
    run store resolveAccountRefs s' = (o, s', account_lookups).
Proof.
  exists (run store resolveAccountRefs s).1.1. intros s' Hacc.
  unfold resolveAccountRefs, Promise_all. rewrite !run_bind.
  cbn [all_settled run store bind]. rewrite <- Hacc.
  destruct (List.find _ (accounts s')) as [a1|];
    destruct (List.find _ (accounts s')) as [a2|];
    destruct (List.find _ (accounts s')) as [a3|]; reflexivity.
Qed.

Lemma store_reconcile_None (latest : Item) (s : Store) :
  (∃ e, ∀ s', accounts s' = accounts s →
     run store (reconcile None latest) s' = (Threw e, s', account_lookups))
  ∨ (∃ acc,
       run store (reconcile None latest) s
       = (Resolved tt, with_created s (created latest acc (clock s)),
          account_lookups
          ++ [ Invoke today;
               Invoke (createProduct (created latest acc (clock s))) ])).
Proof.
  destruct (store_resolveAccountRefs s) as [[acc|e] Ho].
  - right. exists acc. cbn [reconcile]. rewrite run_bind, (Ho s eq_refl).
    reflexivity.
  - left. exists e. intros s' Hacc. cbn [reconcile].
    by rewrite run_bind, (Ho s' Hacc).
Qed.

(** *** Records a run leaves alone *)

Section Settled.
Variable latest : Item.
Hypothesis Hprice : (UnitPrice latest == UnitPrice latest) = true.
Hypothesis Hcost : (PurchaseCost latest == PurchaseCost latest) = true.

Lemma settled_updated (existing : Item) :
  settled latest (updated existing latest).
Proof.
  unfold settled, didChangeProductContent. cbn.
  rewrite !loose_eq_refl, Hprice, Hcost.
  destruct (ParentRef latest) as [| |r]; cbn; rewrite ?loose_eq_refl; done.
Qed.

Lemma settled_created (acc : Accounts) (date : string) (id : js string) :
  settled latest (with_id (created latest acc date) id).
Proof.
  unfold settled, didChangeProductContent. cbn.
  rewrite !loose_eq_refl, Hprice, Hcost.
  destruct (ParentRef latest) as [| |r]; cbn; rewrite ?loose_eq_refl; done.
Qed.
End Settled.

Lemma itemStage_settled (s : Store) (latest x : Item) :
  List.find (fun i => strict_eq (Name i) (Name latest)) (items s) = Some x →
  settled latest x →
  run store (itemStage latest) s
  = (Resolved tt, s, [ Invoke (findProductByName (Name latest)) ]).
Proof.
  intros Hfind (Hsku & Hsame & Hactive). unfold itemStage.
  rewrite run_bind, run_invoke, store_findProductByName, Hfind.
  rewrite run_afterNameLookup. cbn [nameGuard]. rewrite Hsku.
  cbn [run orBySKU]. rewrite run_reconcile_existing, Hsame, Hactive.
  reflexivity.
Qed.

(** The name lookup finds nothing, the SKU lookup a record to leave alone. *)
Lemma itemStage_by_sku_settled (s : Store) (latest x : Item) :
  List.find (fun i => strict_eq (Name i) (Name latest)) (items s) = None →
  List.find (fun i => strict_eq (Sku i) (Sku latest)) (items s) = Some x →
  didChangeProductContent x latest || negb (truthy (Active x)) = false →
  run store (itemStage latest) s
  = (Resolved tt, s,
     [ Invoke (findProductByName (Name latest));
       Invoke (findProductBySKU (Sku latest)) ]).
Proof.
  intros Hname Hsku Hcond. unfold itemStage.
  rewrite run_bind, run_invoke, store_findProductByName, Hname.
  rewrite run_afterNameLookup. cbn [nameGuard run orBySKU].
  rewrite run_invoke, store_findProductBySKU, Hsku.
  rewrite run_reconcile_existing, Hcond. reflexivity.
Qed.

(** Neither lookup finds a record and an account is missing. *)
Lemma itemStage_no_account (s : Store) (latest : Item) (e : exn) :
  List.find (fun i => strict_eq (Name i) (Name latest)) (items s) = None →
  List.find (fun i => strict_eq (Sku i) (Sku latest)) (items s) = None →
  run store (reconcile None latest) s = (Threw e, s, account_lookups) →
  run store (itemStage latest) s
  = (Threw e, s,
     Invoke (findProductByName (Name latest))
     :: Invoke (findProductBySKU (Sku latest)) :: account_lookups).
Proof.
  intros Hname Hsku Hacc. unfold itemStage.
  rewrite run_bind, run_invoke, store_findProductByName, Hname.
  rewrite run_afterNameLookup. cbn [nameGuard run orBySKU].
  rewrite run_invoke, store_findProductBySKU, Hsku, Hacc. reflexivity.
Qed.

(** *** The second run *)

Lemma writes_nil_lookup (n : js string) :
  writes [ Invoke (findProductByName n) ] = [].
Proof. reflexivity. Qed.

Section Twice.
Variable latest : Item.
Hypothesis Hprice : (UnitPrice latest == UnitPrice latest) = true.
Hypothesis Hcost : (PurchaseCost latest == PurchaseCost latest) = true.

(** After an update that files a record under the target's name in a
    store where no other record has that name, the second run finds that
    record and leaves it alone. *)
Lemma second_run_after_update (st : Store) (b u : Item) :
  In b (items st) → Id b = Id u → Name u = Name latest →
  settled latest u →
  (∀ x, In x (items st) → Name x = Name latest → Id x = Id u) →
  writes (run store (itemStage latest)
            (with_items st (replace u (items st)))).2 = [].
Proof.
  intros Hin Hid Hname Hset Hothers.
  destruct (find_first (fun i => strict_eq (Name i) (Name latest))
              (replace u (items st)) u) as [x Hx].
  { by apply (replace_In u b). }
  { by rewrite Hname, strict_eq_refl. }
  assert (x = u) as ->.
  { apply List.find_some in Hx as [Hx Hn]. apply strict_eq_true in Hn.
    apply In_replace in Hx as [->|[Hx Hne]]; [done|].
    rewrite (Hothers x Hx Hn), strict_eq_refl in Hne. discriminate. }
  by rewrite (itemStage_settled (with_items st (replace u (items st)))
               latest u Hx Hset).
Qed.

Lemma second_run_after_create (st : Store) (acc : Accounts) :
  List.find (fun i => strict_eq (Name i) (Name latest)) (items st) = None →
  writes (run store (itemStage latest)
            (with_created st (created latest acc (clock st)))).2 = [].
Proof.
  intros Hnone.
  set (p := with_id (created latest acc (clock st)) (val (pretty (next_id st)))).
  destruct (find_first (fun i => strict_eq (Name i) (Name latest))
              (items st ++ [p]) p) as [x Hx].
  { apply in_or_app. right. by left. }
  { apply strict_eq_refl. }
  assert (x = p) as ->.
  { apply List.find_some in Hx as [Hx Hn].
    apply in_app_or in Hx as [Hx|[<-|[]]]; [|done].
    rewrite (List.find_none _ _ Hnone x Hx) in Hn. discriminate. }
  rewrite (itemStage_settled (with_created st _) latest p Hx).
  - reflexivity.
  - by apply settled_created.
Qed.

(** The method from the SKU lookup on, in a store where no record has
    the target's name: whatever it does, a second run writes nothing. *)
Lemma afterNameLookup_None_twice (st : Store) :
  List.find (fun i => strict_eq (Name i) (Name latest)) (items st) = None →
  ∃ o s1 t,
    run store (afterNameLookup None latest) st = (o, s1, t)
    ∧ categories s1 = categories st
    ∧ writes (run store (itemStage latest) s1).2 = [].
Proof.
  intros Hnone. rewrite run_afterNameLookup. cbn [nameGuard run orBySKU].
  rewrite run_invoke, store_findProductBySKU.
  destruct (List.find (fun i => strict_eq (Sku i) (Sku latest)) (items st))
    as [b|] eqn:Hsku.
  - rewrite run_reconcile_existing.
    destruct (didChangeProductContent b latest || negb (truthy (Active b)))
      eqn:Hcond.
    + pose proof (List.find_some _ _ Hsku) as [Hb _].
      rewrite (store_updateProduct (updated b latest) b false st Hb eq_refl).
      do 3 eexists. split; [reflexivity|]. split; [reflexivity|].
      apply (second_run_after_update st b); try done.
      * by apply settled_updated.
      * intros x Hx Hn. apply strict_eq_true in Hn.
        rewrite (List.find_none _ _ Hnone x Hx) in Hn. discriminate.
    + do 3 eexists. split; [reflexivity|]. split; [reflexivity|].
      by rewrite (itemStage_by_sku_settled st latest b Hnone Hsku Hcond).
  - destruct (store_reconcile_None latest st) as [[e He]|[acc Hacc]].
    + rewrite (He st eq_refl).
      do 3 eexists. split; [reflexivity|]. split; [reflexivity|].
      by rewrite (itemStage_no_account st latest e Hnone Hsku (He st eq_refl)).
    + rewrite Hacc.
      do 3 eexists. split; [reflexivity|]. split; [reflexivity|].
      by apply second_run_after_create.
Qed.

Lemma itemStage_twice (s : Store) :
  (∀ x y, In x (items s) → In y (items s) →
          Name x = Name latest → Name y = Name latest → Id x = Id y) →
  (∀ a, List.find (fun i => strict_eq (Name i) (Name latest)) (items s)
        = Some a →
        (Sku a == Sku latest) = false →
        Name latest ≠ val ("_" +:+ display (Sku a))) →
  ∃ o s1 t,
    run store (itemStage latest) s = (o, s1, t)
    ∧ categories s1 = categories s
    ∧ writes (run store (itemStage latest) s1).2 = [].
Proof.
  intros Hone Hreserved. unfold itemStage at 1.
  rewrite run_bind, run_invoke, store_findProductByName.
  destruct (List.find (fun i => strict_eq (Name i) (Name latest)) (items s))
    as [a|] eqn:Hname.
  - pose proof (List.find_some _ _ Hname) as [Ha Hna].
    apply strict_eq_true in Hna.
    destruct (Sku a == Sku latest) eqn:Hsku.
    + rewrite run_afterNameLookup. cbn [nameGuard]. rewrite Hsku.
      cbn [run orBySKU]. rewrite run_reconcile_existing.
      destruct (didChangeProductContent a latest || negb (truthy (Active a)))
        eqn:Hcond.
      * rewrite (store_updateProduct (updated a latest) a false s Ha eq_refl).
        do 3 eexists. split; [reflexivity|]. split; [reflexivity|].
        apply (second_run_after_update s a); try done.
        -- by apply settled_updated.
        -- intros x Hx Hn. exact (Hone x a Hx Ha Hn Hna).
      * do 3 eexists. split; [reflexivity|]. split; [reflexivity|].
        rewrite (itemStage_settled s latest a Hname); [reflexivity|].
        apply orb_false_elim in Hcond as [Hsame Hact].
        apply negb_false_iff in Hact. done.
    + rewrite (run_afterNameLookup_collision store a latest s Hsku).
      rewrite (store_updateProduct (inactivated a) a false s Ha eq_refl).
      destruct (afterNameLookup_None_twice
                  (with_items s (replace (inactivated a) (items s))))
        as (o & s1 & t & Hrun & Hcat & Hsecond).
      { cbn [items with_items].
        destruct (List.find (fun i => strict_eq (Name i) (Name latest))
                    (replace (inactivated a) (items s)))
          as [x|] eqn:Hx; [|reflexivity].
        exfalso. apply List.find_some in Hx as [Hx Hn].
        apply strict_eq_true in Hn.
        apply In_replace in Hx as [->|[Hx Hne]].
        - exact (Hreserved a eq_refl Hsku (eq_sym Hn)).
        - rewrite (Hone x a Hx Ha Hn Hna) in Hne.
          cbn in Hne. rewrite strict_eq_refl in Hne. discriminate. }
      rewrite Hrun. do 3 eexists. split; [reflexivity|]. by split.
  - destruct (afterNameLookup_None_twice s Hname)
      as (o & s1 & t & Hrun & Hcat & Hsecond).
    rewrite Hrun. do 3 eexists. split; [reflexivity|]. by split.
Qed.
End Twice.

Lemma find_app {A} (f : A → bool) (l l' : list A) :
  List.find f (l ++ l')
  = match List.find f l with Some x => Some x | None => List.find f l' end.
Proof.
  induction l as [|x l IH]; [reflexivity|]. cbn. by destruct (f x).
Qed.

Lemma store_latestCategory (product : Product.t) (s : Store) :
  ∃ c s1 t,
    run store (latestCategory product) s = (Resolved c, s1, t)
    ∧ items s1 = items s
    ∧ ∀ s', categories s' = categories s1 →
        ∃ t', run store (latestCategory product) s' = (Resolved c, s', t')
              ∧ writes t' = [].
Proof.
  unfold latestCategory, findOrCreateCategoryByName.
  destruct (truthy (Product.category product)).
  - rewrite !run_bind, run_invoke. cbn [store].
    destruct (List.find (fun c => strict_eq (Category.Name c)
                                   (Product.category product))
                (categories s)) as [c|] eqn:Hfind.
    + do 3 eexists. split; [reflexivity|]. split; [reflexivity|].
      intros s' Hcat. rewrite !run_bind, run_invoke. cbn [store].
      rewrite Hcat, Hfind. by eexists.
    + do 3 eexists. split; [reflexivity|]. split; [reflexivity|].
      intros s' Hcat. rewrite !run_bind, run_invoke. cbn [store].
      rewrite Hcat. cbn [categories]. rewrite find_app, Hfind. cbn [List.find].
      cbn [Category.Name]. rewrite strict_eq_refl. by eexists.
  - do 3 eexists. split; [reflexivity|]. split; [reflexivity|].
    intros s' _. by eexists.
Qed.



(** ** More on validation *)

Lemma missing_test (x : js string) :
  negb (truthy x) || (x == val "") = true ↔ missing x.
Proof.
  unfold missing, absent. destruct x as [| |s].
  - cbn. intuition.
  - cbn. intuition.
  - rewrite string_missing, String.eqb_eq.
    split; [intros ->; by right|]. intros [[H|H]|[= ->]]; done.
Qed.

Lemma cost_missing_test (v : Shopify.Variant) :
  Shopify.cost_missing (Shopify.inventory_item v) = true ↔ cost_absent v.
Proof.
  unfold Shopify.cost_missing, cost_absent.
  destruct (Shopify.inventory_item v) as [| |ii]; [done..|].
  destruct (Shopify.unit_cost ii) as [| |uc]; [done..|].
  apply missing_test.
Qed.

(** One result per variant, in order. *)
Lemma validateEach_Forall2 (P : Shopify.Variant → Shopify.ValidationResult → Prop) :
  (∀ seen v, P v (Shopify.validateVariant seen v).2) →
  ∀ variants seen, Forall2 P variants (Shopify.validateEach variants seen).2.
Proof.
  intros HP variants. induction variants as [|v variants IH]; intros seen.
  - constructor.
  - rewrite validateEach_cons. cbn [snd]. constructor; [apply HP | apply IH].
Qed.

(** X1. validateProductVariants returns one result per variant, in the order
    of the batch, each under the id, product id and title of its variant,
    whatever errors it carries. *)
Theorem validateProductVariants_results_in_order
    (variants : list Shopify.Variant) :
  map identity_of_result
    (Shopify.results (Shopify.validateProductVariants variants))
  = map identity_of_variant variants.
Proof.
  unfold Shopify.validateProductVariants. cbn [Shopify.results].
  generalize Shopify.no_seen as seen.
  induction variants as [|v variants IH]; intros seen; [reflexivity|].
  rewrite validateEach_cons. cbn [snd map]. rewrite IH. f_equal.
  by rewrite validateVariant_blocks.
Qed.

(** The batch is ok exactly when no result carries an error. *)
Lemma ok_no_errors (variants : list Shopify.Variant) :
  Shopify.ok (Shopify.validateProductVariants variants) = true
  ↔ Forall (fun r => Shopify.errors r = [])
      (Shopify.results (Shopify.validateProductVariants variants)).
Proof.
  unfold Shopify.validateProductVariants. cbn [Shopify.ok Shopify.results].
  rewrite forallb_forall, Forall_forall. split; intros H r Hr.
  - apply list_elem_of_In in Hr. specialize (H r Hr).
    by destruct (Shopify.errors r).
  - apply list_elem_of_In in Hr. by rewrite (H r Hr).
Qed.

(** X2. Appending variants to a batch leaves the results of the variants
    before them as they were: a result depends on its variant and on the
    variants that precede it only. *)
Theorem validateProductVariants_prefix (l1 l2 : list Shopify.Variant) :
  take (length l1)
    (Shopify.results (Shopify.validateProductVariants (l1 ++ l2)))
  = Shopify.results (Shopify.validateProductVariants l1).
Proof.
  unfold Shopify.validateProductVariants. cbn [Shopify.results].
  rewrite validateEach_app. cbn [snd].
  rewrite take_app_length'; [done|]. symmetry. apply validateEach_length.
Qed.

(** *** The codes of a result, block by block *)

Lemma codes_blocks (seen : Shopify.Seen) (v : Shopify.Variant) :
  codes (Shopify.validateVariant seen v).2
  = map Shopify.code (base_errors v)
    ++ map Shopify.code (Shopify.checkName (Shopify.existing_names seen) v []).2
    ++ map Shopify.code (Shopify.checkSku (Shopify.existing_skus seen) v []).2
    ++ map Shopify.code
         (Shopify.checkBarcode (Shopify.existing_barcodes seen) v []).2.
Proof. unfold codes. by rewrite errors_blocks, !map_app. Qed.

Lemma block_range (lo hi : nat) (es : list Shopify.ValidationError) (c : nat) :
  Forall (fun e => lo ≤ Shopify.code e ≤ hi) es →
  c ∈ map Shopify.code es → lo ≤ c ≤ hi.
Proof.
  intros Hes Hc. apply list_elem_of_In, in_map_iff in Hc as (e & <- & He).
  rewrite Forall_forall in Hes. apply Hes. by apply list_elem_of_In.
Qed.

Lemma base_range (v : Shopify.Variant) (c : nat) :
  c ∈ map Shopify.code (base_errors v) → 100 ≤ c ≤ 101.
Proof.
  unfold base_errors.
  destruct (_ || _), (Shopify.cost_missing _); cbn;
    rewrite ?elem_of_cons, ?elem_of_nil; lia.
Qed.

Lemma name_range (m : gmap string (js string)) (v : Shopify.Variant) (c : nat) :
  c ∈ map Shopify.code (Shopify.checkName m v []).2 → 102 ≤ c ≤ 106.
Proof. apply block_range, checkName_codes. Qed.

Lemma sku_range (m : gmap string (js string)) (v : Shopify.Variant) (c : nat) :
  c ∈ map Shopify.code (Shopify.checkSku m v []).2 → 107 ≤ c ≤ 108.
Proof. apply block_range, checkSku_codes. Qed.

Lemma barcode_range (m : gmap string (js string)) (v : Shopify.Variant) (c : nat) :
  c ∈ map Shopify.code (Shopify.checkBarcode m v []).2 → 109 ≤ c ≤ 110.
Proof. apply block_range, checkBarcode_codes. Qed.

(** A code is in a result exactly when its own block emitted it. *)
Lemma code_in_result (seen : Shopify.Seen) (v : Shopify.Variant) (c : nat) :
  c ∈ codes (Shopify.validateVariant seen v).2
  ↔ (c ≤ 101 ∧ c ∈ map Shopify.code (base_errors v))
    ∨ (102 ≤ c ≤ 106
       ∧ c ∈ map Shopify.code
               (Shopify.checkName (Shopify.existing_names seen) v []).2)
    ∨ (107 ≤ c ≤ 108
       ∧ c ∈ map Shopify.code
               (Shopify.checkSku (Shopify.existing_skus seen) v []).2)
    ∨ (109 ≤ c
       ∧ c ∈ map Shopify.code
               (Shopify.checkBarcode (Shopify.existing_barcodes seen) v []).2).
Proof.
  rewrite codes_blocks, !elem_of_app. split.
  - intros [H|[H|[H|H]]].
    + left. split; [apply base_range in H; lia|done].
    + right. left. split; [by apply name_range in H|done].
    + right. right. left. split; [by apply sku_range in H|done].
    + right. right. right. split; [apply barcode_range in H; lia|done].
  - intros [[_ H]|[[_ H]|[[_ H]|[_ H]]]]; auto.
Qed.

Ltac mem :=
  cbn [fst snd app map Shopify.code];
  rewrite ?elem_of_cons, ?elem_of_nil;
  solve [intuition (try discriminate; try lia)].

Lemma in_base_block (seen : Shopify.Seen) (v : Shopify.Variant) (c : nat) :
  c ≤ 101 →
  c ∈ codes (Shopify.validateVariant seen v).2
  ↔ c ∈ map Shopify.code (base_errors v).
Proof.
  intros Hc. rewrite code_in_result. split; [|auto].
  intros [[? H]|[[? H]|[[? H]|[? H]]]]; (lia || exact H).
Qed.

Lemma in_name_block (seen : Shopify.Seen) (v : Shopify.Variant) (c : nat) :
  102 ≤ c ≤ 106 →
  c ∈ codes (Shopify.validateVariant seen v).2
  ↔ c ∈ map Shopify.code
          (Shopify.checkName (Shopify.existing_names seen) v []).2.
Proof.
  intros Hc. rewrite code_in_result. split; [|auto].
  intros [[? H]|[[? H]|[[? H]|[? H]]]]; (lia || exact H).
Qed.

Lemma in_sku_block (seen : Shopify.Seen) (v : Shopify.Variant) (c : nat) :
  107 ≤ c ≤ 108 →
  c ∈ codes (Shopify.validateVariant seen v).2
  ↔ c ∈ map Shopify.code
          (Shopify.checkSku (Shopify.existing_skus seen) v []).2.
Proof.
  intros Hc. rewrite code_in_result. split; [|auto 6].
  intros [[? H]|[[? H]|[[? H]|[? H]]]]; (lia || exact H).
Qed.

Lemma in_barcode_block (seen : Shopify.Seen) (v : Shopify.Variant) (c : nat) :
  109 ≤ c →
  c ∈ codes (Shopify.validateVariant seen v).2
  ↔ c ∈ map Shopify.code
          (Shopify.checkBarcode (Shopify.existing_barcodes seen) v []).2.
Proof.
  intros Hc. rewrite code_in_result. split; [|auto 6].
  intros [[? H]|[[? H]|[[? H]|[? H]]]]; (lia || exact H).
Qed.

Lemma validateVariant_presence (seen : Shopify.Seen) (v : Shopify.Variant) :
  presence_rules v (Shopify.validateVariant seen v).2.
Proof.
  unfold presence_rules.
  rewrite <- !missing_test, <- cost_missing_test.
  rewrite !in_base_block, !in_name_block, in_sku_block, in_barcode_block by lia.
  repeat split.
  1-4: unfold base_errors;
       destruct (_ || _), (Shopify.cost_missing _); mem.
  1-4: unfold Shopify.checkName;
       destruct (negb (truthy (Shopify.vendor v)) || _),
                (negb (truthy (Shopify.title v)) || _); cbn [orb];
       repeat match goal with
              | |- context [if ?b then _ else _] => destruct b
              end; mem.
  1-2: unfold Shopify.checkSku;
       destruct (negb (truthy (Shopify.sku v)) || _); [mem|];
       destruct (truthy _); mem.
  1-2: unfold Shopify.checkBarcode;
       destruct (negb (truthy (Shopify.barcode v)) || _); [mem|];
       destruct (truthy _); mem.
Qed.

(** X3. In every result of a batch, each presence code stands exactly for
    its own field: 100 for a missing price, 101 for a missing unit-cost
    amount, 102 and 103 for a missing vendor and title, 107 and 109 for a
    missing sku and barcode, whatever the other fields, the other variants
    and the tracking objects hold. *)
Theorem validateProductVariants_presence (variants : list Shopify.Variant) :
  Forall2 presence_rules variants
    (Shopify.results (Shopify.validateProductVariants variants)).
Proof.
  unfold Shopify.validateProductVariants. cbn [Shopify.results].
  apply validateEach_Forall2. intros seen v. apply validateVariant_presence.
Qed.

(** *** Codes in rule order *)

Lemma validateVariant_sorted (seen : Shopify.Seen) (v : Shopify.Variant) :
  StronglySorted lt (codes (Shopify.validateVariant seen v).2)
  ∧ Forall (fun c => 100 ≤ c ≤ 110) (codes (Shopify.validateVariant seen v).2).
Proof.
  split.
  - rewrite codes_blocks.
    repeat apply StronglySorted_app_2.
    + intros x1 x2 H1 H2. apply base_range in H1.
      rewrite !elem_of_app in H2. destruct H2 as [H2|[H2|H2]].
      * apply name_range in H2. lia.
      * apply sku_range in H2. lia.
      * apply barcode_range in H2. lia.
    + unfold base_errors.
      destruct (_ || _), (Shopify.cost_missing _); cbn;
        repeat constructor.
    + intros x1 x2 H1 H2. apply name_range in H1.
      rewrite !elem_of_app in H2. destruct H2 as [H2|H2].
      * apply sku_range in H2. lia.
      * apply barcode_range in H2. lia.
    + unfold Shopify.checkName.
      repeat match goal with
             | |- context [if ?b then _ else _] => destruct b
             end; cbn; repeat constructor.
    + intros x1 x2 H1 H2. apply sku_range in H1. apply barcode_range in H2. lia.
    + unfold Shopify.checkSku.
      repeat match goal with
             | |- context [if ?b then _ else _] => destruct b
             end; cbn; repeat constructor.
    + unfold Shopify.checkBarcode.
      repeat match goal with
             | |- context [if ?b then _ else _] => destruct b
             end; cbn; repeat constructor.
  - apply Forall_forall. intros c Hc. apply code_in_result in Hc.
    destruct Hc as [[? H]|[[? H]|[[? H]|[? H]]]].
    + apply base_range in H. lia.
    + lia.
    + lia.
    + apply barcode_range in H. lia.
Qed.

(** X4. In every result the error codes lie between 100 and 110 and stand
    in strictly increasing order: the errors come in the order of the rules
    and no code comes twice. *)
Theorem validateProductVariants_codes_sorted (variants : list Shopify.Variant) :
  Forall (fun r => StronglySorted lt (codes r)
                   ∧ Forall (fun c => 100 ≤ c ≤ 110) (codes r))
    (Shopify.results (Shopify.validateProductVariants variants)).
Proof.
  unfold Shopify.validateProductVariants. cbn [Shopify.results].
  apply validateEach_Forall. intros seen v. apply validateVariant_sorted.
Qed.

(** *** Where a tracked key comes from *)

Lemma tracked_origin (m : gmap string (js string)) (k k' : string)
    (id i : js string) :
  tracked m k' id !! k = Some i → m !! k = Some i ∨ (k' = k ∧ id = i).
Proof.
  unfold tracked, Shopify.set.
  destruct (truthy (Shopify.get m k')); [auto|].
  destruct (String.eqb k' "__proto__"); [auto|].
  destruct (decide (k' = k)) as [->|Hne].
  - rewrite lookup_insert_eq. intros [= ->]. auto.
  - rewrite lookup_insert_ne by done. auto.
Qed.

Lemma result_at (pre post : list Shopify.Variant) (v : Shopify.Variant) :
  Shopify.results (Shopify.validateProductVariants (pre ++ v :: post))
    !! length pre
  = Some (Shopify.validateVariant
            (Shopify.validateEach pre Shopify.no_seen).1 v).2.
Proof.
  unfold Shopify.validateProductVariants. cbn [Shopify.results].
  rewrite validateEach_app, validateEach_cons. cbn [snd].
  rewrite lookup_app_r by (rewrite validateEach_length; lia).
  rewrite validateEach_length. by replace (length pre - length pre) with 0 by lia.
Qed.

Section Duplicates.
Variable tr : Shopify.Seen → gmap string (js string).
Variable key : Shopify.Variant → option string.
Variable dup : nat.
Variable what : string.

Hypothesis Hinit : tr Shopify.no_seen = ∅.
Hypothesis Hstep : ∀ seen v,
  tr (Shopify.validateVariant seen v).1
  = match key v with
    | Some k => tracked (tr seen) k (Shopify.id v)
    | None => tr seen
    end.
Hypothesis Hdup : ∀ seen v k,
  key v = Some k → truthy (Shopify.get (tr seen) k) = true →
  dup ∈ codes (Shopify.validateVariant seen v).2.
Hypothesis Hsound : ∀ seen v,
  dup ∈ codes (Shopify.validateVariant seen v).2 →
  ∃ k, key v = Some k ∧ truthy (Shopify.get (tr seen) k) = true.

Lemma tracker_origin (variants : list Shopify.Variant) (seen : Shopify.Seen)
    (k : string) (i : js string) :
  tr (Shopify.validateEach variants seen).1 !! k = Some i →
  tr seen !! k = Some i
  ∨ ∃ v, In v variants ∧ key v = Some k ∧ Shopify.id v = i.
Proof.
  revert seen. induction variants as [|v variants IH]; intros seen; [auto|].
  rewrite validateEach_cons. cbn [fst]. intros H.
  apply IH in H as [H|(v' & Hin & Hk & Hi)].
  - rewrite Hstep in H. destruct (key v) as [k'|] eqn:Hk; [|auto].
    apply tracked_origin in H as [H|[-> Hi]]; [auto|].
    right. exists v. split; [by left|done].
  - right. exists v'. split; [by right|done].
Qed.

(** A duplicate error names a key that an earlier variant registered,
    or that every object inherits. *)
Lemma duplicate_sound (pre post : list Shopify.Variant) (v : Shopify.Variant)
    (r : Shopify.ValidationResult) :
  Shopify.results (Shopify.validateProductVariants (pre ++ v :: post))
    !! length pre = Some r →
  dup ∈ codes r →
  ∃ k, key v = Some k
       ∧ (k ∈ Shopify.object_prototype
          ∨ ∃ v', In v' pre ∧ key v' = Some k
                  ∧ truthy (Shopify.id v') = true).
Proof.
  rewrite result_at. intros [= <-] Hr.
  apply Hsound in Hr as (k & Hk & Ht). exists k. split; [done|].
  unfold Shopify.get in Ht.
  destruct (tr (Shopify.validateEach pre Shopify.no_seen).1 !! k)
    as [i|] eqn:Hi.
  - right. apply tracker_origin in Hi as [Hi|(v' & Hin & Hk' & <-)].
    + by rewrite Hinit in Hi.
    + by exists v'.
  - left. by case_bool_decide.
Qed.

(** With no duplicate error in the results and an id on every variant,
    the keys of the batch are pairwise distinct. *)
Lemma distinct_keys (variants : list Shopify.Variant) (seen : Shopify.Seen) :
  (∀ k i, tr seen !! k = Some i → truthy i = true) →
  Forall (fun v => truthy (Shopify.id v) = true) variants →
  Forall (fun r => dup ∉ codes r) (Shopify.validateEach variants seen).2 →
  NoDup (omap key variants)
  ∧ ∀ k, k ∈ omap key variants → tr seen !! k = None.
Proof.
  revert seen. induction variants as [|v variants IH];
    intros seen Hseen Hids Hres.
  - split; [constructor|]. intros k Hk. by apply elem_of_nil in Hk.
  - rewrite validateEach_cons in Hres. cbn [snd] in Hres.
    apply Forall_cons in Hres as [Hr Hres].
    apply Forall_cons in Hids as [Hid Hids].
    cbn [omap list_omap]. fold (omap key variants).
    destruct (key v) as [k|] eqn:Hk.
    + assert (truthy (Shopify.get (tr seen) k) = false) as Hget.
      { destruct (truthy (Shopify.get (tr seen) k)) eqn:Ht; [|done].
        destruct Hr. by apply (Hdup seen v k). }
      assert (tr seen !! k = None ∧ k ∉ Shopify.object_prototype)
        as [Hnone Hproto].
      { unfold Shopify.get in Hget.
        destruct (tr seen !! k) as [i|] eqn:Hi.
        - cbn in Hget. rewrite (Hseen k i Hi) in Hget. discriminate.
        - split; [done|]. by case_bool_decide. }
      assert (tr (Shopify.validateVariant seen v).1
              = <[k:=Shopify.id v]> (tr seen)) as Hnext.
      { rewrite Hstep, Hk. unfold tracked, Shopify.set.
        by rewrite Hget, (not_inherited_proto k Hproto). }
      destruct (IH (Shopify.validateVariant seen v).1) as [Hnd Hfresh];
        [|done|done|].
      { rewrite Hnext. intros k' i.
        destruct (decide (k = k')) as [->|Hne].
        - rewrite lookup_insert_eq. by intros [= <-].
        - rewrite lookup_insert_ne by done. apply Hseen. }
      split.
      * constructor; [|done]. intros Hin. apply Hfresh in Hin.
        by rewrite Hnext, lookup_insert_eq in Hin.
      * intros k' [->|Hin]%elem_of_cons; [done|].
        pose proof (Hfresh k' Hin) as Hk'. rewrite Hnext in Hk'.
        destruct (decide (k = k')) as [->|Hne].
        -- by rewrite lookup_insert_eq in Hk'.
        -- by rewrite lookup_insert_ne in Hk'.
    + assert (tr (Shopify.validateVariant seen v).1 = tr seen) as Hnext
        by (by rewrite Hstep, Hk).
      rewrite <- Hnext. apply IH; [|done|done].
      by rewrite Hnext.
Qed.
End Duplicates.

Section Registered.
Variable tr : Shopify.Seen → gmap string (js string).
Variable key : Shopify.Variant → option string.
Variable dup : nat.

Hypothesis Hinit : tr Shopify.no_seen = ∅.
Hypothesis Hstep : ∀ seen v,
  tr (Shopify.validateVariant seen v).1
  = match key v with
    | Some k => tracked (tr seen) k (Shopify.id v)
    | None => tr seen
    end.
Hypothesis Hdup : ∀ seen v k,
  key v = Some k → truthy (Shopify.get (tr seen) k) = true →
  dup ∈ codes (Shopify.validateVariant seen v).2.
Hypothesis Hsound : ∀ seen v,
  dup ∈ codes (Shopify.validateVariant seen v).2 →
  ∃ k, key v = Some k ∧ truthy (Shopify.get (tr seen) k) = true.

(** Once a variant with an id has been filed under a key, the key stays
    registered under an id. *)
Lemma tracker_registers (pre : list Shopify.Variant) (v' : Shopify.Variant)
    (k : string) :
  Forall (fun v => truthy (Shopify.id v) = true) pre →
  In v' pre → key v' = Some k → k ∉ Shopify.object_prototype →
  ∃ i, tr (Shopify.validateEach pre Shopify.no_seen).1 !! k = Some i
       ∧ truthy i = true.
Proof.
  intros Hids Hin Hk Hproto.
  apply in_split in Hin as (l1 & l2 & ->).
  rewrite validateEach_app, validateEach_cons. cbn [fst].
  set (s0 := (Shopify.validateEach l1 Shopify.no_seen).1).
  apply Forall_app in Hids as [_ Hids].
  apply Forall_cons in Hids as [Hid _].
  assert (∃ i, tr (Shopify.validateVariant s0 v').1 !! k = Some i
               ∧ truthy i = true) as (i & Hi & Ht).
  { rewrite Hstep, Hk. unfold tracked.
    destruct (truthy (Shopify.get (tr s0) k)) eqn:Hget.
    - unfold Shopify.get in Hget. destruct (tr s0 !! k) as [i|]; [by exists i|].
      by rewrite (bool_decide_eq_false_2 _ Hproto) in Hget.
    - exists (Shopify.id v'). split; [|done].
      unfold Shopify.set. rewrite (not_inherited_proto k Hproto).
      apply lookup_insert_eq. }
  exists i. split; [|done].
  by apply (tracker_keeps tr key Hstep).
Qed.

(** A variant gets the duplicate error exactly when it is filed under a
    key under which an earlier variant of the batch is filed, provided
    its key is not one that every object inherits. *)
Lemma duplicate_iff (pre post : list Shopify.Variant) (v : Shopify.Variant)
    (r : Shopify.ValidationResult) :
  Shopify.results (Shopify.validateProductVariants (pre ++ v :: post))
    !! length pre = Some r →
  Forall (fun v => truthy (Shopify.id v) = true) pre →
  (∀ k, key v = Some k → k ∉ Shopify.object_prototype) →
  dup ∈ codes r
  ↔ ∃ k, key v = Some k ∧ ∃ v', In v' pre ∧ key v' = Some k.
Proof.
  intros Hr Hids Hproto. split.
  - intros Hd.
    destruct (duplicate_sound tr key dup Hinit Hstep Hsound pre post v r
                Hr Hd) as (k & Hk & [Hin|(v' & Hin & Hv' & _)]).
    + by destruct (Hproto k Hk).
    + exists k. split; [done|]. by exists v'.
  - intros (k & Hk & v' & Hin & Hv').
    destruct (tracker_registers pre v' k Hids Hin Hv' (Hproto k Hk))
      as (i & Hi & Ht).
    rewrite result_at in Hr. injection Hr as <-.
    apply (Hdup _ v k Hk). unfold Shopify.get. by rewrite Hi.
Qed.
End Registered.

(** *** The three tracking objects, step by step *)

Lemma sku_step (seen : Shopify.Seen) (v : Shopify.Variant) :
  Shopify.existing_skus (Shopify.validateVariant seen v).1
  = match sku_key v with
    | Some k => tracked (Shopify.existing_skus seen) k (Shopify.id v)
    | None => Shopify.existing_skus seen
    end.
Proof.
  rewrite validateVariant_blocks. cbn [fst Shopify.existing_skus].
  rewrite checkSku_key. unfold tracked.
  by destruct (sku_key v) as [k'|]; [destruct (truthy _)|].
Qed.

Lemma barcode_step (seen : Shopify.Seen) (v : Shopify.Variant) :
  Shopify.existing_barcodes (Shopify.validateVariant seen v).1
  = match barcode_key v with
    | Some k => tracked (Shopify.existing_barcodes seen) k (Shopify.id v)
    | None => Shopify.existing_barcodes seen
    end.
Proof.
  rewrite validateVariant_blocks. cbn [fst Shopify.existing_barcodes].
  rewrite checkBarcode_key. unfold tracked.
  by destruct (barcode_key v) as [k'|]; [destruct (truthy _)|].
Qed.

Lemma name_step (seen : Shopify.Seen) (v : Shopify.Variant) :
  Shopify.existing_names (Shopify.validateVariant seen v).1
  = match name_key v with
    | Some k => tracked (Shopify.existing_names seen) k (Shopify.id v)
    | None => Shopify.existing_names seen
    end.
Proof.
  rewrite validateVariant_blocks. cbn [fst Shopify.existing_names].
  apply checkName_key.
Qed.

Ltac foreign_code :=
  let H := fresh in intros H; exfalso; revert H; other_codes.

Lemma sku_dup (seen : Shopify.Seen) (v : Shopify.Variant) :
  108 ∈ codes (Shopify.validateVariant seen v).2
  ↔ ∃ k, sku_key v = Some k
         ∧ truthy (Shopify.get (Shopify.existing_skus seen) k) = true.
Proof.
  unfold codes. rewrite errors_blocks, !map_app, !elem_of_app, checkSku_key.
  split.
  - intros [H|[H|[H|H]]]; revert H; [foreign_code..| |foreign_code].
    destruct (sku_key v) as [k|]; [|mem].
    destruct (truthy _) eqn:Ht; [eauto|mem].
  - intros (k & -> & ->). right. right. left. mem.
Qed.

Lemma barcode_dup (seen : Shopify.Seen) (v : Shopify.Variant) :
  110 ∈ codes (Shopify.validateVariant seen v).2
  ↔ ∃ k, barcode_key v = Some k
         ∧ truthy (Shopify.get (Shopify.existing_barcodes seen) k) = true.
Proof.
  unfold codes. rewrite errors_blocks, !map_app, !elem_of_app, checkBarcode_key.
  split.
  - intros [H|[H|[H|H]]]; revert H; [foreign_code..|].
    destruct (barcode_key v) as [k|]; [|mem].
    destruct (truthy _) eqn:Ht; [eauto|mem].
  - intros (k & -> & ->). right. right. right. mem.
Qed.

Lemma checkName_no_key (m : gmap string (js string)) (v : Shopify.Variant) :
  name_key v = None → 106 ∉ map Shopify.code (Shopify.checkName m v []).2.
Proof.
  unfold Shopify.checkName, name_key.
  destruct (Shopify.vendor v) as [| |a] eqn:Ha.
  1,2: intros _; cbn;
       destruct (negb (truthy (Shopify.title v)) || (Shopify.title v == val ""));
       mem.
  destruct (Shopify.title v) as [| |b] eqn:Hb.
  1,2: intros _;
       change (negb (truthy (@undefined string)) || (undefined == val ""))
         with true;
       change (negb (truthy (@null string)) || (null == val "")) with true;
       rewrite orb_true_r;
       destruct (negb (truthy (val a)) || (val a == val "")); mem.
  rewrite !string_missing.
  case_decide as Hab.
  - intros _.
    assert (String.eqb a "" || String.eqb b "" = true) as ->.
    { destruct Hab as [->| ->]; [done|]. by rewrite orb_true_r. }
    destruct (String.eqb a ""), (String.eqb b ""); mem.
  - assert (String.eqb a "" = false) as -> by (apply String.eqb_neq; tauto).
    assert (String.eqb b "" = false) as -> by (apply String.eqb_neq; tauto).
    cbn [orb].
    destruct (String.prefix "_" _ || (100 <? String.length _)) eqn:Hshape;
      [|done].
    intros _. destruct (String.prefix "_" _), (100 <? String.length _); mem.
Qed.

Lemma name_dup (seen : Shopify.Seen) (v : Shopify.Variant) :
  106 ∈ codes (Shopify.validateVariant seen v).2
  ↔ ∃ k, name_key v = Some k
         ∧ truthy (Shopify.get (Shopify.existing_names seen) k) = true.
Proof.
  unfold codes. rewrite errors_blocks, !map_app, !elem_of_app.
  split.
  - intros [H|[H|[H|H]]]; revert H; [foreign_code| |foreign_code..].
    destruct (name_key v) as [k|] eqn:Hk.
    + rewrite (proj2 (checkName_key _ v) k Hk).
      destruct (truthy _) eqn:Ht; [eauto|mem].
    + intros H. by apply checkName_no_key in H.
  - intros (k & Hk & Ht). right. left.
    rewrite (proj2 (checkName_key _ v) k Hk), Ht. mem.
Qed.

(** *** Well-formed variants *)

Lemma filled_not_missing (x : js string) : filled x ↔ ¬ missing x.
Proof.
  unfold filled, missing, absent. destruct x as [| |s].
  - split; [intros (s & [=] & _)|intros []; auto].
  - split; [intros (s & [=] & _)|intros []; auto].
  - split.
    + intros (s' & [= <-] & Hs) [[?|?]|[= ?]]; done.
    + intros H. exists s. split; [done|]. intros ->. apply H. by right.
Qed.

Lemma cost_filled_not_absent (v : Shopify.Variant) :
  cost_filled v ↔ ¬ cost_absent v.
Proof.
  unfold cost_filled, cost_absent.
  destruct (Shopify.inventory_item v) as [| |ii].
  1,2: split; [intros (? & ? & [=] & _)|intros []; done].
  destruct (Shopify.unit_cost ii) as [| |uc] eqn:Huc.
  1,2: split; [intros (? & ? & [= <-] & Hu & _); congruence|intros []; done].
  rewrite <- filled_not_missing. split.
  - intros (? & ? & [= <-] & Hu & Hf). congruence.
  - intros Hf. by exists ii, uc.
Qed.

Lemma length_append (a b : string) :
  String.length (a +:+ b) = String.length a + String.length b.
Proof.
  induction a as [|c a IH]; [reflexivity|].
  change (S (String.length (a +:+ b)) = S (String.length a) + String.length b).
  by rewrite IH.
Qed.

Lemma spaced_length (l : list string) :
  String.length (spaced l) = sum_list (map (fun s => 1 + String.length s) l).
Proof.
  induction l as [|s l IH]; [reflexivity|].
  cbn [spaced fold_right map sum_list]. fold (spaced l).
  rewrite !length_append, IH. reflexivity.
Qed.

Lemma generateProductName_length (a b : string)
    (opts : list Shopify.SelectedOption) :
  String.length (Shopify.generateProductName (val a) (val b) opts)
  = name_length a b opts.
Proof.
  unfold Shopify.generateProductName, name_length.
  rewrite generateProductName_fold, !length_append, spaced_length.
  change (display (val a)) with a. change (display (val b)) with b.
  change (String.length " ") with 1. lia.
Qed.

Lemma prefix_nil (s : string) : String.prefix "" s = true.
Proof. by destruct s. Qed.

Lemma generateProductName_prefix (a b : string)
    (opts : list Shopify.SelectedOption) :
  a ≠ "" →
  String.prefix "_" (Shopify.generateProductName (val a) (val b) opts)
  = String.prefix "_" a.
Proof.
  intros Ha. unfold Shopify.generateProductName.
  rewrite generateProductName_fold. change (display (val a)) with a.
  destruct a as [|c a]; [done|].
  change ((String c a +:+ " " +:+ display (val b)) +:+ spaced (omap named_value opts))
    with (String c ((a +:+ " " +:+ display (val b)) +:+ spaced (omap named_value opts))).
  cbn [String.prefix]. destruct (Ascii.ascii_dec _ _); [|done].
  by rewrite !prefix_nil.
Qed.

Lemma validateVariant_shape (seen : Shopify.Seen) (v : Shopify.Variant) :
  shape_rules v (Shopify.validateVariant seen v).2.
Proof.
  intros a b Ha Hb Hna Hnb.
  rewrite <- (generateProductName_prefix a b (Shopify.selected_options v) Hna).
  rewrite <- generateProductName_length.
  rewrite !in_name_block by lia.
  unfold Shopify.checkName. rewrite Ha, Hb, !string_missing.
  assert (String.eqb a "" = false) as -> by (by apply String.eqb_neq).
  assert (String.eqb b "" = false) as -> by (by apply String.eqb_neq).
  cbn [orb].
  destruct (String.prefix "_" _) eqn:Hp;
    destruct (100 <? String.length _) eqn:Hl; cbn [orb];
    [apply Nat.ltb_lt in Hl|apply Nat.ltb_ge in Hl
    |apply Nat.ltb_lt in Hl|apply Nat.ltb_ge in Hl];
    try destruct (truthy (Shopify.get _ _)); split; mem.
Qed.

(** *** Keys *)

Lemma sku_key_some (v : Shopify.Variant) (k : string) :
  sku_key v = Some k ↔ Shopify.sku v = val k ∧ k ≠ "".
Proof.
  unfold sku_key. destruct (Shopify.sku v) as [| |s].
  1,2: split; [done|intros [[=] _]].
  case_decide as Hs.
  - split; [done|]. intros [[= ->] H]. done.
  - split; [intros [= ->]; done|]. by intros [[= ->] _].
Qed.

Lemma barcode_key_some (v : Shopify.Variant) (k : string) :
  barcode_key v = Some k ↔ Shopify.barcode v = val k ∧ k ≠ "".
Proof.
  unfold barcode_key. destruct (Shopify.barcode v) as [| |s].
  1,2: split; [done|intros [[=] _]].
  case_decide as Hs.
  - split; [done|]. intros [[= ->] H]. done.
  - split; [intros [= ->]; done|]. by intros [[= ->] _].
Qed.

Lemma name_key_name (v : Shopify.Variant) (n : string) :
  name_key v = Some n → n = name_of v.
Proof.
  unfold name_key, name_of.
  destruct (Shopify.vendor v), (Shopify.title v); try done.
  case_decide; [done|]. cbn zeta. destruct (_ || _); [done|]. by intros [= <-].
Qed.

Lemma name_key_some (v : Shopify.Variant) :
  filled (Shopify.vendor v) → filled (Shopify.title v) →
  String.prefix "_" (name_of v) = false →
  String.length (name_of v) ≤ 100 →
  name_key v = Some (name_of v).
Proof.
  intros (a & Ha & Hna) (b & Hb & Hnb) Hp Hl.
  unfold name_key. fold (name_of v). rewrite Ha, Hb.
  case_decide as Hab; [tauto|]. cbn zeta. rewrite Hp.
  apply Nat.ltb_ge in Hl. by rewrite Hl.
Qed.

(** *** A batch that is ok *)

Lemma no_errors_well_formed (seen : Shopify.Seen) (v : Shopify.Variant) :
  Shopify.errors (Shopify.validateVariant seen v).2 = [] → well_formed v.
Proof.
  intros He.
  assert (∀ c, c ∉ codes (Shopify.validateVariant seen v).2) as Hc.
  { intros c. unfold codes. rewrite He. apply not_elem_of_nil. }
  destruct (validateVariant_presence seen v)
    as (H100 & H101 & H102 & H103 & H107 & H109).
  assert (filled (Shopify.vendor v)) as Hvendor.
  { apply filled_not_missing. rewrite <- H102. apply Hc. }
  assert (filled (Shopify.title v)) as Htitle.
  { apply filled_not_missing. rewrite <- H103. apply Hc. }
  destruct Hvendor as (a & Ha & Hna). destruct Htitle as (b & Hb & Hnb).
  destruct (validateVariant_shape seen v a b Ha Hb Hna Hnb) as [H104 H105].
  unfold well_formed, name_of. repeat split.
  - apply filled_not_missing. rewrite <- H100. apply Hc.
  - apply cost_filled_not_absent. rewrite <- H101. apply Hc.
  - by exists a.
  - by exists b.
  - rewrite Ha, Hb, generateProductName_prefix by done.
    destruct (String.prefix "_" a); [|done].
    destruct (Hc 104). by apply H104.
  - rewrite Ha, Hb, generateProductName_length.
    destruct (decide (100 < name_length a b (Shopify.selected_options v)))
      as [Hl|Hl]; [|lia].
    destruct (Hc 105). by apply H105.
  - apply filled_not_missing. rewrite <- H107. apply Hc.
  - apply filled_not_missing. rewrite <- H109. apply Hc.
Qed.

Lemma well_formed_clean (seen : Shopify.Seen) (v : Shopify.Variant) :
  well_formed v →
  106 ∉ codes (Shopify.validateVariant seen v).2 →
  108 ∉ codes (Shopify.validateVariant seen v).2 →
  110 ∉ codes (Shopify.validateVariant seen v).2 →
  Shopify.errors (Shopify.validateVariant seen v).2 = [].
Proof.
  intros (Hprice & Hcost & Hvendor & Htitle & Hp & Hl & Hsku & Hbarcode)
    H106 H108 H110.
  enough (codes (Shopify.validateVariant seen v).2 = []) as Hc
    by (by apply map_eq_nil in Hc).
  destruct (validateVariant_sorted seen v) as [_ Hrange].
  destruct (validateVariant_presence seen v)
    as (H100 & H101 & H102 & H103 & H107 & H109).
  pose proof Hvendor as (a & Ha & Hna). pose proof Htitle as (b & Hb & Hnb).
  destruct (validateVariant_shape seen v a b Ha Hb Hna Hnb) as [H104 H105].
  unfold name_of in Hp, Hl.
  rewrite Ha, Hb, generateProductName_prefix in Hp by done.
  rewrite Ha, Hb, generateProductName_length in Hl.
  apply filled_not_missing in Hprice, Hvendor, Htitle, Hsku, Hbarcode.
  apply cost_filled_not_absent in Hcost.
  destruct (codes (Shopify.validateVariant seen v).2) as [|c l]; [done|].
  exfalso.
  assert (c ∈ c :: l) as Hin by left.
  apply Forall_cons in Hrange as [Hc _].
  assert (c = 100 ∨ c = 101 ∨ c = 102 ∨ c = 103 ∨ c = 104 ∨ c = 105
          ∨ c = 106 ∨ c = 107 ∨ c = 108 ∨ c = 109 ∨ c = 110)
    as [->|[->|[->|[->|[->|[->|[->|[->|[->|[->| ->]]]]]]]]]] by lia.
  - by apply Hprice, H100.
  - by apply Hcost, H101.
  - by apply Hvendor, H102.
  - by apply Htitle, H103.
  - apply H104 in Hin. congruence.
  - apply H105 in Hin. lia.
  - done.
  - by apply Hsku, H107.
  - done.
  - by apply Hbarcode, H109.
  - done.
Qed.

Lemma ok_well_formed (variants : list Shopify.Variant) :
  Shopify.ok (Shopify.validateProductVariants variants) = true →
  Forall well_formed variants.
Proof.
  rewrite ok_no_errors.
  unfold Shopify.validateProductVariants. cbn [Shopify.results].
  generalize Shopify.no_seen as seen.
  induction variants as [|v variants IH]; intros seen H; [constructor|].
  rewrite validateEach_cons in H. cbn [snd] in H.
  apply Forall_cons in H as [Hv H]. constructor.
  - by apply (no_errors_well_formed seen).
  - by apply (IH _ H).
Qed.

Section Keys.
Context {B : Type}.
Variable tr : Shopify.Seen → gmap string (js string).
Variable key : Shopify.Variant → option string.
Variable dup : nat.
Variable field : Shopify.Variant → B.
Variable inj : string → B.

Hypothesis Hinit : tr Shopify.no_seen = ∅.
Hypothesis Hstep : ∀ seen v,
  tr (Shopify.validateVariant seen v).1
  = match key v with
    | Some k => tracked (tr seen) k (Shopify.id v)
    | None => tr seen
    end.
Hypothesis Hdup : ∀ seen v,
  dup ∈ codes (Shopify.validateVariant seen v).2
  ↔ ∃ k, key v = Some k ∧ truthy (Shopify.get (tr seen) k) = true.
Hypothesis Hfield : ∀ v k, key v = Some k → field v = inj k.
Hypothesis Hinj : ∀ k k', inj k = inj k' → k = k'.

Lemma map_keys (variants : list Shopify.Variant) :
  Forall (fun v => is_Some (key v)) variants →
  map field variants = map inj (omap key variants).
Proof.
  induction 1 as [|v variants [k Hk] _ IH]; [done|].
  cbn [map omap list_omap]. rewrite Hk. cbn [map].
  fold (omap key variants). by rewrite IH, (Hfield v k Hk).
Qed.

Lemma no_duplicate_distinct (variants : list Shopify.Variant) :
  Forall (fun v => is_Some (key v)) variants →
  Forall (fun v => truthy (Shopify.id v) = true) variants →
  Forall (fun r => dup ∉ codes r)
    (Shopify.results (Shopify.validateProductVariants variants)) →
  NoDup (map field variants).
Proof.
  intros Hkeys Hids Hres. rewrite (map_keys _ Hkeys).
  apply (NoDup_fmap_2_strong inj).
  - intros k k' _ _. apply Hinj.
  - apply (distinct_keys tr key dup Hstep) with (seen := Shopify.no_seen);
      [..|done|done].
    + intros seen v k Hk Ht. apply Hdup. eauto.
    + intros k i. by rewrite Hinit.
Qed.

Lemma distinct_no_duplicate (pre post : list Shopify.Variant)
    (v : Shopify.Variant) (r : Shopify.ValidationResult) :
  Shopify.results (Shopify.validateProductVariants (pre ++ v :: post))
    !! length pre = Some r →
  (∀ k, key v = Some k → k ∉ Shopify.object_prototype) →
  NoDup (map field (pre ++ v :: post)) →
  dup ∉ codes r.
Proof.
  intros Hr Hown Hnd Hd.
  destruct (duplicate_sound tr key dup Hinit Hstep
              (fun seen v => proj1 (Hdup seen v)) pre post v r Hr Hd)
    as (k & Hk & [Hin|(v' & Hin & Hk' & _)]).
  - by apply (Hown k).
  - rewrite map_app in Hnd. apply NoDup_app in Hnd as (_ & Hnd & _).
    apply (Hnd (field v')).
    + apply list_elem_of_In, in_map, Hin.
    + rewrite (Hfield v' k Hk'), <- (Hfield v k Hk). left.
Qed.
End Keys.

Lemma ok_distinct (variants : list Shopify.Variant) :
  Shopify.ok (Shopify.validateProductVariants variants) = true →
  Forall (fun v => truthy (Shopify.id v) = true) variants →
  distinct variants.
Proof.
  intros Hok Hids. pose proof (ok_well_formed variants Hok) as Hwf.
  apply ok_no_errors in Hok.
  assert (∀ c, Forall (fun r => c ∉ codes r)
                 (Shopify.results (Shopify.validateProductVariants variants)))
    as Hnone.
  { intros c. eapply Forall_impl; [exact Hok|].
    intros r Hr. unfold codes. rewrite Hr. apply not_elem_of_nil. }
  repeat split.
  - apply (no_duplicate_distinct Shopify.existing_names name_key 106 name_of id);
      try done.
    + apply name_step.
    + apply name_dup.
    + intros v k Hk. symmetry. by apply name_key_name.
    + eapply Forall_impl; [exact Hwf|]. intros v Hv.
      exists (name_of v). apply name_key_some; apply Hv.
  - apply (no_duplicate_distinct Shopify.existing_skus sku_key 108
             Shopify.sku val); try done.
    + apply sku_step.
    + apply sku_dup.
    + intros v k Hk. by apply sku_key_some in Hk as [-> _].
    + by intros k k' [= ->].
    + eapply Forall_impl; [exact Hwf|].
      intros v (_ & _ & _ & _ & _ & _ & (k & Hk & Hn) & _).
      exists k. by apply sku_key_some.
  - apply (no_duplicate_distinct Shopify.existing_barcodes barcode_key 110
             Shopify.barcode val); try done.
    + apply barcode_step.
    + apply barcode_dup.
    + intros v k Hk. by apply barcode_key_some in Hk as [-> _].
    + by intros k k' [= ->].
    + eapply Forall_impl; [exact Hwf|].
      intros v (_ & _ & _ & _ & _ & _ & _ & (k & Hk & Hn)).
      exists k. by apply barcode_key_some.
Qed.

Lemma well_formed_clean_at (pre post : list Shopify.Variant)
    (v : Shopify.Variant) (r : Shopify.ValidationResult) :
  Shopify.results (Shopify.validateProductVariants (pre ++ v :: post))
    !! length pre = Some r →
  own_keys v → well_formed v → distinct (pre ++ v :: post) →
  Shopify.errors r = [].
Proof.
  intros Hr Hown Hwf (Hnames & Hskus & Hbarcodes).
  pose proof Hr as Hat. rewrite result_at in Hat. injection Hat as Hat.
  rewrite <- Hat. apply well_formed_clean; [done|rewrite Hat..].
  - apply (distinct_no_duplicate Shopify.existing_names name_key 106 name_of id)
      with (pre := pre) (post := post) (v := v); try done.
    + apply name_step.
    + apply name_dup.
    + intros v' k Hk. symmetry. by apply name_key_name.
    + intros k Hk. by apply (name_key_not_inherited v).
  - apply (distinct_no_duplicate Shopify.existing_skus sku_key 108
             Shopify.sku val)
      with (pre := pre) (post := post) (v := v); try done.
    + apply sku_step.
    + apply sku_dup.
    + intros v' k Hk. by apply sku_key_some in Hk as [-> _].
    + intros k [Hk _]%sku_key_some. apply Hown. by left.
  - apply (distinct_no_duplicate Shopify.existing_barcodes barcode_key 110
             Shopify.barcode val)
      with (pre := pre) (post := post) (v := v); try done.
    + apply barcode_step.
    + apply barcode_dup.
    + intros v' k Hk. by apply barcode_key_some in Hk as [-> _].
    + intros k [Hk _]%barcode_key_some. apply Hown. by right.
Qed.

Lemma well_formed_ok (variants : list Shopify.Variant) :
  Forall own_keys variants → Forall well_formed variants →
  distinct variants →
  Shopify.ok (Shopify.validateProductVariants variants) = true.
Proof.
  intros Hown Hwf Hd. apply ok_no_errors.
  apply Forall_lookup. intros i r Hr.
  assert (i < length variants) as Hi.
  { apply lookup_lt_Some in Hr.
    unfold Shopify.validateProductVariants in Hr. cbn [Shopify.results] in Hr.
    by rewrite validateEach_length in Hr. }
  destruct (lookup_lt_is_Some_2 variants i Hi) as [v Hv].
  pose proof (take_drop_middle variants i v Hv) as Hsplit.
  assert (length (take i variants) = i) as Hlen
    by (rewrite length_take; lia).
  set (pre := take i variants) in *. set (post := drop (S i) variants) in *.
  clearbody pre post. subst variants i.
  apply Forall_app in Hown as [_ [Hown _]%Forall_cons].
  apply Forall_app in Hwf as [_ [Hwf _]%Forall_cons].
  by apply (well_formed_clean_at pre post v r).
Qed.

(** *** What the validator guarantees *)

(** X5. For a variant with a vendor and a title, code 104 is emitted exactly
    when the vendor starts with an underscore, and code 105 exactly when
    the lengths of vendor, title and the named option values, with the
    spaces that join them, come to more than 100. *)
Theorem validateProductVariants_shape (variants : list Shopify.Variant) :
  Forall2 shape_rules variants
    (Shopify.results (Shopify.validateProductVariants variants)).
Proof.
  unfold Shopify.validateProductVariants. cbn [Shopify.results].
  apply validateEach_Forall2. intros seen v. apply validateVariant_shape.
Qed.

(** X6. In a batch whose earlier variants all carry an id, a variant whose
    sku and barcode are not names of inherited properties gets code 106,
    108 or 110 exactly when its generated name, sku or barcode is tracked
    and an earlier variant of the batch is tracked under the same one. *)
Theorem validateProductVariants_duplicates (pre post : list Shopify.Variant)
    (v : Shopify.Variant) (r : Shopify.ValidationResult) :
  Shopify.results (Shopify.validateProductVariants (pre ++ v :: post))
    !! length pre = Some r →
  Forall (fun v => truthy (Shopify.id v) = true) pre →
  own_keys v →
  (106 ∈ codes r ↔ filed_before name_key pre v)
  ∧ (108 ∈ codes r ↔ filed_before sku_key pre v)
  ∧ (110 ∈ codes r ↔ filed_before barcode_key pre v).
Proof.
  intros Hr Hids Hown. split; [|split].
  - apply (duplicate_iff Shopify.existing_names name_key 106) with post;
      try done.
    + apply name_step.
    + intros seen v0 k Hk Ht. apply name_dup. eauto.
    + apply name_dup.
    + apply name_key_not_inherited.
  - apply (duplicate_iff Shopify.existing_skus sku_key 108) with post;
      try done.
    + apply sku_step.
    + intros seen v0 k Hk Ht. apply sku_dup. eauto.
    + apply sku_dup.
    + intros k [Hk _]%sku_key_some. apply Hown. by left.
  - apply (duplicate_iff Shopify.existing_barcodes barcode_key 110) with post;
      try done.
    + apply barcode_step.
    + intros seen v0 k Hk Ht. apply barcode_dup. eauto.
    + apply barcode_dup.
    + intros k [Hk _]%barcode_key_some. apply Hown. by right.
Qed.

Lemma validateProductVariants_duplicates_salsa :
  ∃ r, Shopify.results (Shopify.validateProductVariants salsa_twice) !! 2
       = Some r
       ∧ (106 ∈ codes r) ∧ (108 ∈ codes r) ∧ (110 ∉ codes r).
Proof.
  eexists. split; [reflexivity|].
  pose proof (validateProductVariants_duplicates
                [ variant_of (val "v1") "Salsa" "S1" "B1";
                  variant_of (val "v2") "Chips" "S2" "B2" ]
                [] (variant_of (val "v3") "Salsa" "S1" "B3") _ eq_refl)
    as H.
  destruct H as (H106 & H108 & H110).
  - repeat constructor.
  - intros k [[= <-]|[= <-]] Hin;
      repeat (apply elem_of_cons in Hin as [Hin|Hin]; [discriminate|]);
      by apply elem_of_nil in Hin.
  - split; [|split].
    + apply H106. exists "Acme Salsa". split; [reflexivity|].
      eexists. split; [left; reflexivity|reflexivity].
    + apply H108. exists "S1". split; [reflexivity|].
      eexists. split; [left; reflexivity|reflexivity].
    + intros Hin. apply H110 in Hin as (k & [= <-] & v' & Hv' & Hk).
      destruct Hv' as [<-|[<-|[]]]; discriminate.
Defined.

(** X7. For a batch in which every variant carries an id and no sku or
    barcode is the name of an inherited property: the batch is ok exactly
    when every variant is well formed and no two variants share a generated
    name, a sku or a barcode. *)
Theorem validateProductVariants_ok_iff (variants : list Shopify.Variant) :
  Forall (fun v => truthy (Shopify.id v) = true) variants →
  Forall own_keys variants →
  Shopify.ok (Shopify.validateProductVariants variants) = true
  ↔ Forall well_formed variants ∧ distinct variants.
Proof.
  intros Hids Hown. split.
  - intros Hok. split; [by apply ok_well_formed|by apply ok_distinct].
  - intros [Hwf Hd]. by apply well_formed_ok.
Qed.

Lemma validateProductVariants_ok_iff_salsa_chips :
  Shopify.ok (Shopify.validateProductVariants salsa_chips) = true
  ∧ Forall well_formed salsa_chips ∧ distinct salsa_chips.
Proof.
  split; [reflexivity|].
  apply (validateProductVariants_ok_iff salsa_chips).
  - repeat constructor.
  - repeat constructor;
      intros k [[= <-]|[= <-]] Hin;
      repeat (apply elem_of_cons in Hin as [Hin|Hin]; [discriminate|]);
      by apply elem_of_nil in Hin.
  - reflexivity.
Defined.

Lemma reserved_prefix (k : string) : String.prefix "_" ("_" +:+ k) = true.
Proof.
  change ("_" +:+ k) with (String (Ascii.ascii_of_nat 95) k).
  cbn [String.prefix]. destruct (Ascii.ascii_dec _ _); [|done]. apply prefix_nil.
Qed.

Lemma well_formed_parses (parseFloat : js string → float)
    (v : Shopify.Variant) :
  well_formed v →
  ∃ p, Shopify.parseProduct parseFloat v = Resolved p
       ∧ parsed_from parseFloat v p.
Proof.
  intros ((s & Hs & Hns) & (ii & uc & Hii & Huc & a & Ha & Hna) & _ & _
          & Hp & Hl & Hsku & _).
  unfold Shopify.parseProduct. rewrite Hii, Huc, Hs.
  eexists. split; [reflexivity|].
  unfold parsed_from. cbn [Product.name Product.sku Product.unit_price
                            Product.purchase_cost].
  repeat split; try done.
  - intros k Hk. rewrite Hk, reserved_prefix in Hp. discriminate.
  - exists s. split; [done|]. split; [done|].
    change (truthy (val s)) with (negb (String.eqb s "")).
    apply String.eqb_neq in Hns. by rewrite Hns.
  - exists ii, uc, a. by rewrite Ha.
Qed.

(** X8. Every variant of a batch that the validator found ok is parsed by
    parseProduct without failure, into a product whose name is the
    generated name, of at most 100 characters and not of the reserved form
    `_<key>`, and whose unit price and purchase cost are the numbers read
    off a non-empty price and a non-empty amount, never null. *)
Theorem validated_variants_parse (parseFloat : js string → float)
    (variants : list Shopify.Variant) :
  Shopify.ok (Shopify.validateProductVariants variants) = true →
  Forall (fun v => ∃ p, Shopify.parseProduct parseFloat v = Resolved p
                        ∧ parsed_from parseFloat v p) variants.
Proof.
  intros Hok. eapply Forall_impl; [by apply ok_well_formed|].
  intros v Hv. by apply well_formed_parses.
Qed.

Lemma validated_variants_parse_salsa_chips :
  Forall (fun v => ∃ p, Shopify.parseProduct (fun _ => PrimFloat.zero) v
                        = Resolved p
                        ∧ parsed_from (fun _ => PrimFloat.zero) v p)
    salsa_chips.
Proof. apply (validated_variants_parse _ salsa_chips). reflexivity. Defined.

(** ** One page *)

Lemma parsed_variant_complete (e : ShopifyEngine.Edge) :
  complete_edge e →
  ∃ v, ShopifyEngine.parsed_variant (ShopifyEngine.node e) = Resolved v
       ∧ parsed_of e v.
Proof.
  intros (n & pr & ii & Hn & Hpr & Hii).
  unfold ShopifyEngine.parsed_variant. rewrite Hn, Hpr, Hii.
  eexists. split; [reflexivity|].
  exists n, pr, ii. repeat (split; [done|]).
  eexists. split; [reflexivity|]. cbn [Shopify.unit_cost].
  destruct (ShopifyEngine.InventoryItem.unitCost ii) as [| |uc]; [done..|].
  by eexists.
Qed.


Lemma parse_edges_complete (es : list ShopifyEngine.Edge)
    (acc : list Shopify.Variant) :
  Forall complete_edge es →
  ∃ vs, ShopifyEngine.parse_edges es acc = Resolved (acc ++ vs)
        ∧ Forall2 parsed_of es vs.
Proof.
  intros Hes. revert acc. induction Hes as [|e es He _ IH]; intros acc.
  - exists []. by rewrite app_nil_r.
  - destruct (parsed_variant_complete e He) as (v & Hv & Hp).
    destruct (IH (acc ++ [v])) as (vs & Hvs & Hps).
    exists (v :: vs). cbn [ShopifyEngine.parse_edges]. rewrite Hv, Hvs.
    split; [by rewrite <- app_assoc|by constructor].
Qed.


Section Client.
Context {W : Type} (client : handler ShopifyEngine.call W).

(** What [getProdutVariants] does with the response to its one query. *)
Lemma run_getProdutVariants (cursor : js string) (w : W) :
  run client (ShopifyEngine.getProdutVariants cursor) w
  = let variables :=
      if truthy cursor then val {| ShopifyEngine.v_cursor := cursor |}
      else null in
    match client _ (ShopifyEngine.query variables) w with
    | (inl e, w') => (Threw e, w', [Invoke (ShopifyEngine.query variables)])
    | (inr res, w') =>
        (match ShopifyEngine.data res with
         | val d =>
             match ShopifyEngine.productVariants d with
             | val pv =>
                 match ShopifyEngine.edges pv with
                 | val es =>
                     match ShopifyEngine.parse_edges es [] with
                     | Resolved vs =>
                         match ShopifyEngine.pageInfo pv with
                         | val pi =>
                             if truthy (ShopifyEngine.hasNextPage pi) then
                               match ShopifyEngine.last_cursor es with
                               | Resolved c =>
                                   Resolved {| Shopify.items := val vs;
                                               Shopify.next_cursor := c |}
                               | Threw e => Threw e
                               end
                             else Resolved {| Shopify.items := val vs;
                                              Shopify.next_cursor := null |}
                         | _ => Threw TypeError
                         end
                     | Threw e => Threw e
                     end
                 | _ => Threw TypeError
                 end
             | _ => Resolved {| Shopify.items := null;
                                Shopify.next_cursor := null |}
             end
         | _ => Resolved {| Shopify.items := null;
                            Shopify.next_cursor := null |}
         end, w', [Invoke (ShopifyEngine.query variables)])
    end.
Proof.
  unfold ShopifyEngine.getProdutVariants. cbn zeta.
  rewrite run_bind, run_invoke.
  destruct (client _ _ w) as [[e|res] w']; [done|].
  destruct (ShopifyEngine.data res) as [| |d]; [done..|].
  destruct (ShopifyEngine.productVariants d) as [| |pv]; [done..|].
  destruct (ShopifyEngine.edges pv) as [| |es]; [done..|].
  destruct (ShopifyEngine.parse_edges es []) as [vs|e]; [|done].
  destruct (ShopifyEngine.pageInfo pv) as [| |pi]; [done..|].
  destruct (truthy (ShopifyEngine.hasNextPage pi)); [|done].
  by destruct (ShopifyEngine.last_cursor es).
Qed.
End Client.

(** X9. When the client answers the query with a connection whose edges all
    carry a node, its product and its inventory item, and which does not
    announce a next page after no edge at all, getProdutVariants makes
    that one query and resolves with one parsed variant per edge, in the
    order of the edges, each with an inventory item of its own; the cursor
    it reports is that of the last edge when the page announces a next
    page, and null otherwise. *)
Theorem getProdutVariants_page {W : Type} (client : handler ShopifyEngine.call W)
    (cursor : js string) (w w' : W) (res : ShopifyEngine.Response)
    (d : ShopifyEngine.Data) (pv : ShopifyEngine.Connection)
    (es : list ShopifyEngine.Edge) (pi : ShopifyEngine.PageInfo) :
  let variables :=
    if truthy cursor then val {| ShopifyEngine.v_cursor := cursor |}
    else null in
  client _ (ShopifyEngine.query variables) w = (inr res, w') →
  ShopifyEngine.data res = val d →
  ShopifyEngine.productVariants d = val pv →
  ShopifyEngine.edges pv = val es →
  ShopifyEngine.pageInfo pv = val pi →
  Forall complete_edge es →
  (truthy (ShopifyEngine.hasNextPage pi) = true → es ≠ []) →
  ∃ vs,
    run client (ShopifyEngine.getProdutVariants cursor) w
    = (Resolved {| Shopify.items := val vs;
                   Shopify.next_cursor := reported_cursor pi es |},
       w', [Invoke (ShopifyEngine.query variables)])
    ∧ Forall2 parsed_of es vs.
Proof.
  intros variables Hres Hd Hpv Hes Hpi Hcomplete Hlast.
  destruct (parse_edges_complete es [] Hcomplete) as (vs & Hvs & Hps).
  exists vs. split; [|done].
  rewrite run_getProdutVariants. cbn zeta. fold variables.
  rewrite Hres, Hd, Hpv, Hes, Hvs, Hpi. cbn [app].
  unfold reported_cursor, ShopifyEngine.last_cursor.
  destruct (truthy (ShopifyEngine.hasNextPage pi)); [|done].
  destruct (last es) as [e|] eqn:He; [done|].
  apply last_None in He. by destruct Hlast.
Qed.

Lemma getProdutVariants_page_salsa :
  ∃ vs,
    run endless_client (ShopifyEngine.getProdutVariants null) 0
    = (Resolved {| Shopify.items := val vs; Shopify.next_cursor := val "c1" |},
       1, [Invoke (ShopifyEngine.query null)])
    ∧ Forall2 parsed_of
        [ {| ShopifyEngine.cursor := val "c1";
             ShopifyEngine.node := val salsa_node |} ] vs.
Proof.
  refine (getProdutVariants_page endless_client null 0 1
            (salsa_response true) _ _ _ _ eq_refl eq_refl eq_refl eq_refl
            eq_refl _ _).
  - constructor; [|constructor]. do 3 eexists. repeat split.
  - intros _. discriminate.
Defined.



Lemma fetched_eq {W : Type} (client : handler ShopifyEngine.call W)
    (cursor : js string) (w : W) :
  ShopifyEngine.fetched client _ (Shopify.getProdutVariants cursor) w
  = let '(o, w', _) :=
      run client (ShopifyEngine.getProdutVariants cursor) w in
    (match o with Resolved page => inr page | Threw e => inl e end, w').
Proof. reflexivity. Qed.

(** X11. When the client answers the first query without data, or with data
    that holds no productVariants, getAllProductVariants makes that one
    request and resolves with an array whose only element is null. *)
Theorem getAllProductVariants_no_connection {W : Type}
    (client : handler ShopifyEngine.call W) (w w' : W)
    (res : ShopifyEngine.Response) (fuel : nat) :
  client _ (ShopifyEngine.query null) w = (inr res, w') →
  no_connection res →
  run (ShopifyEngine.fetched client) (Shopify.getAllProductVariants (S fuel)) w
  = (Resolved (Some [null]), w', [Invoke (Shopify.getProdutVariants null)]).
Proof.
  intros Hres Hno. unfold Shopify.getAllProductVariants.
  rewrite retrieving_step, fetched_eq, run_getProdutVariants. cbn zeta.
  change (truthy (@null string)) with false. cbn match. rewrite Hres.
  unfold no_connection, absent in Hno.
  destruct (ShopifyEngine.data res) as [| |d]; [done..|].
  destruct (ShopifyEngine.productVariants d) as [| |pv]; [done|done|].
  destruct Hno; discriminate.
Qed.

Lemma getAllProductVariants_no_connection_silent :
  run (ShopifyEngine.fetched silent_client) (Shopify.getAllProductVariants 1) 0
  = (Resolved (Some [null]), 1, [Invoke (Shopify.getProdutVariants null)]).
Proof.
  exact (getAllProductVariants_no_connection silent_client 0 1 _ 0
           eq_refl I).
Defined.

(** X12. When the client answers a query with a connection that announces a
    next page after no edge at all, getProdutVariants fails with a
    TypeError, and getAllProductVariants is rejected with it after that
    one request. *)
Theorem getAllProductVariants_next_page_without_edges {W : Type}
    (client : handler ShopifyEngine.call W) (w w' : W)
    (res : ShopifyEngine.Response) (d : ShopifyEngine.Data)
    (pv : ShopifyEngine.Connection) (pi : ShopifyEngine.PageInfo)
    (fuel : nat) :
  client _ (ShopifyEngine.query null) w = (inr res, w') →
  ShopifyEngine.data res = val d →
  ShopifyEngine.productVariants d = val pv →
  ShopifyEngine.edges pv = val [] →
  ShopifyEngine.pageInfo pv = val pi →
  truthy (ShopifyEngine.hasNextPage pi) = true →
  run client (ShopifyEngine.getProdutVariants null) w
  = (Threw TypeError, w', [Invoke (ShopifyEngine.query null)])
  ∧ run (ShopifyEngine.fetched client)
      (Shopify.getAllProductVariants (S fuel)) w
    = (Threw TypeError, w', [Invoke (Shopify.getProdutVariants null)]).
Proof.
  intros Hres Hd Hpv Hes Hpi Hnext.
  assert (run client (ShopifyEngine.getProdutVariants null) w
          = (Threw TypeError, w', [Invoke (ShopifyEngine.query null)])) as Hrun.
  { rewrite run_getProdutVariants. cbn zeta.
    change (truthy (@null string)) with false. cbn match.
    by rewrite Hres, Hd, Hpv, Hes, Hpi, Hnext. }
  split; [done|]. unfold Shopify.getAllProductVariants.
  by rewrite retrieving_step, fetched_eq, Hrun.
Qed.

Lemma getAllProductVariants_next_page_without_edges_empty :
  run empty_page_client (ShopifyEngine.getProdutVariants null) 0
  = (Threw TypeError, 1, [Invoke (ShopifyEngine.query null)])
  ∧ run (ShopifyEngine.fetched empty_page_client)
      (Shopify.getAllProductVariants 1) 0
    = (Threw TypeError, 1, [Invoke (Shopify.getProdutVariants null)]).
Proof.
  exact (getAllProductVariants_next_page_without_edges empty_page_client 0 1
           _ _ _ _ 0 eq_refl eq_refl eq_refl eq_refl eq_refl eq_refl).
Defined.

(** *** A loop without a bound of its own *)

Lemma retrieving_endless {W : Type} (h : handler Shopify.call W) :
  (∀ c w, ∃ p w', h _ (Shopify.getProdutVariants c) w = (inr p, w')
                  ∧ truthy (Shopify.next_cursor p) = true) →
  ∀ fuel acc c w,
    ∃ w' t, run h (Shopify.retrieving fuel acc c) w = (Resolved None, w', t)
            ∧ length t = fuel.
Proof.
  intros Hmore fuel. induction fuel as [|fuel IH]; intros acc c w.
  - by exists w, [].
  - rewrite retrieving_step.
    destruct (Hmore c w) as (p & w1 & -> & ->).
    destruct (IH (Shopify.concat acc (Shopify.items p))
                (Shopify.next_cursor p) w1) as (w' & t & -> & Ht).
    exists w', (Invoke (Shopify.getProdutVariants c) :: t).
    split; [done|]. cbn [length]. by rewrite Ht.
Qed.

(** X13. The pagination loop has no bound of its own: against a capability
    that reports a further cursor on every page, it is still retrieving
    after any number of iterations, having made one request in each. *)
Theorem getAllProductVariants_endless {W : Type} (h : handler Shopify.call W)
    (fuel : nat) (w : W) :
  (∀ c w, ∃ p w', h _ (Shopify.getProdutVariants c) w = (inr p, w')
                  ∧ truthy (Shopify.next_cursor p) = true) →
  ∃ w' t, run h (Shopify.getAllProductVariants fuel) w = (Resolved None, w', t)
          ∧ length t = fuel.
Proof. intros Hmore. by apply retrieving_endless. Qed.

Lemma getAllProductVariants_endless_salsa :
  ∃ w' t,
    run (ShopifyEngine.fetched endless_client)
      (Shopify.getAllProductVariants 5) 0
    = (Resolved None, w', t)
    ∧ length t = 5.
Proof.
  apply (getAllProductVariants_endless (ShopifyEngine.fetched endless_client)
           5 0).
  intros c w. do 2 eexists. rewrite fetched_eq.
  unfold ShopifyEngine.getProdutVariants.
  destruct (truthy c); cbn; split; reflexivity.
Defined.

(** *** How much is invoked *)

Section AtMost.
Variable q : capability → bool.

Lemma count_app (t1 t2 : list (invocation call)) :
  count q (t1 ++ t2) = count q t1 + count q t2.
Proof. unfold count. by rewrite List.filter_app, length_app. Qed.

Lemma at_most_Ret {A} (a : A) : at_most q (Ret a) 0.
Proof. intros W h w. done. Qed.

Lemma at_most_invoke {X} (c : call X) :
  at_most q (invoke c) (one q (capability_of (Invoke c))).
Proof.
  intros W h w. rewrite run_invoke. destruct (h X c w) as [r w1].
  unfold count, one. cbn [snd List.filter].
  by destruct (q (capability_of (Invoke c))).
Qed.

Lemma at_most_bind {A B} (p : prog call A) (f : A → prog call B) (n m : nat) :
  at_most q p n → (∀ a, at_most q (f a) m) → at_most q (bind p f) (n + m).
Proof.
  intros Hp Hf W h w. rewrite run_bind. specialize (Hp W h w).
  destruct (run h p w) as [[[a|e] w1] t1]; [|cbn [snd] in *; lia].
  specialize (Hf a W h w1). destruct (run h (f a) w1) as [[o w2] t2].
  cbn [snd] in *. rewrite count_app. lia.
Qed.

Lemma at_most_le {A} (p : prog call A) (n n' : nat) :
  at_most q p n → n ≤ n' → at_most q p n'.
Proof. intros Hp Hn W h w. specialize (Hp W h w). lia. Qed.

Lemma at_most_resolveAccountRefs :
  at_most q resolveAccountRefs (3 * one q FindAccountByName).
Proof.
  intros W h w. destruct (run_resolveAccountRefs_trace h w) as (o & w' & ->).
  unfold count, one. cbn [snd account_lookups List.filter capability_of].
  by destruct (q FindAccountByName).
Qed.

Lemma at_most_latestCategory (product : Product.t) :
  at_most q (latestCategory product)
    (one q FindCategoryByName + one q CreateCategory).
Proof.
  unfold latestCategory.
  destruct (truthy (Product.category product));
    [|eapply at_most_le; [apply at_most_Ret|lia]].
  eapply at_most_le;
    [apply at_most_bind; [|intros; apply at_most_Ret]|rewrite Nat.add_0_r; done].
  unfold findOrCreateCategoryByName.
  apply at_most_bind; [apply at_most_invoke|].
  intros [c|]; [eapply at_most_le; [apply at_most_Ret|lia]|apply at_most_invoke].
Qed.

Lemma at_most_nameGuard (same : option Item) (latest : Item) :
  at_most q (nameGuard same latest) (one q UpdateProduct).
Proof.
  destruct same as [s|]; cbn [nameGuard];
    [|eapply at_most_le; [apply at_most_Ret|lia]].
  destruct (Sku s == Sku latest);
    [eapply at_most_le; [apply at_most_Ret|lia]|].
  eapply at_most_le;
    [apply at_most_bind; [apply at_most_invoke|intros; apply at_most_Ret]|].
  cbn [capability_of]. lia.
Qed.

Lemma at_most_orBySKU (existing : option Item) (latest : Item) :
  at_most q (orBySKU existing latest) (one q FindProductBySKU).
Proof.
  destruct existing; cbn [orBySKU];
    [eapply at_most_le; [apply at_most_Ret|lia]|apply at_most_invoke].
Qed.

Lemma at_most_reconcile (existing : option Item) (latest : Item) :
  at_most q (reconcile existing latest)
    ((one q UpdateProduct)
     `max` (3 * one q FindAccountByName + one q Today + one q CreateProduct)).
Proof.
  destruct existing as [e|]; cbn [reconcile].
  - destruct (_ || _); [|eapply at_most_le; [apply at_most_Ret|lia]].
    eapply at_most_le;
      [apply at_most_bind; [apply at_most_invoke|intros; apply at_most_Ret]|].
    cbn [capability_of]. lia.
  - eapply at_most_le.
    + apply at_most_bind
        with (n := 3 * one q FindAccountByName)
             (m := one q Today + (one q CreateProduct + 0));
        [apply at_most_resolveAccountRefs|]. intros accounts.
      apply at_most_bind; [apply at_most_invoke|]. intros date.
      apply at_most_bind; [apply at_most_invoke|intros; apply at_most_Ret].
    + lia.
Qed.

Lemma at_most_syncProduct (product : Product.t) :
  at_most q (syncProduct product) (budget q).
Proof.
  unfold syncProduct, afterNameLookup. eapply at_most_le.
  - apply at_most_bind
      with (m := one q FindProductByName
                 + (one q UpdateProduct
                    + (one q FindProductBySKU
                       + (one q UpdateProduct)
                         `max` (3 * one q FindAccountByName + one q Today
                                + one q CreateProduct))));
      [apply at_most_latestCategory|]. intros c.
    apply at_most_bind; [apply at_most_invoke|]. intros same.
    apply at_most_bind; [apply at_most_nameGuard|]. intros guarded.
    apply at_most_bind; [apply at_most_orBySKU|]. intros existing.
    apply at_most_reconcile.
  - unfold budget. lia.
Qed.
End AtMost.

(** X14. Whatever the capabilities answer, syncProduct looks up and creates
    the product's own category only, and only when the product has one;
    looks up the product's own name and SKU only; and writes an item only
    as one of two kinds: active with the product's content (name, SKU,
    descriptions, prices, taxable, and a parent reference exactly when the
    product has a category), or, for a record of another SKU, inactive
    under the name made of an underscore and that record's SKU.  Updates
    are sent with sparse false. *)
Theorem syncProduct_invocations {W : Type} (h : handler call W)
    (product : Product.t) (w : W) :
  Forall (allowed product) (run h (syncProduct product) w).2.
Proof. apply always_syncProduct. Qed.

(** X15. Whatever the capabilities answer, one run of syncProduct makes at
    most ten invocations (the reading of the date counted as one), among
    them at most three writes, at most two updates, at most one
    createProduct and at most one createCategory. *)
Theorem syncProduct_bounded {W : Type} (h : handler call W)
    (product : Product.t) (w : W) :
  let t := (run h (syncProduct product) w).2 in
  length t ≤ 10
  ∧ length (writes t) ≤ 3
  ∧ length (List.filter is_updateProduct t) ≤ 2
  ∧ length (List.filter is_createProduct t) ≤ 1
  ∧ length (List.filter is_createCategory t) ≤ 1.
Proof.
  intros t. subst t.
  assert (∀ (P : invocation call → bool) (q : capability → bool),
            (∀ i, P i = q (capability_of i)) →
            length (List.filter P (run h (syncProduct product) w).2)
            ≤ budget q) as Hq.
  { intros P q HP. rewrite (List.filter_ext _ _ HP).
    apply (at_most_syncProduct q product W h w). }
  repeat split.
  - pose proof (Hq (fun _ => true) (fun _ => true) (fun _ => eq_refl)) as H.
    rewrite forallb_filter_id in H; [exact H|]. by apply forallb_forall.
  - apply (Hq is_write
             (fun c => match c with
                       | CreateCategory | CreateProduct | UpdateProduct => true
                       | _ => false
                       end)).
    intros [X c]. by destruct c.
  - apply (Hq is_updateProduct
             (fun c => match c with UpdateProduct => true | _ => false end)).
    intros [X c]. by destruct c.
  - apply (Hq is_createProduct
             (fun c => match c with CreateProduct => true | _ => false end)).
    intros [X c]. by destruct c.
  - apply (Hq is_createCategory
             (fun c => match c with CreateCategory => true | _ => false end)).
    intros [X c]. by destruct c.
Qed.

(** *** The longest run *)

(** The bounds are attained: a product with a new category, whose name is
    held by a record of another SKU, in a store that has no record of its
    SKU. *)
Lemma syncProduct_longest_run :
  let t := (run store (syncProduct food_salsa) salsa_store).2 in
  length t = 10 ∧ length (writes t) = 3.
Proof. split; reflexivity. Qed.

(** ** Account references *)

Lemma addAccount_found (accounts : Accounts) (a : Account.t) :
  ∃ accounts',
    addAccount accounts (Some a) = Ret accounts'
    ∧ income_account_ref accounts'
      = (if Account.Name a == val "Sales of Product Income"
         then val {| value := Account.Id a; name := Account.Name a |}
         else income_account_ref accounts)
    ∧ expense_account_ref accounts'
      = (if Account.Name a == val "Cost of Goods Sold"
         then val {| value := Account.Id a; name := Account.Name a |}
         else expense_account_ref accounts)
    ∧ asset_account_ref accounts'
      = (if Account.Name a == val "Inventory Asset"
         then val {| value := Account.Id a; name := Account.Name a |}
         else asset_account_ref accounts).
Proof.
  eexists. split; [reflexivity|].
  destruct (Account.Name a == val "Sales of Product Income"),
           (Account.Name a == val "Cost of Goods Sold"),
           (Account.Name a == val "Inventory Asset"); done.
Qed.

Lemma run_Promise_all_accounts {W : Type} (h : handler call W)
    (w w1 w2 w3 : W) (r1 r2 r3 : exn + option Account.t) :
  h _ (findAccountByName "Sales of Product Income") w = (r1, w1) →
  h _ (findAccountByName "Cost of Goods Sold") w1 = (r2, w2) →
  h _ (findAccountByName "Inventory Asset") w2 = (r3, w3) →
  run h resolveAccountRefs w
  = let '(o, w', t) :=
      run h (bind (gather [r1; r2; r3]) (fun results =>
               reduce addAccount results no_accounts)) w3 in
    (o, w', account_lookups ++ t).
Proof.
  intros H1 H2 H3. unfold resolveAccountRefs, Promise_all.
  rewrite !run_bind. cbn [all_settled run]. rewrite H1.
  rewrite !run_bind. cbn [all_settled run]. rewrite H2.
  rewrite !run_bind. cbn [all_settled run]. rewrite H3.
  cbn [bind run app].
  destruct (run h (gather [r1; r2; r3]) w3) as [[[results|e] w4] t4]; [|done].
  by destruct (run h (reduce addAccount results no_accounts) w4)
    as [[o w5] t5].
Qed.

(** X16. When the three account lookups each answer with an account,
    resolveAccountRefs resolves with references assigned by the name each
    account came back under, not by the lookup that returned it: each
    reference is that of the last returned account bearing the name, and
    stays undefined, without failure, when no returned account bears it. *)
Theorem resolveAccountRefs_by_name {W : Type} (h : handler call W)
    (w w1 w2 w3 : W) (a1 a2 a3 : Account.t) :
  h _ (findAccountByName "Sales of Product Income") w = (inr (Some a1), w1) →
  h _ (findAccountByName "Cost of Goods Sold") w1 = (inr (Some a2), w2) →
  h _ (findAccountByName "Inventory Asset") w2 = (inr (Some a3), w3) →
  ∃ accounts,
    run h resolveAccountRefs w = (Resolved accounts, w3, account_lookups)
    ∧ income_account_ref accounts
      = ref_by_name "Sales of Product Income" [a1; a2; a3]
    ∧ expense_account_ref accounts
      = ref_by_name "Cost of Goods Sold" [a1; a2; a3]
    ∧ asset_account_ref accounts
      = ref_by_name "Inventory Asset" [a1; a2; a3].
Proof.
  intros H1 H2 H3.
  rewrite (run_Promise_all_accounts h _ _ _ _ _ _ _ H1 H2 H3).
  cbn [gather bind reduce].
  destruct (addAccount_found no_accounts a1) as (acc1 & -> & I1 & E1 & A1).
  cbn [bind].
  destruct (addAccount_found acc1 a2) as (acc2 & -> & I2 & E2 & A2).
  cbn [bind].
  destruct (addAccount_found acc2 a3) as (acc3 & -> & I3 & E3 & A3).
  cbn [bind run]. exists acc3. split; [done|].
  unfold ref_by_name. cbn [rev app List.find].
  rewrite I3, I2, I1, E3, E2, E1, A3, A2, A1. cbn [no_accounts
    income_account_ref expense_account_ref asset_account_ref].
  split; [|split];
    repeat match goal with
           | |- context [if ?b then _ else _] => destruct b
           end; reflexivity.
Qed.

Lemma resolveAccountRefs_by_name_ledger :
  ∃ accounts,
    run store resolveAccountRefs salsa_store
    = (Resolved accounts, salsa_store, account_lookups)
    ∧ income_account_ref accounts
      = val {| value := val "79"; name := val "Sales of Product Income" |}
    ∧ expense_account_ref accounts
      = val {| value := val "80"; name := val "Cost of Goods Sold" |}
    ∧ asset_account_ref accounts
      = val {| value := val "81"; name := val "Inventory Asset" |}.
Proof.
  exact (resolveAccountRefs_by_name store salsa_store _ _ _ _ _ _
           eq_refl eq_refl eq_refl).
Defined.

(** X17. On the create path, when an account lookup is rejected the two
    other lookups are made all the same, the run is rejected with the
    rejection of a lookup, and neither the date is read nor createProduct
    invoked. *)
Theorem create_path_account_rejected {W : Type} (h : handler call W)
    (w w1 w2 w3 : W) (r1 r2 r3 : exn + option Account.t) (latest : Item) :
  h _ (findAccountByName "Sales of Product Income") w = (r1, w1) →
  h _ (findAccountByName "Cost of Goods Sold") w1 = (r2, w2) →
  h _ (findAccountByName "Inventory Asset") w2 = (r3, w3) →
  (∃ e, In (inl e) [r1; r2; r3]) →
  ∃ e, In (inl e) [r1; r2; r3]
       ∧ run h (reconcile None latest) w = (Threw e, w3, account_lookups).
Proof.
  intros H1 H2 H3 Hrej. cbn [reconcile].
  rewrite run_bind, (run_Promise_all_accounts h _ _ _ _ _ _ _ H1 H2 H3).
  destruct r1 as [e1|x1].
  { exists e1. split; [by left|done]. }
  destruct r2 as [e2|x2].
  { exists e2. split; [by right; left|done]. }
  destruct r3 as [e3|x3].
  { exists e3. split; [by right; right; left|done]. }
  destruct Hrej as [e [H|[H|[H|[]]]]]; discriminate.
Qed.

Lemma create_path_account_rejected_dropped :
  run (dropping "Cost of Goods Sold")
    (reconcile None (latestProduct new_salsa None)) salsa_store
  = (Threw (Rejected "socket hang up"), salsa_store, account_lookups).
Proof.
  destruct (create_path_account_rejected (dropping "Cost of Goods Sold")
              salsa_store _ _ _ _ _ _ (latestProduct new_salsa None)
              eq_refl eq_refl eq_refl) as (e & He & Hrun).
  - eexists. right. left. reflexivity.
  - destruct He as [He|[He|[He|[]]]]; try discriminate.
    injection He as <-. exact Hrun.
Defined.

(** ** From the storefront to the accounting store *)

(** X18. A product parsed from a variant of a batch that the validator
    found ok, with a price and a cost that parsed to numbers, is synced
    once and for all: on an in-memory store that holds at most one item id
    under its name, a second run of syncProduct on the store the first run
    left writes nothing.  The validator's rule on leading underscores
    keeps the product's name apart from the names the engine gives to the
    records it sets aside. *)
Theorem validated_sync_twice (parseFloat : js string → float)
    (variants : list Shopify.Variant) (v : Shopify.Variant) (p : Product.t)
    (s : Store) :
  Shopify.ok (Shopify.validateProductVariants variants) = true →
  In v variants →
  Shopify.parseProduct parseFloat v = Resolved p →
  (Product.unit_price p == Product.unit_price p) = true →
  (Product.purchase_cost p == Product.purchase_cost p) = true →
  (∀ x y, In x (items s) → In y (items s) →
          Name x = Product.name p → Name y = Product.name p → Id x = Id y) →
  second_writes s p = [].
Proof.
  intros Hok Hv Hp Hprice Hcost Hone.
  assert (∀ k, Product.name p ≠ val ("_" +:+ k)) as Hname.
  { pose proof (ok_well_formed variants Hok) as Hwf.
    rewrite Forall_forall in Hwf.
    apply list_elem_of_In in Hv.
    destruct (well_formed_parses parseFloat v (Hwf v Hv))
      as (p' & Hp' & Hn & _ & Hk & _).
    rewrite Hp in Hp'. injection Hp' as <-.
    intros k. rewrite Hn. intros [= Heq]. by apply (Hk k). }
  unfold second_writes.
  change (syncProduct p)
    with (bind (latestCategory p) (fun c => itemStage (latestProduct p c))).
  rewrite run_bind.
  destruct (store_latestCategory p s) as (c & s1 & t & Hrun & Hitems & Hagain).
  rewrite Hrun.
  destruct (itemStage_twice (latestProduct p c) Hprice Hcost s1)
    as (o & s2 & t2 & Hrun2 & Hcat & Hsecond).
  { by rewrite Hitems. }
  { intros a _ _. apply Hname. }
  rewrite Hrun2, run_bind.
  destruct (Hagain s2 Hcat) as (t' & -> & Hw').
  destruct (run store (itemStage (latestProduct p c)) s2) as [[o' s3] t3].
  cbn [snd] in *. unfold writes in *. by rewrite List.filter_app, Hw', Hsecond.
Qed.

Lemma validated_sync_twice_salsa :
  ∃ p, Shopify.parseProduct (fun _ => 5%float)
         (variant_of (val "v1") "Salsa" "S1" "B1") = Resolved p
       ∧ second_writes salsa_store p = [].
Proof.
  eexists. split; [reflexivity|].
  apply (validated_sync_twice (fun _ => 5%float) salsa_chips
           (variant_of (val "v1") "Salsa" "S1" "B1")).
  - reflexivity.
  - by left.
  - reflexivity.
  - reflexivity.
  - reflexivity.
  - intros x y [<-|[]] [<-|[]] _ _. reflexivity.
Defined.

(** ** After a write *)

(** X19. The item that syncProduct writes for a target, by update or by
    creation, compares as unchanged against that target exactly when the
    target's unit price and purchase cost are equal to themselves under
    the language's ==; a price or a cost that is NaN is seen as a change
    again on every run. *)
Theorem written_item_unchanged_iff (existing latest : Item)
    (accounts : Accounts) (date : string) :
  (didChangeProductContent (updated existing latest) latest = false
   ↔ (UnitPrice latest == UnitPrice latest) = true
     ∧ (PurchaseCost latest == PurchaseCost latest) = true)
  ∧ (didChangeProductContent (created latest accounts date) latest = false
     ↔ (UnitPrice latest == UnitPrice latest) = true
       ∧ (PurchaseCost latest == PurchaseCost latest) = true).
Proof.
  unfold didChangeProductContent.
  cbn [updated created ParentRef Name Sku Description UnitPrice PurchaseCost].
  rewrite !loose_eq_refl.
  assert ((negb (truthy (ParentRef latest)) && negb (truthy (ParentRef latest))
           || match ParentRef latest with
              | val e => match ParentRef latest with
                         | val l => value e == value l
                         | _ => false
                         end
              | _ => false
              end) = true) as ->.
  { destruct (ParentRef latest) as [| |r]; cbn; rewrite ?loose_eq_refl; done. }
  cbn [andb]. rewrite negb_false_iff, andb_true_iff. tauto.
Qed.
